(** * A shallow embedding of padmy's migration and sampling engines

    Sources: [src/padmy/migration/utils.py], [src/padmy/migration/reorder.py],
    [src/padmy/migration/migration.py], [src/padmy/sampling/sampling.py] and
    [src/padmy/db.py].  Strings are ASCII [string]s, timestamps are integers
    (microseconds since the epoch for [datetime] values), the file system is an
    association list from file names to contents, and everything that raises in
    Python returns [Err]. *)

From Stdlib Require Import String Ascii List ZArith QArith Lia Bool.
From Stdlib Require Import Sorting.Sorted Sorting.Permutation Structures.OrdersEx QArith.Qround.
Import ListNotations.
Open Scope string_scope.

(** ** Results of code that may raise *)

Inductive result (A : Type) : Type :=
| Ok : A -> result A
| Err : string -> result A.
Arguments Ok {A} _.
Arguments Err {A} _.

Definition bind {A B} (r : result A) (k : A -> result B) : result B :=
  match r with Ok a => k a | Err e => Err e end.

Notation "x <- r ;; k" := (bind r (fun x => k))
  (at level 61, r at next level, right associativity).

(** ** Python [str] operations on ASCII strings *)
Module PyStr.

(** [str.split(sep)] with a one-character separator: always at least one
    piece, empty pieces kept. *)
Fixpoint split (sep : ascii) (s : string) : list string :=
  match s with
  | EmptyString => [EmptyString]
  | String c rest =>
      match split sep rest with
      | [] => [EmptyString] (* unreachable: [split] is never empty *)
      | p :: ps =>
          if Ascii.eqb c sep then EmptyString :: p :: ps
          else String c p :: ps
      end
  end.

(** [sep.join(parts)] *)
Fixpoint join (sep : string) (parts : list string) : string :=
  match parts with
  | [] => EmptyString
  | [p] => p
  | p :: ps => p ++ sep ++ join sep ps
  end.

(** [s.startswith(p)] *)
Definition startswith (s p : string) : bool := String.prefix p s.

(** [str.isspace] on one ASCII character: tab, line feed, vertical tab,
    form feed, carriage return, the four separators 0x1c-0x1f, space. *)
Definition isspace (c : ascii) : bool :=
  let n := nat_of_ascii c in
  ((9 <=? n) && (n <=? 13))%nat || ((28 <=? n) && (n <=? 32))%nat.

Fixpoint lstrip (s : string) : string :=
  match s with
  | String c rest => if isspace c then lstrip rest else s
  | EmptyString => EmptyString
  end.

Fixpoint rev_str (s : string) : string :=
  match s with
  | EmptyString => EmptyString
  | String c rest => rev_str rest ++ String c EmptyString
  end.

Definition rstrip (s : string) : string := rev_str (lstrip (rev_str s)).

(** [s.strip()] *)
Definition strip (s : string) : string := rstrip (lstrip s).

(** [s.lower()] on ASCII *)
Definition lower_char (c : ascii) : ascii :=
  let n := nat_of_ascii c in
  if ((65 <=? n) && (n <=? 90))%nat then ascii_of_nat (n + 32) else c.

Fixpoint lower (s : string) : string :=
  match s with
  | EmptyString => EmptyString
  | String c rest => String (lower_char c) (lower rest)
  end.

Fixpoint forallb_str (f : ascii -> bool) (s : string) : bool :=
  match s with
  | EmptyString => true
  | String c rest => f c && forallb_str f rest
  end.

Fixpoint existsb_str (f : ascii -> bool) (s : string) : bool :=
  match s with
  | EmptyString => false
  | String c rest => f c || existsb_str f rest
  end.

Definition has_char (c : ascii) (s : string) : bool :=
  existsb_str (fun x => Ascii.eqb x c) s.

(** [s.endswith(p)] *)
Definition endswith (s p : string) : bool :=
  String.prefix (rev_str p) (rev_str s).

(** [s.replace(old, new)] for a non-empty [old]: every non-overlapping
    occurrence, left to right. *)
Fixpoint replace_fuel (fuel : nat) (old new s : string) : string :=
  match fuel with
  | O => s
  | S f =>
      match s with
      | EmptyString => EmptyString
      | String c rest =>
          if String.prefix old s
          then new ++ replace_fuel f old new (substring (String.length old) (String.length s) s)
          else String c (replace_fuel f old new rest)
      end
  end.

Definition replace (old new s : string) : string :=
  replace_fuel (S (String.length s)) old new s.

End PyStr.

Definition nl : ascii := "010"%char.
Definition nl_str : string := String nl EmptyString.
Definition colon : ascii := ":"%char.

(** ** [Header] (migration/utils.py) *)
Module Migration.
Import PyStr.

Definition PREFIX_author := "-- Author:".
Definition PREFIX_prev_file := "-- Prev-file:".
Definition PREFIX_version := "-- Version:".
Definition PREFIX_skip_verify := "-- Skip-verify:".
Definition PREFIXES := [PREFIX_author; PREFIX_prev_file; PREFIX_version; PREFIX_skip_verify].

Record Header := mkHeaderRaw {
  prev_file : option string;
  author : option string;
  version : option string;
  skip_verify : bool;
  skip_reason : option string
}.

(** The dataclass constructor with its [__post_init__]. *)
Definition mk_header (p a v : option string) (sv : bool) (sr : option string) : Header :=
  mkHeaderRaw p a v sv
    (if sv then match sr with None => Some "no reason provided" | Some r => Some r end
     else sr).

(** Python truthiness of an optional string. *)
Definition truthy (o : option string) : bool :=
  match o with None => false | Some s => negb (String.eqb s "") end.

Definition is_empty (h : Header) : bool :=
  negb (truthy (prev_file h) || truthy (author h) || truthy (version h)).

(** [line.split(":")[1].strip()]; the lines this is applied to start with a
    prefix containing a colon, so index 1 exists. *)
Definition field_value (line : string) : string :=
  strip (nth 1 (split colon line) EmptyString).

Record parse_acc := { pa_prev : option string; pa_author : option string;
  pa_version : option string; pa_skip : bool; pa_reason : option string }.

Definition from_text_step (acc : parse_acc) (line : string) : parse_acc :=
  if startswith line PREFIX_prev_file then
    {| pa_prev := Some (field_value line); pa_author := pa_author acc;
       pa_version := pa_version acc; pa_skip := pa_skip acc; pa_reason := pa_reason acc |}
  else if startswith line PREFIX_author then
    {| pa_prev := pa_prev acc; pa_author := Some (field_value line);
       pa_version := pa_version acc; pa_skip := pa_skip acc; pa_reason := pa_reason acc |}
  else if startswith line PREFIX_version then
    {| pa_prev := pa_prev acc; pa_author := pa_author acc;
       pa_version := Some (field_value line); pa_skip := pa_skip acc; pa_reason := pa_reason acc |}
  else if startswith line PREFIX_skip_verify then
    {| pa_prev := pa_prev acc; pa_author := pa_author acc;
       pa_version := pa_version acc; pa_skip := true;
       pa_reason := Some (lower (field_value line)) |}
  else acc.

Definition acc0 := {| pa_prev := None; pa_author := None; pa_version := None;
                      pa_skip := false; pa_reason := None |}.

Definition from_text (text : string) : Header :=
  let acc := fold_left from_text_step (split nl text) acc0 in
  mk_header (pa_prev acc) (pa_author acc) (pa_version acc) (pa_skip acc) (pa_reason acc).

(** The value [from_text] keeps for the field of prefix [p]: that of the
    last line starting with [p], [None] when no line does. *)
Definition last_field_step (p : string) (o : option string) (line : string) : option string :=
  if startswith line p then Some (field_value line) else o.

Definition last_field (p : string) (lines : list string) : option string :=
  fold_left (last_field_step p) lines None.

(** [textwrap.dedent]: lines made only of blanks and tabs become empty, then
    the common leading margin is removed.  In [as_text] the first line always
    starts with ["-- Prev-file:"], so the common margin is empty and only the
    blank-line normalisation remains. *)
Definition blank_or_tab (c : ascii) : bool :=
  Ascii.eqb c " "%char || Ascii.eqb c "009"%char.

Definition dedent_line (l : string) : string :=
  match l with
  | EmptyString => EmptyString
  | _ => if forallb_str blank_or_tab l then EmptyString else l
  end.

Definition dedent_no_margin (text : string) : string :=
  join nl_str (map dedent_line (split nl text)).

(** [x or ''] *)
Definition or_empty (o : option string) : string :=
  match o with Some s => s | None => "" end.

(** [self.skip_reason or 'no reason provided'] *)
Definition reason_or_default (o : option string) : string :=
  match o with
  | Some r => if String.eqb r "" then "no reason provided" else r
  | None => "no reason provided"
  end.

(** The [_header] list built by [as_text]. *)
Definition header_lines (h : Header) : list string :=
  app [PREFIX_prev_file ++ " " ++ or_empty (prev_file h);
       PREFIX_author ++ " " ++ or_empty (author h)]
  (app (match version h with Some v => [PREFIX_version ++ " " ++ v] | None => [] end)
       (if skip_verify h
        then [PREFIX_skip_verify ++ " " ++ reason_or_default (skip_reason h)]
        else [])).

Definition as_text (h : Header) : string :=
  strip (dedent_no_margin (join nl_str (header_lines h))).

(** Values that survive the ["-- Key: value"] line format: no colon, no
    newline, no surrounding whitespace ([s == s.strip()]). *)
Definition clean (s : string) : bool :=
  negb (has_char colon s) && negb (has_char nl s)
  && String.eqb (lstrip s) s && String.eqb (rstrip s) s.


End Migration.

(** ** Migration files on disk (migration/utils.py, reorder.py, migration.py) *)
Module Files.
Import PyStr Migration.
Local Open Scope Z_scope.

(** A migration folder: the file names with their contents, in the order
    [Path.glob] lists them.  A real directory holds each name once. *)
Definition folder := list (string * string).

(** [MigrationFile]; [ts] is the file's timestamp in whole seconds (the
    [datetime] read back from the file name). *)
Record MigrationFile := mkMF {
  ts : Z;
  file_id : string;
  file_type : string;
  path_name : string;
  header : option Header
}.

(** *** [int(s)] on an ASCII string *)
Definition is_digit (c : ascii) : bool :=
  let n := nat_of_ascii c in ((48 <=? n) && (n <=? 57))%nat.

Definition digit_value (c : ascii) : Z := Z.of_nat (nat_of_ascii c - 48)%nat.

(** Decimal digits with single underscores between digits. *)
Fixpoint dec_digits (s : string) (acc : Z) (after_us : bool) : option Z :=
  match s with
  | EmptyString => if after_us then None else Some acc
  | String c r =>
      if is_digit c then dec_digits r (acc * 10 + digit_value c) false
      else if Ascii.eqb c "_"%char then (if after_us then None else dec_digits r acc true)
      else None
  end.

Definition py_int_body (s : string) : option Z :=
  match s with
  | String c _ => if is_digit c then dec_digits s 0 false else None
  | EmptyString => None
  end.

(** [int(s)]: surrounding whitespace, an optional sign, then the digits. *)
Definition py_int (s : string) : option Z :=
  match strip s with
  | String c r =>
      if Ascii.eqb c "+"%char then py_int_body r
      else if Ascii.eqb c "-"%char then option_map Z.opp (py_int_body r)
      else py_int_body (String c r)
  | EmptyString => None
  end.

(** [datetime.fromtimestamp(t, tz=UTC)]: the result must lie between
    0001-01-01 00:00:00 and 9999-12-31 23:59:59. *)
Definition MIN_TS : Z := -62135596800.
Definition MAX_TS : Z := 253402300799.

Definition fromtimestamp (t : Z) : result Z :=
  if (MIN_TS <=? t) && (t <=? MAX_TS) then Ok t else Err "year is out of range".

(** [parse_filename] *)
Definition parse_filename (filename : string) : result (Z * string * string) :=
  match split "-"%char filename with
  | [t; file_id; file_type] =>
      match py_int t with
      | None => Err "invalid literal for int() with base 10"
      | Some n =>
          file_ts <- fromtimestamp n ;;
          Ok (file_ts, file_id, replace ".sql" "" file_type)
      end
  | _ => Err "wrong number of values to unpack"
  end.

(** [MigrationFile.from_file] *)
Definition from_file (name content : string) : result MigrationFile :=
  infos <- parse_filename name ;;
  let '(t, i, k) := infos in
  let h := from_text content in
  Ok (mkMF t i k name (if is_empty h then None else Some h)).

(** [folder.glob("*.sql")], or [folder.glob("*-up.sql")] when [up_only]. *)
Definition glob_match (up_only : bool) (name : string) : bool :=
  if up_only then endswith name "-up.sql" else endswith name ".sql".

(** The sort key [attrgetter("ts", "file_id")]: [key_le a b] is
    [(a.ts, a.file_id) <= (b.ts, b.file_id)]. *)
Definition key_le (a b : MigrationFile) : bool :=
  match Z.compare (ts a) (ts b) with
  | Lt => true
  | Gt => false
  | Eq => match String_as_OT.compare (file_id a) (file_id b) with Gt => false | _ => true end
  end.

(** [sorted] is stable: an element goes before the first element it is not
    greater than, so equal keys keep their input order. *)
Fixpoint insert_mf (x : MigrationFile) (l : list MigrationFile) : list MigrationFile :=
  match l with
  | [] => [x]
  | y :: t => if key_le x y then x :: l else y :: insert_mf x t
  end.

Fixpoint sort_mf (l : list MigrationFile) : list MigrationFile :=
  match l with
  | [] => []
  | x :: t => insert_mf x (sort_mf t)
  end.

Fixpoint map_result {A B} (f : A -> result B) (l : list A) : result (list B) :=
  match l with
  | [] => Ok []
  | x :: t => y <- f x ;; ys <- map_result f t ;; Ok (y :: ys)
  end.

(** [get_files(folder, up_only=...)] (ascending order; the [reverse] flag is
    only used by [reorder_files_by_applied_migrations]). *)
Definition get_files (fs : folder) (up_only : bool) : result (list MigrationFile) :=
  files <- map_result (fun p => from_file (fst p) (snd p))
                      (filter (fun p => glob_match up_only (fst p)) fs) ;;
  Ok (sort_mf files).

(** [itertools.groupby(files, lambda x: x.file_id)] *)
Fixpoint groupby_id (l : list MigrationFile) : list (list MigrationFile) :=
  match l with
  | [] => []
  | x :: t =>
      match groupby_id t with
      | (y :: g) :: gs =>
          if String.eqb (file_id x) (file_id y) then (x :: y :: g) :: gs
          else [x] :: (y :: g) :: gs
      | gs => [x] :: gs
      end
  end.

Definition is_up (f : MigrationFile) : bool := String.eqb (file_type f) "up".
Definition is_down (f : MigrationFile) : bool := String.eqb (file_type f) "down".

(** The body of one step of [iter_migration_files]: one group, one pair. *)
Definition pair_of_group (g : list MigrationFile) : result (MigrationFile * MigrationFile) :=
  match filter is_up g with
  | [u] =>
      match filter is_down g with
      | [d] => Ok (u, d)
      | [] => Err "No down file found"
      | _ => Err "Found several down files"
      end
  | [] => Err "No up file found"
  | _ => Err "Found several up files"
  end.

(** [list(iter_migration_files(files))]: the generator run to its end.  The
    callers that act between two steps walk [groupby_id] themselves and call
    [pair_of_group] at each step, as the generator does. *)
Definition iter_migration_files (files : list MigrationFile)
  : result (list (MigrationFile * MigrationFile)) :=
  map_result pair_of_group (groupby_id files).

(** *** [verify_migration_files] *)
Inductive MigrationErrorType := EOrder | EHeader | EDuplicate.

Record MigrationFileError := mkMFE { error_type : MigrationErrorType; err_file_id : string }.

(** [f.header is not None and f.header.prev_file != prev.path.name] is false *)
Definition header_ok (f prev : MigrationFile) : bool :=
  match header f with
  | None => true
  | Some h => match prev_file h with
              | Some p => String.eqb p (path_name prev)
              | None => false
              end
  end.

(** The [try] block: the first check that fails. *)
Definition check_pair (pu pd u d : MigrationFile) : option MigrationFileError :=
  if ts u <? ts pu then Some (mkMFE EOrder (file_id u))
  else if ts d <? ts pd then Some (mkMFE EOrder (file_id d))
  else if negb (header_ok u pu) then Some (mkMFE EHeader (file_id u))
  else if negb (header_ok d pd) then Some (mkMFE EHeader (file_id d))
  else None.

Definition mem_str (x : string) (l : list string) : bool := existsb (String.eqb x) l.

Fixpoint verify_loop (raise_error : bool) (prev : option (MigrationFile * MigrationFile))
  (ids : list string) (groups : list (list MigrationFile))
  : result (list (MigrationFile * MigrationFile * MigrationFileError)) :=
  match groups with
  | [] => Ok []
  | g :: gs =>
      f <- pair_of_group g ;;
      match prev with
      | None => verify_loop raise_error (Some f) ids gs
      | Some (pu, pd) =>
          let (u, d) := f in
          if mem_str (file_id u) ids then Err "Duplicate file_id"
          else
            match check_pair pu pd u d with
            | Some e =>
                if raise_error then Err "MigrationFileError"
                else rest <- verify_loop raise_error (Some f) (file_id u :: ids) gs ;;
                     Ok ((u, d, e) :: rest)
            | None => verify_loop raise_error (Some f) (file_id u :: ids) gs
            end
      end
  end.

Definition verify_migration_files (fs : folder) (raise_error : bool)
  : result (list (MigrationFile * MigrationFile * MigrationFileError)) :=
  files <- get_files fs false ;;
  verify_loop raise_error None [] (groupby_id files).

(** *** The file system operations used by [reorder.py] *)
Definition read_file (fs : folder) (n : string) : option string :=
  match find (fun p => String.eqb (fst p) n) fs with
  | Some p => Some (snd p)
  | None => None
  end.

(** [Path.write_text]: replaces the contents, or creates the file. *)
Definition write_text (fs : folder) (n c : string) : folder :=
  if existsb (fun p => String.eqb (fst p) n) fs
  then map (fun p => if String.eqb (fst p) n then (n, c) else p) fs
  else app fs [(n, c)].

(** [Path.rename] (POSIX [rename]): an existing target is replaced; renaming
    a file to its own name does nothing. *)
Definition rename (fs : folder) (old new : string) : result folder :=
  match read_file fs old with
  | None => Err "No such file or directory"
  | Some _ =>
      if String.eqb old new then Ok fs
      else Ok (map (fun p => if String.eqb (fst p) old then (new, snd p) else p)
                   (filter (fun p => negb (String.eqb (fst p) new)) fs))
  end.

(** [line.startswith(tuple(PREFIXES.values()))] *)
Definition has_prefix (line : string) : bool := existsb (startswith line) PREFIXES.

(** [MigrationFile.write_header] *)
Definition write_header (fs : folder) (mf : MigrationFile) : folder :=
  match header mf with
  | None => fs
  | Some h =>
      let rest :=
        match read_file fs (path_name mf) with
        | Some c => nl_str ++ join nl_str (filter (fun l => negb (has_prefix l)) (split nl c))
        | None => nl_str
        end in
      write_text fs (path_name mf) (as_text h ++ rest)
  end.

(** [header.prev_file = name] (an attribute assignment: no [__post_init__]). *)
Definition set_prev (h : Header) (p : string) : Header :=
  mkHeaderRaw (Some p) (author h) (version h) (skip_verify h) (skip_reason h).

Definition set_header (mf : MigrationFile) (h : Header) : MigrationFile :=
  mkMF (ts mf) (file_id mf) (file_type mf) (path_name mf) (Some h).

(** [_fix_file]; [error_type] other than ["header"] raises. *)
Definition fix_file (fs : folder) (u d pu pd : MigrationFile) (et : MigrationErrorType)
  : result folder :=
  match et with
  | EHeader =>
      match header u, header d with
      | Some hu, Some hd =>
          let u' := set_header u (set_prev hu (path_name pu)) in
          let d' := set_header d (set_prev hd (path_name pd)) in
          Ok (write_header (write_header fs u') d')
      | _, _ => Err "Header is missing"
      end
  | _ => Err "Reorder error type is not implemented"
  end.

(** [{error.file_id: error for _, _, error in invalid_files}.get(file_id)]:
    the last error of a file id wins. *)
Definition lookup_error (errs : list (MigrationFile * MigrationFile * MigrationFileError))
  (id : string) : option MigrationFileError :=
  fold_left (fun acc x => let '(_, _, e) := x in
                          if String.eqb (err_file_id e) id then Some e else acc) errs None.

Fixpoint repair_loop (fs : folder) (errs : list (MigrationFile * MigrationFile * MigrationFileError))
  (prev : option (MigrationFile * MigrationFile)) (groups : list (list MigrationFile))
  (modified : list string) : result (folder * list string) :=
  match groups with
  | [] => Ok (fs, modified)
  | g :: gs =>
      f <- pair_of_group g ;;
      match prev with
      | None => repair_loop fs errs (Some f) gs modified
      | Some (pu, pd) =>
          let (u, d) := f in
          match lookup_error errs (file_id u) with
          | Some e =>
              fs' <- fix_file fs u d pu pd (error_type e) ;;
              repair_loop fs' errs (Some f) gs (app modified [path_name u; path_name d])
          | None => repair_loop fs errs (Some f) gs modified
          end
      end
  end.

(** [repair_headers]: the new folder and the modified paths. *)
Definition repair_headers (fs : folder) : result (folder * list string) :=
  invalid <- verify_migration_files fs false ;;
  match invalid with
  | [] => Ok (fs, [])
  | _ :: _ =>
      files <- get_files fs false ;;
      repair_loop fs invalid None (groupby_id files) []
  end.

(** *** [reorder_files_by_last] *)

(** [str(n)] for an integer. *)
Fixpoint digits_fuel (fuel : nat) (n : Z) (acc : string) : string :=
  match fuel with
  | O => acc
  | S f =>
      let acc' := String (ascii_of_nat (48 + Z.to_nat (n mod 10))%nat) acc in
      if n <? 10 then acc' else digits_fuel f (n / 10) acc'
  end.

Definition str_of_nonneg (n : Z) : string :=
  digits_fuel (S (Z.to_nat (Z.log2 n))) n EmptyString.

Definition str_of_Z (n : Z) : string :=
  if n <? 0 then "-" ++ str_of_nonneg (- n) else str_of_nonneg n.

(** The file names written by [replace_ts] depend on the host's time zone:
    [MigrationFile.name] calls [timestamp()] on a naive [datetime] (the
    naive UTC time of [utc_now()] or of [parse_filename]), which Python reads
    as local time.  [local u] is the host's local wall-clock time, in
    seconds from 1970-01-01 00:00, of the instant [u] seconds after the
    epoch ([time.localtime(u)]); [fun u => u] is a host on UTC. *)
Section LocalTime.
Variable local : Z -> Z.

(** [datetime._mktime] for [fold = 0]: the instant [u] with [local u = t],
    the earlier one when [t] is ambiguous, [max(u1, u2)] when [t] falls in
    a gap. *)
Definition py_mktime (t : Z) : Z :=
  let a := local t - t in
  let u1 := t - a in
  let t1 := local u1 in
  let b := if t1 =? t then local (u1 - 86400) - (u1 - 86400) else t1 - u1 in
  if (t1 =? t) && (a =? b) then u1
  else
    let u2 := t - b in
    if local u2 =? t then u2 else if t1 =? t then u1 else Z.max u1 u2.

(** [int(ts.timestamp())] for the naive [datetime] [t_us] microseconds
    from 1970-01-01 00:00: [timestamp()] is [_mktime()] of the whole
    seconds plus [microsecond / 1e6], and [int] truncates towards zero (the
    rounding of the float sum, which matters only from year 2514 on, is
    left out). *)
Definition name_ts (t_us : Z) : Z :=
  Z.quot (py_mktime (t_us / 1000000) * 1000000 + t_us mod 1000000) 1000000.

(** [MigrationFile.name] for a file whose in-memory [ts] is [t_us]. *)
Definition mf_name (t_us : Z) (mf : MigrationFile) : string :=
  str_of_Z (name_ts t_us) ++ "-" ++ file_id mf ++ "-" ++ file_type mf ++ ".sql".

(** [MigrationFile.replace_ts]: the file on disk and its new name. *)
Definition replace_ts (fs : folder) (mf : MigrationFile) (t_us : Z) : result (folder * string) :=
  let n := mf_name t_us mf in
  fs' <- rename fs (path_name mf) n ;; Ok (fs', n).

Definition remove_str (x : string) (l : list string) : list string :=
  filter (fun y => negb (String.eqb x y)) l.




End LocalTime.

(** A host whose local time is UTC. *)
Definition utc_local (u : Z) : Z := u.

(** A host whose local time is [o] seconds ahead of UTC all year round. *)
Definition fixed_offset_local (o : Z) (u : Z) : Z := u + o.

(** *** [get_migration_files] (migration.py) and the ledger *)

(** A row of [public.migration]. *)
Record LedgerRow := mkRow {
  l_file_ts : Z;
  l_file_name : string;
  l_file_id : string;
  l_migration_type : string;
  l_applied_at : Z
}.

(** The rows of [_GET_LATEST_MIGRATION_QUERY] before [order by]: the [up]
    rows with no [down] row of the same [file_id] (the left join is null). *)
Definition unreverted (ledger : list LedgerRow) (r : LedgerRow) : bool :=
  String.eqb (l_migration_type r) "up"
  && negb (existsb (fun r' => String.eqb (l_migration_type r') "down"
                              && String.eqb (l_file_id r') (l_file_id r)) ledger).

(** [order by applied_at desc, file_ts desc]: [r] comes no later than [r']. *)
Definition row_ge (r r' : LedgerRow) : bool :=
  (l_applied_at r' <? l_applied_at r)
  || ((l_applied_at r' =? l_applied_at r) && (l_file_ts r' <=? l_file_ts r)).

(** What [conn.fetchrow(_GET_LATEST_MIGRATION_QUERY)] may return: no row when
    the filtered set is empty, otherwise one of its rows that is first in the
    ordering ([limit 1] picks any one of rows tied on both keys). *)
Definition latest_query (ledger : list LedgerRow) (o : option LedgerRow) : Prop :=
  match o with
  | None => forall r, In r ledger -> unreverted ledger r = false
  | Some r => In r ledger /\ unreverted ledger r = true /\
              forall r', In r' ledger -> unreverted ledger r' = true -> row_ge r r' = true
  end.

(** One deterministic reading of the query: the first row that no later row
    beats. *)
Definition pick_latest (ledger : list LedgerRow) : option LedgerRow :=
  fold_left (fun acc r =>
               if unreverted ledger r then
                 match acc with
                 | Some a => if row_ge a r then Some a else Some r
                 | None => Some r
                 end
               else acc) ledger None.

(** The list comprehension's condition. *)
Definition to_apply (latest : option LedgerRow) (u : MigrationFile) : bool :=
  match latest with
  | None => true
  | Some l => (l_file_ts l <=? ts u) && negb (String.eqb (path_name u) (l_file_name l))
  end.

(** [get_migration_files(conn, folder, nb_migrations=nb)] once the latest
    row has been fetched. *)
Definition get_migration_files (latest : option LedgerRow) (fs : folder) (nb : Z)
  : result (list MigrationFile) :=
  files <- get_files fs false ;;
  pairs <- iter_migration_files files ;;
  let sel := filter (to_apply latest) (map fst pairs) in
  Ok (if 0 <? nb then firstn (Z.to_nat nb) sel else sel).

(** *** The skip decision of [migrate_verify] *)

(** [MigrationFile.skip_verify] *)
Definition mf_skip_verify (mf : MigrationFile) : bool :=
  match header mf with Some h => skip_verify h | None => false end.

(** [_skip] for the pair of index [i] of [migration_files]. *)
Definition skip_pair (only_last : bool) (nb_files : nat) (i : nat) (d : MigrationFile) : bool :=
  mf_skip_verify d
  || (only_last && negb (Nat.eqb i (Nat.div nb_files 2 - 1)) && negb (Nat.eqb nb_files 2)).

Fixpoint skip_list (only_last : bool) (nb_files i : nat)
  (pairs : list (MigrationFile * MigrationFile)) : list bool :=
  match pairs with
  | [] => []
  | (_, d) :: ps => skip_pair only_last nb_files i d :: skip_list only_last nb_files (S i) ps
  end.

(** The skip decisions [migrate_verify] takes, pair by pair. *)
Definition migrate_verify_skips (fs : folder) (only_last : bool) : result (list bool) :=
  files <- get_files fs false ;;
  pairs <- iter_migration_files files ;;
  Ok (skip_list only_last (length files) 0 pairs).

End Files.

(** ** Sampling (db.py, sampling/sampling.py) *)
Module Sampling.
Local Open Scope Z_scope.

Record FKConstraint := mkFK {
  column_names : list string;
  foreign_schema : string;
  foreign_table : string;
  foreign_column_names : list string
}.

Definition foreign_full_name (fk : FKConstraint) : string :=
  foreign_schema fk ++ "." ++ foreign_table fk.

Record Column := mkColumn { col_name : string; is_generated : bool }.

(** [Table] after [Database.explore] and [Database.load_config]; [tcount] is
    the loaded [count]. *)
Record Table := mkTable {
  schema : string;
  table : string;
  columns : list Column;
  foreign_keys : list FKConstraint;
  primary_keys : list string;
  tcount : Z;
  sample_size : option Z;
  ignore : bool
}.

Definition full_name (t : Table) : string := schema t ++ "." ++ table t.

(** A row: column names with their values, [None] being SQL [NULL]. *)
Definition Row := list (string * option Z).

Definition get (r : Row) (c : string) : option Z :=
  match find (fun p => String.eqb (fst p) c) r with Some p => snd p | None => None end.

Definition is_gen (t : Table) (c : string) : bool :=
  existsb (fun col => String.eqb (col_name col) c && is_generated col) (columns t).

(** The columns [table.values] lists: [INSERT INTO ... (values) SELECT values]
    copies the non-generated columns; the generated ones are computed again by
    the server and are not tracked here. *)
Definition proj (t : Table) (r : Row) : Row :=
  filter (fun p => negb (is_gen t (fst p))) r.

(** [_s.col = t.fcol] for every column pair of the constraint: SQL [=] is
    never true on [NULL]. *)
Definition fk_matches (fk : FKConstraint) (s t : Row) : bool :=
  forallb (fun cc => match get s (fst cc), get t (snd cc) with
                     | Some a, Some b => a =? b
                     | _, _ => false
                     end) (combine (column_names fk) (foreign_column_names fk)).

(** The row holds a reference through [fk]: none of its columns is [NULL]. *)
Definition holds_ref (fk : FKConstraint) (c : Row) : bool :=
  forallb (fun a => match get c a with Some _ => true | None => false end) (column_names fk).

(** [c] has a foreign key to [p] (by name). *)
Definition has_fk_to (c p : Table) : bool :=
  existsb (fun fk => String.eqb (foreign_full_name fk) (full_name p)) (foreign_keys c).

(** [parent_tables_safe] and [child_tables_safe]: [explore] links the tables
    through their foreign keys; a table itself and ignored tables are left
    out. *)
Definition parent_tables_safe (db : list Table) (t : Table) : list Table :=
  filter (fun p => has_fk_to t p && negb (String.eqb (full_name p) (full_name t)) && negb (ignore p)) db.

Definition child_tables_safe (db : list Table) (t : Table) : list Table :=
  filter (fun c => has_fk_to c t && negb (String.eqb (full_name c) (full_name t)) && negb (ignore c)) db.

Definition is_root (db : list Table) (t : Table) : bool :=
  match parent_tables_safe db t with [] => true | _ => false end.

Definition is_leaf (db : list Table) (t : Table) : bool :=
  match child_tables_safe db t with [] => negb (is_root db t) | _ => false end.

(** The sampling state: the names of the processed tables
    ([has_been_processed]) and the temporary tables' rows. *)
Record SState := mkSState { processed : list string; tmp : string -> list Row }.

Definition is_processed (st : SState) (t : Table) : bool :=
  existsb (String.eqb (full_name t)) (processed st).

Definition upd (f : string -> list Row) (k : string) (v : list Row) : string -> list Row :=
  fun x => if String.eqb x k then v else f x.

(** Marks [t] processed with the given temporary table. *)
Definition finish (st : SState) (t : Table) (rows : list Row) : SState :=
  mkSState (full_name t :: processed st) (upd (tmp st) (full_name t) rows).

Definition st0 : SState := mkSState [] (fun _ => []).

(** [floor(table.count * table.sample_size / 100)]; the model divides exactly,
    which the float division matches while [count * sample_size] stays below
    7 * 10^15. *)
Definition table_size (t : Table) : result Z :=
  match sample_size t with
  | None => Err "Got empty sample_size"
  | Some s => Ok ((tcount t * s) / 100)
  end.

(** A set of tables as a list without two tables of one name. *)
Definition mem_table (t : Table) (l : list Table) : bool :=
  existsb (fun x => String.eqb (full_name x) (full_name t)) l.

Definition union (a b : list Table) : list Table :=
  fold_left (fun acc x => if mem_table x acc then acc else app acc [x]) b a.

(** [_tables == _parent_tables]: tables are equal when their names and
    [has_been_processed] flags are (each name is one object, so the flags
    agree). *)
Definition set_eq (a b : list Table) : bool :=
  forallb (fun x => mem_table x b) a && forallb (fun x => mem_table x a) b.

Section Engine.
(** The source database's rows, by table name. *)
Variable src : string -> list Row.
(** [TABLESAMPLE SYSTEM_ROWS(n)]: some rows of the table. *)
Variable system_rows : Table -> Z -> list Row.
(** The rows [get_insert_data_query] selects with [LIMIT n]: rows of the
    table whose primary key is not yet in the temporary table. *)
Variable pick_rows : Table -> list Row -> Z -> list Row.
(** The iteration order of a Python [set]. *)
Variable set_order : list Table -> list Table.

(** The rows of [t] [get_insert_child_fk_data_query(t, c)] inserts: the
    inner joins ask, for every foreign key of [c] to [t], for a row of the
    temporary table of [c] that references the row. *)
Definition child_fk_rows (st : SState) (t c : Table) : list Row :=
  map (proj t)
    (filter (fun r => forallb (fun fk => negb (String.eqb (foreign_full_name fk) (full_name t))
                                         || existsb (fun s => fk_matches fk s r) (tmp st (full_name c)))
                              (foreign_keys c))
            (src (full_name t))).

(** [get_insert_data_query]: its condition is joined with ["and "] (no
    leading space), so a composite primary key makes the query invalid. *)
Definition insert_data (t : Table) (cur : list Row) (limit : Z) : result (list Row) :=
  match primary_keys t with
  | _ :: _ :: _ => Err "syntax error in get_insert_data_query"
  | _ => Ok (map (proj t) (pick_rows t cur limit))
  end.

(** [_insert_node_table]; [ON CONFLICT DO NOTHING] only drops rows equal to
    rows already inserted, which the list keeps twice. *)
Definition insert_node_table (db : list Table) (st : SState) (t : Table) (size : Z)
  : result (list Row) :=
  let rows := concat (map (child_fk_rows st t) (set_order (child_tables_safe db t))) in
  let count := Z.of_nat (length rows) in
  if count <? size then extra <- insert_data t rows (size - count) ;; Ok (app rows extra)
  else Ok rows.

Definition unprocessed (st : SState) (l : list Table) : list Table :=
  filter (fun x => negb (is_processed st x)) l.

(** [process_table]: the new state and the returned set. *)
Definition process_table (db : list Table) (st : SState) (t : Table)
  : result (SState * list Table) :=
  if is_processed st t then Err "Table has already been processed" else
  size <- table_size t ;;
  if is_leaf db t then
    let st' := finish st t (system_rows t size) in
    Ok (st', unprocessed st' (parent_tables_safe db t))
  else if forallb (is_processed st) (child_tables_safe db t) then
    rows <- insert_node_table db st t size ;;
    let st' := finish st t rows in
    Ok (st', unprocessed st' (parent_tables_safe db t))
  else Ok (st, unprocessed st (child_tables_safe db t)).

(** One pass of the [while] loop over [_tables]. *)
Fixpoint pass (db : list Table) (st : SState) (ts : list Table) (acc : list Table)
  : result (SState * list Table) :=
  match ts with
  | [] => Ok (st, acc)
  | t :: rest =>
      if is_processed st t then pass db st rest acc
      else r <- process_table db st t ;;
           let (st', ret) := r in pass db st' rest (union acc ret)
  end.

(** The [while] loop, run for at most [fuel] passes; [None] when the fuel
    runs out. *)
Fixpoint ctt_loop (fuel : nat) (db : list Table) (st : SState) (ts : list Table)
  : option (result SState) :=
  match fuel with
  | O => None
  | S f =>
      match ts with
      | [] => Some (Ok st)
      | _ :: _ =>
          match pass db st (set_order ts) [] with
          | Err e => Some (Err e)
          | Ok (st', parents) =>
              if set_eq ts parents then Some (Err "Cyclic foreign keys detected")
              else ctt_loop f db st' parents
          end
      end
  end.

(** [create_temp_tables(conn, tables)] with [start_from="node"]. *)
Definition create_temp_tables (fuel : nat) (db : list Table) : option (result SState) :=
  match filter (fun t => is_root db t && negb (ignore t)) db with
  | [] => Some (Err "No node table found")
  | roots => ctt_loop fuel db st0 roots
  end.

Definition lookup_table (db : list Table) (n : string) : option Table :=
  find (fun t => String.eqb (full_name t) n) db.

(** [sample_database]: the rows each table of the target receives
    ([SELECT values FROM tmp], inserted with [ON CONFLICT DO NOTHING] into
    the empty target). *)
Definition sample_database (fuel : nat) (db : list Table) : option (result (string -> list Row)) :=
  match create_temp_tables fuel db with
  | None => None
  | Some (Err e) => Some (Err e)
  | Some (Ok st) =>
      if forallb (is_processed st) db
      then Some (Ok (fun n => match lookup_table db n with
                              | Some t => map (proj t) (tmp st n)
                              | None => []
                              end))
      else Some (Err "Found tables that has not been processed")
  end.

End Engine.

(** *** [Database.load_config] (db.py, config.py) *)
Record ConfigTable := mkConfigTable {
  ct_schema : string; ct_table : string; ct_sample : option Q; ct_ignore : bool }.
Record ConfigSchema := mkConfigSchema { cs_schema : string; cs_sample : option Q }.
Record Config := mkConfig {
  cfg_sample : option Q; cfg_schemas : list ConfigSchema; cfg_tables : list ConfigTable }.

(** A dict built by a comprehension: the last entry of a key wins. *)
Definition dict_get {A} (key : A -> string) (l : list A) (k : string) : option A :=
  fold_left (fun acc x => if String.eqb (key x) k then Some x else acc) l None.

(** [get_first(a, b, c, fn=lambda x: x is not None)] *)
Definition get_first {A} (l : list (option A)) : option A :=
  fold_right (fun o acc => match o with Some x => Some x | None => acc end) None l.

(** [int(x)] on a non-negative [float | int]: truncation. *)
Definition py_int_of_Q (q : Q) : Z := Qfloor q.

Definition config_sample (cfg : Config) (t : Table) : option Q :=
  let cs := dict_get cs_schema (cfg_schemas cfg) (schema t) in
  let ct := dict_get (fun c => ct_schema c ++ "." ++ ct_table c) (cfg_tables cfg) (full_name t) in
  get_first [match ct with Some c => ct_sample c | None => None end;
             match cs with Some s => cs_sample s | None => None end;
             cfg_sample cfg].

Definition load_table_config (cfg : Config) (t : Table) : result Table :=
  match config_sample cfg t with
  | None => Err "_sample must not be empty"
  | Some s =>
      let ct := dict_get (fun c => ct_schema c ++ "." ++ ct_table c) (cfg_tables cfg) (full_name t) in
      Ok (mkTable (schema t) (table t) (columns t) (foreign_keys t) (primary_keys t) (tcount t)
                  (Some (py_int_of_Q s))
                  (match ct with Some c => ct_ignore c | None => ignore t end))
  end.

(** [db.load_config(config)] *)
Definition load_config (db : list Table) (cfg : Config) : result (list Table) :=
  match db with
  | [] => Err "Tables must be loaded first"
  | _ => Files.map_result (load_table_config cfg) db
  end.

End Sampling.

(** ** Auxiliary notions for the statements and proofs *)
Module Aux.
Import PyStr Migration.

(** A line that starts with a dash. *)
Definition dash (l : string) : bool :=
  match l with String c _ => Ascii.eqb c "-"%char | EmptyString => false end.

Definition nonspace (c : ascii) : bool := negb (isspace c).

(** What [rstrip] leaves of the text after a prefix that ends in a colon. *)
Definition rtail (t : string) : string :=
  if existsb_str nonspace t then rstrip t else EmptyString.

(** The header of the first migration of a folder: no previous file, no
    author, no version. *)
Definition h_first : Header := mk_header None None None false None.

(** The pair invariants [verify_migration_files] is meant to enforce between
    two consecutive migrations [p] and [q]. *)
Definition pair_step_ok (p q : Files.MigrationFile * Files.MigrationFile) : Prop :=
  (Files.ts (fst p) <= Files.ts (fst q))%Z /\ (Files.ts (snd p) <= Files.ts (snd q))%Z /\
  (forall h, Files.header (fst q) = Some h -> prev_file h = Some (Files.path_name (fst p))) /\
  (forall h, Files.header (snd q) = Some h -> prev_file h = Some (Files.path_name (snd p))).

Fixpoint chain_ok (ps : list (Files.MigrationFile * Files.MigrationFile)) : Prop :=
  match ps with
  | p :: ((q :: _) as rest) => pair_step_ok p q /\ chain_ok rest
  | _ => True
  end.

(** *** [migrate_up]'s selection in the words of the spec *)

(** Modelled from the spec: a ledger row of kind [down] with the file id of [r]. *)
Definition spec_has_down (ledger : list Files.LedgerRow) (r : Files.LedgerRow) : Prop :=
  exists d, In d ledger /\ Files.l_migration_type d = "down" /\ Files.l_file_id d = Files.l_file_id r.

(** Modelled from the spec: [latestApplied] is the most recent (largest
    [applied_at]) ledger row of kind [up] with no matching [down] row, and is
    [None] when there is no such row. *)
Definition spec_latest_applied (ledger : list Files.LedgerRow) (o : option Files.LedgerRow) : Prop :=
  match o with
  | None => ~ exists r, In r ledger /\ Files.l_migration_type r = "up" /\ ~ spec_has_down ledger r
  | Some r =>
      In r ledger /\ Files.l_migration_type r = "up" /\ ~ spec_has_down ledger r /\
      forall r', In r' ledger -> Files.l_migration_type r' = "up" -> ~ spec_has_down ledger r' ->
                 (Files.l_applied_at r' <= Files.l_applied_at r)%Z
  end.

(** Modelled from the spec: the pending up files, in the given (ascending)
    order, cut to the first [n] when [n] is positive. *)
Definition spec_pending (latest : option Files.LedgerRow) (ups : list Files.MigrationFile) (n : Z)
  : list Files.MigrationFile :=
  let sel := filter (fun u => match latest with
                              | None => true
                              | Some l => (Files.l_file_ts l <=? Files.ts u)%Z
                                          && negb (String.eqb (Files.path_name u) (Files.l_file_name l))
                              end) ups in
  if (0 <? n)%Z then firstn (Z.to_nat n) sel else sel.

End Aux.

(** ** Derived notions used by the proofs *)
Module Helpers.
Import PyStr Migration Files.

(** The sort key order as a relation. *)
Definition key_rel (a b : MigrationFile) : Prop := key_le a b = true.

Definition up_id (p : MigrationFile * MigrationFile) : string := file_id (fst p).

Definition no_nl_opt (o : option string) : Prop :=
  match o with Some s => has_char nl s = false | None => True end.

Definition acc_no_nl (acc : parse_acc) : Prop :=
  no_nl_opt (pa_author acc) /\ no_nl_opt (pa_version acc) /\ no_nl_opt (pa_reason acc).

(** The [header] that [from_file] gives a file with contents [c]. *)
Definition hdr (c : string) : option Header :=
  let h := from_text c in if is_empty h then None else Some h.

Definition with_header (f : MigrationFile) (o : option Header) : MigrationFile :=
  mkMF (ts f) (file_id f) (file_type f) (path_name f) o.

(** A file as [from_file] reads it back from the folder [fs]. *)
Definition reparse (fs : folder) (f : MigrationFile) : MigrationFile :=
  with_header f (match read_file fs (path_name f) with Some c => hdr c | None => header f end).

(** All files of a group share one [file_id]. *)
Definition uniform (g : list MigrationFile) : Prop :=
  exists i, Forall (fun y => file_id y = i) g.

Definition name_ok (f : MigrationFile) : Prop := clean (path_name f) = true /\ path_name f <> "".

(** The folder [fs] holds the contents the file was parsed from. *)
Definition file_inv (fs : folder) (f : MigrationFile) : Prop :=
  exists c, read_file fs (path_name f) = Some c /\ header f = hdr c.

Definition prev_ok (prev : option (MigrationFile * MigrationFile)) : Prop :=
  match prev with Some (pu, pd) => name_ok pu /\ name_ok pd | None => True end.

Definition rr (fs : folder) (p : MigrationFile * MigrationFile) : MigrationFile * MigrationFile :=
  (reparse fs (fst p), reparse fs (snd p)).


End Helpers.

(** ** Referential closure of a sample *)
Module SamplingHelpers.
Import Sampling.

(** Every foreign-key reference held by a row of [rows] (none of its columns
    [NULL]) is matched by a row of the referenced table in [rows]. *)
Definition fk_closed (db : list Table) (rows : string -> list Row) : bool :=
  forallb (fun c =>
    forallb (fun s =>
      forallb (fun fk =>
        negb (holds_ref fk s) ||
        match lookup_table db (foreign_full_name fk) with
        | Some p => existsb (fun r => fk_matches fk s r) (rows (full_name p))
        | None => false
        end) (foreign_keys c)) (rows (full_name c))) db.

(** The foreign keys of [c] the closure argument covers: the referenced
    table is in [db] and is not [c] itself, its referenced columns are not
    generated, and [c] has no other foreign key to that table. *)
Definition ref_target_ok (db : list Table) (c : Table) (fk : FKConstraint) : bool :=
  match lookup_table db (foreign_full_name fk) with
  | Some p =>
      negb (String.eqb (full_name p) (full_name c)) &&
      forallb (fun col => negb (is_gen p col)) (foreign_column_names fk) &&
      Nat.eqb (length (filter (fun fk' => String.eqb (foreign_full_name fk') (foreign_full_name fk))
                              (foreign_keys c))) 1
  | None => false
  end.

Definition fks_ok (db : list Table) : bool :=
  forallb (fun c => forallb (ref_target_ok db c) (foreign_keys c)) db.

(** The invariant of [create_temp_tables]: processed tables are non-ignored
    tables of [db]; temporary rows are source rows, possibly projected;
    a processed table's children are processed; references between
    processed tables are matched in the temporary tables. *)
Definition sinv (src : string -> list Row) (db : list Table) (st : SState) : Prop :=
  (forall n, In n (processed st) -> exists t, In t db /\ full_name t = n /\ ignore t = false) /\
  (forall c s, In c db -> In s (tmp st (full_name c)) ->
     exists s0, In s0 (src (full_name c)) /\ (s = s0 \/ s = proj c s0)) /\
  (forall p c, In p db -> is_processed st p = true -> In c (child_tables_safe db p) ->
     is_processed st c = true) /\
  (forall c p fk s, In c db -> In p db -> is_processed st c = true -> is_processed st p = true ->
     In s (tmp st (full_name c)) -> In fk (foreign_keys c) -> foreign_full_name fk = full_name p ->
     holds_ref fk s = true -> exists r, In r (tmp st (full_name p)) /\ fk_matches fk s r = true).

Definition tables_ok (db : list Table) (l : list Table) : Prop :=
  forall t, In t l -> In t db /\ ignore t = false.

End SamplingHelpers.

(** ** Example folders and ledgers *)
Module Examples.
Import Files.
Local Open Scope Z_scope.

(** Three migrations [a], [b], [c]; [b] was applied, then reverted. *)
Definition ex_row_a : LedgerRow := mkRow 100 "100-a-up.sql" "a" "up" 1.

Definition ex_ledger : list LedgerRow :=
  [ex_row_a; mkRow 200 "200-b-up.sql" "b" "up" 2; mkRow 200 "200-b-down.sql" "b" "down" 3].

Definition ex_folder3 : folder :=
  [("100-a-up.sql", "SELECT 1;"); ("100-a-down.sql", "SELECT 1;");
   ("200-b-up.sql", "SELECT 2;"); ("200-b-down.sql", "SELECT 2;");
   ("300-c-up.sql", "SELECT 3;"); ("300-c-down.sql", "SELECT 3;")].

(** [a] at second 1, [b] at second 2, [a] again at second 3; every
    header names the previous file of its kind. *)
Definition ex_folder_dup : folder :=
  [("1-a-up.sql", "SELECT 1;"); ("1-a-down.sql", "SELECT 1;");
   ("2-b-up.sql", "-- Prev-file: 1-a-up.sql
-- Author: x
SELECT 2;");
   ("2-b-down.sql", "-- Prev-file: 1-a-down.sql
-- Author: x
SELECT 2;");
   ("3-a-up.sql", "-- Prev-file: 2-b-up.sql
-- Author: x
SELECT 3;");
   ("3-a-down.sql", "-- Prev-file: 2-b-down.sql
-- Author: x
SELECT 3;")].

(** [a], [b], [c], then [b] again at second 4, without headers. *)
Definition ex_folder_dup_later : folder :=
  [("1-a-up.sql", "SELECT 1;"); ("1-a-down.sql", "SELECT 1;");
   ("2-b-up.sql", "SELECT 2;"); ("2-b-down.sql", "SELECT 2;");
   ("3-c-up.sql", "SELECT 3;"); ("3-c-down.sql", "SELECT 3;");
   ("4-b-up.sql", "SELECT 4;"); ("4-b-down.sql", "SELECT 4;")].

(** [b]'s headers name a file that does not exist. *)
Definition ex_fix : folder :=
  [("1-a-up.sql", "SELECT 1;"); ("1-a-down.sql", "SELECT 1;");
   ("2-b-up.sql", "-- Prev-file: wrong
-- Author: x
SELECT 2;");
   ("2-b-down.sql", "-- Prev-file: wrong
-- Author: x
SELECT 2;")].

(** [ex_fix] once its headers are repaired. *)
Definition ex_fix_repaired : folder :=
  [("1-a-up.sql", "SELECT 1;"); ("1-a-down.sql", "SELECT 1;");
   ("2-b-up.sql", "-- Prev-file: 1-a-up.sql
-- Author: x
SELECT 2;");
   ("2-b-down.sql", "-- Prev-file: 1-a-down.sql
-- Author: x
SELECT 2;")].

(** As [ex_fix], with a colon in the first migration's id. *)
Definition ex_colon : folder :=
  [("1-a:x-up.sql", "SELECT 1;"); ("1-a:x-down.sql", "SELECT 1;");
   ("2-b-up.sql", "-- Prev-file: wrong
-- Author: x
SELECT 2;");
   ("2-b-down.sql", "-- Prev-file: wrong
-- Author: x
SELECT 2;")].








(** A table of 8 rows whose configuration asks for 12.5 percent. *)
Definition ex_table8 : Sampling.Table := Sampling.mkTable "public" "t" [] [] [] 8 None false.

Definition ex_cfg_half : Sampling.Config :=
  Sampling.mkConfig (Some 10%Q) [] [Sampling.mkConfigTable "public" "t" (Some (25 # 2)%Q) false].

(** A root [r], a table [a] with foreign keys to [r] and [b], and a table
    [b] with a foreign key to [a]: [a] and [b] form a cycle. *)
Definition ex_tR : Sampling.Table := Sampling.mkTable "public" "r" [] [] ["id"] 10 (Some 10) false.

Definition ex_tA : Sampling.Table :=
  Sampling.mkTable "public" "a" []
    [Sampling.mkFK ["r_id"] "public" "r" ["id"]; Sampling.mkFK ["b_id"] "public" "b" ["id"]]
    ["id"] 10 (Some 10) false.

Definition ex_tB : Sampling.Table :=
  Sampling.mkTable "public" "b" [] [Sampling.mkFK ["a_id"] "public" "a" ["id"]] ["id"] 10 (Some 10) false.

Definition ex_db6 : list Sampling.Table := [ex_tR; ex_tA; ex_tB].

End Examples.

Module SamplingExamples.
Import Sampling.
Local Open Scope Z_scope.

(** [TABLESAMPLE SYSTEM_ROWS(n)] taking the first [n] rows. *)
Definition firstn_rows (src : string -> list Row) (t : Table) (n : Z) : list Row :=
  firstn (Z.to_nat n) (src (full_name t)).

(** [get_insert_data_query] taking the first [n] rows whose primary key is
    not in the temporary table yet. *)
Definition same_pk (t : Table) (a b : Row) : bool :=
  forallb (fun k => match get a k, get b k with Some x, Some y => x =? y | _, _ => false end)
          (primary_keys t).

Definition pick_unseen (src : string -> list Row) (t : Table) (cur : list Row) (n : Z) : list Row :=
  firstn (Z.to_nat n) (filter (fun r => negb (existsb (fun c => same_pk t c r) cur)) (src (full_name t))).

(** [users], and [posts] whose [author_id] references [users]; in
    [ex_posts2] its [editor_id] references [users] too. *)
Definition ex_users : Table :=
  mkTable "public" "users" [mkColumn "id" false] [] ["id"] 2 (Some 50) false.
Definition ex_posts : Table :=
  mkTable "public" "posts" [mkColumn "id" false; mkColumn "author_id" false; mkColumn "editor_id" false]
    [mkFK ["author_id"] "public" "users" ["id"]] ["id"] 2 (Some 50) false.
Definition ex_posts2 : Table :=
  mkTable "public" "posts" [mkColumn "id" false; mkColumn "author_id" false; mkColumn "editor_id" false]
    [mkFK ["author_id"] "public" "users" ["id"]; mkFK ["editor_id"] "public" "users" ["id"]]
    ["id"] 2 (Some 50) false.
Definition ex_u1 : Row := [("id", Some 1)].
Definition ex_u2 : Row := [("id", Some 2)].
Definition ex_p1 : Row := [("id", Some 10); ("author_id", Some 1); ("editor_id", Some 2)].
Definition ex_p2 : Row := [("id", Some 11); ("author_id", Some 2); ("editor_id", Some 2)].
Definition ex_blog_src (n : string) : list Row :=
  if String.eqb n "public.users" then [ex_u1; ex_u2]
  else if String.eqb n "public.posts" then [ex_p1; ex_p2] else [].
Definition ex_blog : list Table := [ex_users; ex_posts].
Definition ex_blog2 : list Table := [ex_users; ex_posts2].

(** [emp] whose [manager_id] references [emp]. *)
Definition ex_emp : Table :=
  mkTable "public" "emp" [mkColumn "id" false; mkColumn "manager_id" false]
    [mkFK ["manager_id"] "public" "emp" ["id"]] ["id"] 2 (Some 50) false.
Definition ex_e1 : Row := [("id", Some 1); ("manager_id", Some 2)].
Definition ex_e2 : Row := [("id", Some 2); ("manager_id", None)].
Definition ex_emp_src (n : string) : list Row := if String.eqb n "public.emp" then [ex_e1; ex_e2] else [].


(** The target rows of the three runs with iteration in list order. *)
Definition ex_blog_target : string -> list Row :=
  match sample_database ex_blog_src (firstn_rows ex_blog_src) (pick_unseen ex_blog_src) (fun l => l) 10 ex_blog with
  | Some (Ok f) => f
  | _ => fun _ => []
  end.
Definition ex_blog2_target : string -> list Row :=
  match sample_database ex_blog_src (firstn_rows ex_blog_src) (pick_unseen ex_blog_src) (fun l => l) 10 ex_blog2 with
  | Some (Ok f) => f
  | _ => fun _ => []
  end.
Definition ex_emp_target : string -> list Row :=
  match sample_database ex_emp_src (firstn_rows ex_emp_src) (pick_unseen ex_emp_src) (fun l => l) 10 [ex_emp] with
  | Some (Ok f) => f
  | _ => fun _ => []
  end.

End SamplingExamples.

(** ** The ledger commands of [migration.py]: rollback, migrate up and down, missing migrations *)
Module MigrationOps.
Import Files.
Local Open Scope Z_scope.

(** [get_applied_migrations] read as the set [applied_migration_ids]: the
    [file_id] of every [up] row that no [down] row of the same [file_id]
    joins ([has_applied_rollback] false). *)
Definition applied_migration_ids (ledger : list LedgerRow) : list string :=
  map l_file_id (filter (unreverted ledger) ledger).

(** The [for ... else] of [get_rollback_files]: the list up to the first
    file of [migration_id], or [ValueError]. *)
Fixpoint take_through (m : string) (l : list MigrationFile) : result (list MigrationFile) :=
  match l with
  | [] => Err "Could not find migration_id"
  | r :: t => if String.eqb (file_id r) m then Ok [r]
              else rest <- take_through m t ;; Ok (r :: rest)
  end.

(** [get_rollback_files(conn, folder, nb_migrations=nb, migration_id=...)] *)
Definition get_rollback_files (ledger : list LedgerRow) (fs : folder) (nb : Z)
  (migration_id : option string) : result (list MigrationFile) :=
  if match migration_id with Some _ => 0 <=? nb | None => false end
  then Err "Specify either nb_migrations or migration_id"
  else
    let ids := applied_migration_ids ledger in
    files <- get_files fs false ;;
    pairs <- iter_migration_files files ;;
    let rb := rev (filter (fun d => mem_str (file_id d) ids) (map snd pairs)) in
    match migration_id with
    | Some m => take_through m rb
    | None => Ok (if 0 <? nb then firstn (Z.to_nat nb) rb else rb)
    end.

(** The rows [apply_migration] and [migrate_down] insert; [applied_at] is
    left to the table's default, the time [now] of the insert. *)
Definition up_row (now : Z) (f : MigrationFile) : LedgerRow :=
  mkRow (ts f) (path_name f) (file_id f) "up" now.

Definition down_row (now : Z) (f : MigrationFile) : LedgerRow :=
  mkRow (ts f) (path_name f) (file_id f) "down" now.

(** Running the files one after the other, each followed by the insert of
    its row; [exec f] tells whether [exec_file] runs the file without
    error (the first failure raises). *)
Fixpoint insert_rows (exec : MigrationFile -> bool) (row : MigrationFile -> LedgerRow)
  (files : list MigrationFile) (ledger : list LedgerRow) : result (list LedgerRow) :=
  match files with
  | [] => Ok ledger
  | f :: fs => if exec f then insert_rows exec row fs (app ledger [row f])
               else Err "Failed to execute migration"
  end.

(** [nb_migrations or -1] *)
Definition or_minus_one (nb : option Z) : Z :=
  match nb with Some n => if n =? 0 then -1 else n | None => -1 end.

(** [migrate_down]: the ledger afterwards and the returned flag. *)
Definition migrate_down (exec : MigrationFile -> bool) (now : Z) (ledger : list LedgerRow)
  (fs : folder) (nb : option Z) (migration_id : option string) : result (list LedgerRow * bool) :=
  files <- get_rollback_files ledger fs (or_minus_one nb) migration_id ;;
  match files with
  | [] => Ok (ledger, false)
  | _ :: _ => l <- insert_rows exec (down_row now) files ledger ;; Ok (l, true)
  end.

(** [migrate_up], given the row [_get_latest_migration] fetched. *)
Definition migrate_up (exec : MigrationFile -> bool) (now : Z) (ledger : list LedgerRow)
  (latest : option LedgerRow) (fs : folder) (nb : Z) : result (list LedgerRow * bool) :=
  files <- get_migration_files latest fs nb ;;
  match files with
  | [] => Ok (ledger, false)
  | _ :: _ => l <- insert_rows exec (up_row now) files ledger ;; Ok (l, true)
  end.

(** The [file_id]s of the [up] rows among the ids of [chunk] (the query of
    [get_missing_migrations]). *)
Definition up_ids_in (ledger : list LedgerRow) (chunk : list MigrationFile) : list string :=
  map l_file_id (filter (fun r => String.eqb (l_migration_type r) "up"
                                  && mem_str (l_file_id r) (map file_id chunk)) ledger).

Section Missing.
(** [get_chunks(files, size=chunk_size, as_list=True)] (tracktolib). *)
Variable chunks : list MigrationFile -> list (list MigrationFile).

(** [get_missing_migrations] *)
Definition get_missing_migrations (ledger : list LedgerRow) (fs : folder) : result (list MigrationFile) :=
  files <- get_files fs true ;;
  Ok (concat (map (fun chunk => filter (fun f => negb (mem_str (file_id f) (up_ids_in ledger chunk))) chunk)
                  (chunks files))).

(** [verify_migrations]: the ledger afterwards. *)
Definition verify_migrations (exec : MigrationFile -> bool) (now : Z) (ledger : list LedgerRow)
  (fs : folder) : result (list LedgerRow) :=
  missing <- get_missing_migrations ledger fs ;;
  match missing with
  | [] => Ok ledger
  | _ :: _ => insert_rows exec (up_row now) missing ledger
  end.
End Missing.

End MigrationOps.

(** ** [reorder_files_by_applied_migrations] and [rename_files] of [reorder.py] *)
Module ReorderApplied.
Import Files.
Local Open Scope Z_scope.

(** [sorted(files, key=attrgetter("ts", "file_id"), reverse=True)]: stable,
    so files with equal keys keep their input order. *)
Fixpoint insert_mf_desc (x : MigrationFile) (l : list MigrationFile) : list MigrationFile :=
  match l with
  | [] => [x]
  | y :: t => if key_le y x then x :: l else y :: insert_mf_desc x t
  end.

Fixpoint sort_mf_desc (l : list MigrationFile) : list MigrationFile :=
  match l with
  | [] => []
  | x :: t => insert_mf_desc x (sort_mf_desc t)
  end.

(** [get_files(folder, reverse=True)] *)
Definition get_files_desc (fs : folder) : result (list MigrationFile) :=
  files <- map_result (fun p => from_file (fst p) (snd p))
                      (filter (fun p => glob_match false (fst p)) fs) ;;
  Ok (sort_mf_desc files).

(** [set(last_applied_ids)], as the list of its distinct elements. *)
Fixpoint dedup_str (l : list string) : list string :=
  match l with
  | [] => []
  | x :: t => x :: remove_str x (dedup_str t)
  end.

Definition mpair := (MigrationFile * MigrationFile)%type.

(** The [for] loop of [reorder_files_by_applied_migrations]: [ids] is
    [_migration_ids], [n_last] is [len(last_applied_ids)]; the result is the
    remaining ids, [(last_up_file, last_down_file)], [commit_files],
    [to_reorder_files] and [after_files]. *)
Fixpoint applied_split (ids : list string) (n_last : nat) (groups : list (list MigrationFile))
  (commit to_reorder after : list mpair)
  : result (list string * option mpair * list mpair * list mpair * list mpair) :=
  match groups with
  | [] => Ok (ids, None, commit, to_reorder, after)
  | g :: gs =>
      f <- pair_of_group g ;;
      match ids with
      | [] => Ok (ids, Some f, commit, to_reorder, after)
      | _ :: _ =>
          let (u, d) := f in
          if mem_str (file_id u) ids then
            applied_split (remove_str (file_id u) ids) n_last gs (app commit [f]) to_reorder after
          else if Nat.eqb (length ids) n_last then
            applied_split ids n_last gs commit to_reorder (app after [f])
          else applied_split ids n_last gs commit (app to_reorder [f]) after
      end
  end.

Section LocalTime.
(** The host's local time, as for [Files.mf_name]. *)
Variable local : Z -> Z.

(** A file after [replace_ts]: its new path; its [ts] is read no more. *)
Definition moved (mf : MigrationFile) (n : string) (t_us : Z) : MigrationFile :=
  mkMF (Z.quot t_us 1000000) (file_id mf) (file_type mf) n (header mf).

(** The [for] loop of [rename_files]; [t_us] is [last_ts + i] seconds, in
    microseconds. *)
Fixpoint rename_loop (fs : folder) (t_us : Z) (prev : option mpair) (pairs : list mpair)
  (modified : list string) : result (folder * list string) :=
  match pairs with
  | [] => Ok (fs, modified)
  | (u, d) :: ps =>
      r1 <- replace_ts local fs u t_us ;;
      let (fs1, nu) := r1 in
      r2 <- replace_ts local fs1 d t_us ;;
      let (fs2, nd) := r2 in
      let u' := moved u nu t_us in
      let d' := moved d nd t_us in
      fs3 <- match prev with
             | Some (pu, pd) => fix_file fs2 u' d' pu pd EHeader
             | None => Ok fs2
             end ;;
      rename_loop fs3 (t_us + 1000000) (Some (u', d')) ps (app modified [nu; nd])
  end.

(** [rename_files(last_ts, last_migrations, migration_files)] *)
Definition rename_files (fs : folder) (last_ts : Z) (last : option mpair) (pairs : list mpair)
  : result (folder * list string) :=
  rename_loop fs last_ts last pairs [].

(** [reorder_files_by_applied_migrations(folder, last_applied_ids)] where
    [utc_now()] returns [now_us] microseconds since the epoch. *)
Definition reorder_files_by_applied_migrations (fs : folder) (last_applied_ids : list string)
  (now_us : Z) : result (folder * list string) :=
  match last_applied_ids with
  | [] => Ok (fs, [])
  | _ :: _ =>
      files <- get_files_desc fs ;;
      r <- applied_split (dedup_str last_applied_ids) (length last_applied_ids)
                         (groupby_id files) [] [] [] ;;
      let '(ids, last, commit, to_reorder, after) := r in
      match ids with
      | _ :: _ => Err "Some migration ids were not found"
      | [] => rename_files fs now_us last (app commit (app to_reorder after))
      end
  end.

End LocalTime.

(** Newest first, as [sorted(..., reverse=True)] orders files and pairs. *)
Definition key_desc (a b : MigrationFile) : Prop := Helpers.key_rel b a.
Definition pair_desc (p q : mpair) : Prop := Helpers.key_rel (fst q) (fst p).
Definition c_ids (c : list mpair) : list string := map (fun p => file_id (fst p)) c.
End ReorderApplied.

(** ** Where the rows [sample_database] copies come from *)
Module SamplingSources.
Import Sampling SamplingHelpers.

(** What [create_temp_tables] keeps whatever the foreign keys: processed
    tables are non-ignored tables of [db], temporary rows are source rows,
    possibly projected. *)
Definition linv (src : string -> list Row) (db : list Table) (st : SState) : Prop :=
  (forall n, In n (processed st) -> exists t, In t db /\ full_name t = n /\ ignore t = false) /\
  (forall c s, In c db -> In s (tmp st (full_name c)) ->
     exists s0, In s0 (src (full_name c)) /\ (s = s0 \/ s = proj c s0)).
End SamplingSources.

(** ** Decimal digits of [str(int)] *)
Module NameDigits.
Local Open Scope Z_scope.

(** The character [str] writes for the last decimal digit of [n]. *)
Definition digit_char (n : Z) : ascii := ascii_of_nat (48 + Z.to_nat (n mod 10))%nat.
End NameDigits.

(** ** Examples for the ledger commands and the file functions *)
Module LedgerExamples.
Import Files MigrationOps.
Local Open Scope Z_scope.

(** [Examples.ex_ledger] with [c] applied too; every file runs. *)
Definition ex_ledger_ac : list LedgerRow :=
  app Examples.ex_ledger [mkRow 300 "300-c-up.sql" "c" "up" 4].
Definition ex_exec (f : MigrationFile) : bool := true.
Definition mf_a_up : MigrationFile := mkMF 100 "a" "up" "100-a-up.sql" None.
Definition mf_a_down : MigrationFile := mkMF 100 "a" "down" "100-a-down.sql" None.
Definition mf_c_up : MigrationFile := mkMF 300 "c" "up" "300-c-up.sql" None.
Definition mf_c_down : MigrationFile := mkMF 300 "c" "down" "300-c-down.sql" None.
(** Chunks of size one. *)
Definition chunks_of_one (l : list MigrationFile) : list (list MigrationFile) := map (fun f => [f]) l.
(** The parsed files of [Examples.ex_folder3] and their pairs. *)
Definition ex_files3 : list MigrationFile :=
  [mf_a_up; mf_a_down; mkMF 200 "b" "up" "200-b-up.sql" None; mkMF 200 "b" "down" "200-b-down.sql" None;
   mf_c_up; mf_c_down].

Definition ex_pairs3 : list (MigrationFile * MigrationFile) :=
  [(mf_a_up, mf_a_down); (mkMF 200 "b" "up" "200-b-up.sql" None, mkMF 200 "b" "down" "200-b-down.sql" None);
   (mf_c_up, mf_c_down)].
End LedgerExamples.

Module ExtraExamples.
Import Files ReorderApplied.
Local Open Scope Z_scope.

(** The example of the docstring of [reorder_files_by_applied_migrations]:
    five migrations [a] to [e] at seconds 1000 to 1004, with headers; the
    last applied ids are [d] then [b]. *)
Definition mf_b_up : MigrationFile := mkMF 200 "b" "up" "200-b-up.sql" None.
Definition ex5_text (n : string) : string := "-- Prev-file: x
-- Author: x
SELECT " ++ n ++ ";".
Definition ex5 : folder :=
  [("1000-a-up.sql", ex5_text "0"); ("1000-a-down.sql", ex5_text "0");
   ("1001-b-up.sql", ex5_text "1"); ("1001-b-down.sql", ex5_text "1");
   ("1002-c-up.sql", ex5_text "2"); ("1002-c-down.sql", ex5_text "2");
   ("1003-d-up.sql", ex5_text "3"); ("1003-d-down.sql", ex5_text "3");
   ("1004-e-up.sql", ex5_text "4"); ("1004-e-down.sql", ex5_text "4")].
Definition ex5_now : Z := 2000000000000000.
Definition ex5_folder : folder :=
  match reorder_files_by_applied_migrations utc_local ex5 ["d"; "b"] ex5_now with Ok (f, _) => f | Err _ => [] end.
Definition ex5_modified : list string :=
  ["2000000000-d-up.sql"; "2000000000-d-down.sql"; "2000000001-b-up.sql"; "2000000001-b-down.sql";
   "2000000002-c-up.sql"; "2000000002-c-down.sql"; "2000000003-e-up.sql"; "2000000003-e-down.sql"].
End ExtraExamples.

(** * Proofs *)

(** ** Facts about the Python string operations *)
Module StrFacts.
Import PyStr.

Lemma existsb_str_app f a b :
  existsb_str f (a ++ b) = existsb_str f a || existsb_str f b.
Proof. induction a; simpl; [reflexivity | rewrite IHa, orb_assoc; reflexivity]. Qed.

Lemma split_no_sep sep s : has_char sep s = false -> split sep s = [s].
Proof.
  unfold has_char; induction s as [|c s IH]; simpl; [reflexivity|].
  intros H; apply orb_false_elim in H as [H1 H2].
  rewrite IH by exact H2. rewrite H1. reflexivity.
Qed.

Lemma split_app_sep sep a b :
  has_char sep a = false -> split sep (a ++ String sep b) = a :: split sep b.
Proof.
  unfold has_char; induction a as [|c a IH]; simpl; intros H.
  - destruct (split sep b) eqn:E.
    + destruct b; simpl in E; [discriminate|destruct (split sep b); try discriminate;
        destruct (Ascii.eqb a sep); discriminate].
    + rewrite Ascii.eqb_refl. reflexivity.
  - apply orb_false_elim in H as [H1 H2].
    rewrite IH by exact H2. rewrite H1. reflexivity.
Qed.

Lemma split_join sep ls :
  ls <> [] -> Forall (fun l => has_char sep l = false) ls ->
  split sep (join (String sep EmptyString) ls) = ls.
Proof.
  induction ls as [|l ls IH]; intros Hne HF; [congruence|].
  inversion HF; subst. destruct ls as [|l' ls'].
  - simpl. apply split_no_sep; assumption.
  - change (join (String sep EmptyString) (l :: l' :: ls'))
      with (l ++ String sep (join (String sep EmptyString) (l' :: ls'))).
    rewrite split_app_sep by assumption. rewrite IH; [reflexivity|discriminate|assumption].
Qed.

Lemma lstrip_app a b :
  existsb_str (fun c => negb (isspace c)) a = true -> lstrip (a ++ b) = lstrip a ++ b.
Proof.
  induction a as [|c a IH]; simpl; [discriminate|].
  destruct (isspace c); simpl; [exact IH | reflexivity].
Qed.

Lemma str_app_nil_r s : s ++ EmptyString = s.
Proof. induction s as [|c s IH]; simpl; [reflexivity | rewrite IH; reflexivity]. Qed.

Lemma str_app_assoc a b c : (a ++ b) ++ c = a ++ (b ++ c).
Proof. induction a as [|x a IH]; simpl; [reflexivity | rewrite IH; reflexivity]. Qed.

Lemma rev_str_app a b : rev_str (a ++ b) = rev_str b ++ rev_str a.
Proof.
  induction a as [|c a IH]; simpl.
  - rewrite str_app_nil_r. reflexivity.
  - rewrite IH, str_app_assoc. reflexivity.
Qed.

Lemma rev_str_involutive s : rev_str (rev_str s) = s.
Proof.
  induction s as [|c s IH]; simpl; [reflexivity|].
  rewrite rev_str_app, IH. reflexivity.
Qed.

Lemma existsb_rev f s : existsb_str f (rev_str s) = existsb_str f s.
Proof.
  induction s as [|c s IH]; simpl; [reflexivity|].
  rewrite existsb_str_app, IH. simpl. rewrite orb_false_r, orb_comm. reflexivity.
Qed.

Lemma rstrip_app a b :
  existsb_str (fun c => negb (isspace c)) b = true -> rstrip (a ++ b) = a ++ rstrip b.
Proof.
  intros H. unfold rstrip. rewrite rev_str_app, lstrip_app by (rewrite existsb_rev; exact H).
  rewrite rev_str_app, rev_str_involutive. reflexivity.
Qed.

Lemma lstrip_all_space s :
  existsb_str (fun c => negb (isspace c)) s = false -> lstrip s = EmptyString.
Proof.
  induction s as [|c s IH]; simpl; [reflexivity|].
  destruct (isspace c); simpl; [exact IH | discriminate].
Qed.

Lemma rstrip_all_space s :
  existsb_str (fun c => negb (isspace c)) s = false -> rstrip s = EmptyString.
Proof.
  intros H. unfold rstrip. rewrite lstrip_all_space by (rewrite existsb_rev; exact H).
  reflexivity.
Qed.

Lemma rstrip_app_gen a b :
  rstrip (a ++ b) =
  if existsb_str (fun c => negb (isspace c)) b then a ++ rstrip b else rstrip a.
Proof.
  destruct (existsb_str (fun c => negb (isspace c)) b) eqn:E.
  - apply rstrip_app; exact E.
  - unfold rstrip. rewrite rev_str_app.
    revert E. generalize (rev_str a). intros ra E.
    rewrite <- existsb_rev in E. revert E. generalize (rev_str b).
    intros rb; induction rb as [|c rb IH]; simpl; [reflexivity|].
    destruct (isspace c); simpl; [exact IH | discriminate].
Qed.

Lemma existsb_lstrip f s : existsb_str f s = false -> existsb_str f (lstrip s) = false.
Proof.
  induction s as [|c s IH]; simpl; [reflexivity|].
  intros H; apply orb_false_elim in H as [H1 H2].
  destruct (isspace c); [apply IH; exact H2 | simpl; rewrite H1, H2; reflexivity].
Qed.

Lemma existsb_rstrip f s : existsb_str f s = false -> existsb_str f (rstrip s) = false.
Proof.
  intros H. unfold rstrip. rewrite existsb_rev. apply existsb_lstrip.
  rewrite existsb_rev. exact H.
Qed.


End StrFacts.

(** ** Headers: [Header.from_text] after [Header.as_text] *)
Module HeaderFacts.
Import PyStr StrFacts Migration Aux.

Lemma join_snoc sep L x :
  L <> [] -> join sep (L ++ [x])%list%list = join sep L ++ sep ++ x.
Proof.
  induction L as [|l L IH]; intros Hne; [congruence|].
  destruct L as [|l' L].
  - reflexivity.
  - specialize (IH ltac:(discriminate)).
    transitivity (l ++ sep ++ join sep ((l' :: L) ++ [x])%list); [reflexivity|].
    rewrite IH. change (join sep (l :: l' :: L)) with (l ++ sep ++ join sep (l' :: L)).
    rewrite !str_app_assoc. reflexivity.
Qed.

Lemma dedent_line_dash l : dash l = true -> dedent_line l = l.
Proof.
  destruct l as [|c l]; [reflexivity|]. unfold dash; simpl.
  intros H. apply Ascii.eqb_eq in H. subst c. reflexivity.
Qed.

Lemma dedent_id L :
  L <> [] -> Forall (fun l => has_char nl l = false) L -> Forall (fun l => dash l = true) L ->
  dedent_no_margin (join nl_str L) = join nl_str L.
Proof.
  intros Hne Hn Hd. unfold dedent_no_margin, nl_str.
  rewrite split_join by assumption. f_equal. clear -Hd.
  induction Hd as [|l L Hl Hd IH]; [reflexivity|].
  simpl. rewrite dedent_line_dash by exact Hl. rewrite IH. reflexivity.
Qed.

Lemma dash_app l y : dash l = true -> dash (l ++ y) = true.
Proof.
  destruct l as [|c l]; [discriminate|]. unfold dash; simpl.
  exact (fun H => H).
Qed.

Lemma lstrip_dash s : dash s = true -> lstrip s = s.
Proof.
  destruct s as [|c s]; [discriminate|]. unfold dash; simpl.
  intros H. apply Ascii.eqb_eq in H. subst c. reflexivity.
Qed.

Lemma dash_join L : L <> [] -> Forall (fun l => dash l = true) L -> dash (join nl_str L) = true.
Proof.
  intros Hne HF. destruct HF as [|l L Hl _]; [congruence|].
  destruct L; simpl; [exact Hl | apply dash_app; exact Hl].
Qed.

Lemma dash_nonspace l : dash l = true -> existsb_str (fun c => negb (isspace c)) l = true.
Proof.
  destruct l as [|c l]; [discriminate|]. unfold dash; simpl.
  intros H. apply Ascii.eqb_eq in H. subst c. reflexivity.
Qed.

Lemma strip_join L x :
  L <> [] -> Forall (fun l => dash l = true) (L ++ [x])%list ->
  strip (join nl_str (L ++ [x])%list%list) = join nl_str (L ++ [rstrip x])%list.
Proof.
  intros Hne HF. unfold strip.
  rewrite lstrip_dash by (apply dash_join; [destruct L; discriminate | exact HF]).
  rewrite !join_snoc by exact Hne.
  rewrite <- !str_app_assoc. apply rstrip_app.
  apply dash_nonspace. apply Forall_app in HF as [_ HF]. inversion HF; assumption.
Qed.

Lemma as_text_eq h L x :
  header_lines h = (L ++ [x])%list -> L <> [] ->
  Forall (fun l => dash l = true) (L ++ [x])%list ->
  Forall (fun l => has_char nl l = false) (L ++ [x])%list ->
  as_text h = join nl_str (L ++ [rstrip x])%list.
Proof.
  intros Hh Hne Hd Hn. unfold as_text. rewrite Hh.
  rewrite dedent_id by (try assumption; destruct L; discriminate).
  apply strip_join; assumption.
Qed.


Lemma step_prev acc t :
  from_text_step acc (PREFIX_prev_file ++ t) =
  {| pa_prev := Some (field_value (PREFIX_prev_file ++ t)); pa_author := pa_author acc;
     pa_version := pa_version acc; pa_skip := pa_skip acc; pa_reason := pa_reason acc |}.
Proof. destruct t; reflexivity. Qed.




Lemma rstrip_prefix P t : rstrip P = P -> rstrip (P ++ t) = P ++ rtail t.
Proof.
  intros HP. unfold rtail, nonspace. rewrite rstrip_app_gen.
  destruct (existsb_str _ t); [reflexivity|]. rewrite HP, str_app_nil_r. reflexivity.
Qed.

Lemma field_value_after P Q t :
  P = Q ++ String colon EmptyString -> has_char colon Q = false -> has_char colon t = false ->
  field_value (P ++ t) = strip t.
Proof.
  intros -> HQ Ht. rewrite str_app_assoc. simpl (String colon EmptyString ++ t).
  unfold field_value. rewrite split_app_sep by exact HQ. rewrite split_no_sep by exact Ht.
  reflexivity.
Qed.

Lemma clean_parts w :
  clean w = true ->
  has_char colon w = false /\ has_char nl w = false /\ lstrip w = w /\ rstrip w = w.
Proof.
  unfold clean. intros H.
  apply andb_true_iff in H as [H H4]. apply andb_true_iff in H as [H H3].
  apply andb_true_iff in H as [H1 H2].
  apply negb_true_iff in H1, H2. apply String.eqb_eq in H3, H4. tauto.
Qed.

Lemma strip_space w : clean w = true -> strip (String " " w) = w.
Proof.
  intros H. apply clean_parts in H as (_ & _ & H1 & H2).
  unfold strip. simpl lstrip. rewrite H1. exact H2.
Qed.


Lemma rtail_no_char c t : has_char c t = false -> has_char c (rtail t) = false.
Proof.
  intros H. unfold rtail. destruct (existsb_str nonspace t); [|reflexivity].
  apply existsb_rstrip, H.
Qed.

Lemma line_no_char c P w :
  has_char c P = false -> c <> " "%char -> has_char c w = false ->
  has_char c (P ++ String " " w) = false.
Proof.
  intros HP Hc Hw. unfold has_char in *. rewrite existsb_str_app, HP.
  change (existsb_str (fun x => Ascii.eqb x c) (String " " w))
    with (Ascii.eqb " "%char c || existsb_str (fun x => Ascii.eqb x c) w).
  rewrite Hw, orb_false_r, orb_false_l. apply Ascii.eqb_neq. intros E; apply Hc; symmetry; exact E.
Qed.


Lemma reason_post_init p a v sr :
  reason_or_default (skip_reason (mk_header p a v true sr)) = reason_or_default sr.
Proof.
  destruct sr as [r|]; reflexivity.
Qed.


Lemma clean_no_colon w : clean w = true -> has_char colon w = false.
Proof. intros H; apply clean_parts in H; tauto. Qed.

Lemma clean_no_nl w : clean w = true -> has_char nl w = false.
Proof. intros H; apply clean_parts in H; tauto. Qed.

Lemma space_no_char c w :
  c <> " "%char -> has_char c w = false -> has_char c (String " " w) = false.
Proof.
  intros Hc Hw. unfold has_char in *.
  change (existsb_str (fun x => Ascii.eqb x c) (String " " w))
    with (Ascii.eqb " "%char c || existsb_str (fun x => Ascii.eqb x c) w).
  rewrite Hw, orb_false_r. apply Ascii.eqb_neq. intros E; apply Hc; symmetry; exact E.
Qed.

Lemma pref_no_char c P t :
  has_char c P = false -> has_char c t = false -> has_char c (P ++ t) = false.
Proof. intros H1 H2. unfold has_char in *. rewrite existsb_str_app, H1, H2. reflexivity. Qed.




End HeaderFacts.

(** ** Claim C4: the header round trip *)
Module HeaderRoundTrip.
Import PyStr StrFacts Migration Aux HeaderFacts.

Example h_first_text : as_text h_first = "-- Prev-file: " ++ nl_str ++ "-- Author:".
Proof. reflexivity. Qed.




End HeaderRoundTrip.

(** ** Folders, parsing, sorting and pairing *)
Module FilesFacts.
Import PyStr Migration Files Helpers.
Local Open Scope Z_scope.

Lemma bind_ok {A B} (r : result A) (k : A -> result B) y :
  bind r k = Ok y <-> exists a, r = Ok a /\ k a = Ok y.
Proof.
  destruct r as [a|e]; simpl; split.
  - intros H; eauto.
  - intros (a' & H1 & H2); inversion H1; subst; exact H2.
  - discriminate.
  - intros (a' & H1 & _); discriminate.
Qed.

Lemma bind_err {A B} (r : result A) (k : A -> result B) :
  (exists e, bind r k = Err e) <->
  (exists e, r = Err e) \/ exists a, r = Ok a /\ exists e, k a = Err e.
Proof.
  destruct r as [a|e]; simpl; split.
  - intros H; right; eauto.
  - intros [(e & H)|(a' & H & He)]; [discriminate|inversion H; subst; exact He].
  - intros _; left; eauto.
  - intros _; eauto.
Qed.

Lemma map_result_ok {A B} (f : A -> result B) l ys :
  map_result f l = Ok ys <-> Forall2 (fun a b => f a = Ok b) l ys.
Proof.
  revert ys; induction l as [|x t IH]; intros ys; simpl.
  - split; [intros H; inversion H; constructor|intros H; inversion H; reflexivity].
  - rewrite bind_ok; split.
    + intros (y & Hy & H); apply bind_ok in H as (ys' & Hys & H); inversion H; subst.
      constructor; [exact Hy|apply IH; exact Hys].
    + intros H; inversion H; subst. exists y; split; [assumption|].
      apply bind_ok; exists l'; split; [apply IH; assumption|reflexivity].
Qed.

Lemma map_result_err {A B} (f : A -> result B) l :
  (exists e, map_result f l = Err e) <-> exists x, In x l /\ exists e, f x = Err e.
Proof.
  induction l as [|x t IH]; simpl.
  - split; [intros (e & H); discriminate|intros (x & [] & _)].
  - rewrite bind_err; split.
    + intros [H|(y & Hy & H)]; [exists x; auto|].
      apply bind_err in H as [H|(ys & _ & e & He)]; [|discriminate].
      apply IH in H as (z & Hz & H); exists z; auto.
    + intros (z & [<-|Hz] & H); [left; exact H|].
      destruct (f x) as [y|e] eqn:Hfx; [|left; eauto].
      right; exists y; split; [reflexivity|]. apply bind_err; left; apply IH; eauto.
Qed.

Lemma map_result_length {A B} (f : A -> result B) l ys :
  map_result f l = Ok ys -> length ys = length l.
Proof.
  intros H; apply map_result_ok in H; symmetry; eapply Forall2_length; eauto.
Qed.

Lemma fromtimestamp_ok t z : fromtimestamp t = Ok z <-> t = z /\ MIN_TS <= t <= MAX_TS.
Proof.
  unfold fromtimestamp.
  destruct ((MIN_TS <=? t) && (t <=? MAX_TS)) eqn:H.
  - apply andb_true_iff in H as [H1 H2]; apply Z.leb_le in H1, H2.
    split; [intros E; inversion E; subst; auto|intros [-> _]; reflexivity].
  - split; [discriminate|intros [_ [H1 H2]]].
    apply Z.leb_le in H1, H2; rewrite H1, H2 in H; discriminate.
Qed.

Lemma parse_filename_ok n r :
  parse_filename n = Ok r <->
  exists t i k z, split "-"%char n = [t; i; k] /\ py_int t = Some z /\ MIN_TS <= z <= MAX_TS /\
                  r = (z, i, replace ".sql" "" k).
Proof.
  unfold parse_filename; split.
  - destruct (split "-"%char n) as [|t [|i [|k [|x l]]]]; try discriminate.
    destruct (py_int t) as [z|] eqn:Hz; [|discriminate].
    intros H; apply bind_ok in H as (z' & Hz' & H); apply fromtimestamp_ok in Hz' as [<- Hr].
    inversion H; subst; exists t, i, k, z; auto.
  - intros (t & i & k & z & -> & -> & Hr & ->).
    apply bind_ok; exists z; split; [apply fromtimestamp_ok; auto|reflexivity].
Qed.

Lemma result_cases {A} (r : result A) : (exists a, r = Ok a) \/ (exists e, r = Err e).
Proof. destruct r; eauto. Qed.

Lemma err_not_ok {A} (r : result A) : (exists e, r = Err e) <-> ~ exists a, r = Ok a.
Proof.
  destruct r; split; intros H.
  - destruct H; discriminate.
  - exfalso; eauto.
  - intros (a & Ha); discriminate.
  - eauto.
Qed.

Lemma from_file_err n c :
  (exists e, from_file n c = Err e) <-> exists e, parse_filename n = Err e.
Proof.
  unfold from_file; rewrite bind_err; split.
  - intros [H|(a & _ & e & H)]; [exact H|]. destruct a as [[t i] k]; discriminate.
  - intros H; left; exact H.
Qed.


(** *** The sort key *)
Lemma str_gt_lt x y : String_as_OT.compare x y = Gt <-> String_as_OT.lt y x.
Proof.
  destruct (String_as_OT.compare_spec x y) as [->|H|H]; split; intros E; try discriminate; auto.
  - exfalso; apply (StrictOrder_Irreflexive (R:=String_as_OT.lt) y); exact E.
  - exfalso; apply (StrictOrder_Irreflexive (R:=String_as_OT.lt) x).
    eapply StrictOrder_Transitive; eauto.
Qed.

Lemma key_le_iff a b :
  key_le a b = true <->
  ts a < ts b \/ (ts a = ts b /\ ~ String_as_OT.lt (file_id b) (file_id a)).
Proof.
  unfold key_le; rewrite <- str_gt_lt.
  destruct (Z.compare_spec (ts a) (ts b)) as [E|E|E].
  - destruct (String_as_OT.compare (file_id a) (file_id b)); split; intros H;
      try discriminate; auto; try (right; split; [exact E|discriminate]);
      destruct H as [H|[_ H]]; [lia|congruence].
  - split; [intros _; left; exact E|reflexivity].
  - split; [discriminate|intros [H|[H _]]; lia].
Qed.

Lemma key_le_total a b : key_le a b = false -> key_le b a = true.
Proof.
  rewrite <- not_true_iff_false, !key_le_iff; intros H.
  destruct (Z.compare_spec (ts a) (ts b)) as [E|E|E]; [|tauto|left; exact E].
  right; split; [symmetry; exact E|intros Hl; apply H; right; split; [exact E|]].
  intros Hl'; apply (StrictOrder_Irreflexive (R:=String_as_OT.lt) (file_id a)).
  eapply StrictOrder_Transitive; eauto.
Qed.

Lemma key_le_refl a : key_le a a = true.
Proof.
  apply key_le_iff; right; split; [reflexivity|].
  apply (StrictOrder_Irreflexive (R:=String_as_OT.lt)).
Qed.

Lemma key_le_trans a b c : key_le a b = true -> key_le b c = true -> key_le a c = true.
Proof.
  rewrite !key_le_iff; intros [H1|[H1 H1']] [H2|[H2 H2']]; try (left; lia).
  right; split; [congruence|]; intros Hl.
  destruct (String_as_OT.compare_spec (file_id a) (file_id b)) as [E|E|E].
  - apply H2'; rewrite <- E; exact Hl.
  - apply H2'; eapply StrictOrder_Transitive; eauto.
  - apply H1'; exact E.
Qed.

Lemma insert_mf_sorted x l : Sorted key_rel l -> Sorted key_rel (insert_mf x l).
Proof.
  induction l as [|y t IH]; simpl; intros H.
  - repeat constructor.
  - destruct (key_le x y) eqn:E.
    + constructor; [exact H|constructor; exact E].
    + apply key_le_total in E. inversion H as [|? ? Ht Hd]; subst.
      constructor; [apply IH; exact Ht|].
      destruct t as [|z t]; simpl; [constructor; exact E|].
      destruct (key_le x z); constructor; [exact E|inversion Hd; assumption].
Qed.

Lemma sort_mf_sorted l : Sorted key_rel (sort_mf l).
Proof. induction l; simpl; [constructor|apply insert_mf_sorted; assumption]. Qed.

Lemma insert_mf_perm x l : Permutation (x :: l) (insert_mf x l).
Proof.
  induction l as [|y t IH]; simpl; [reflexivity|].
  destruct (key_le x y); [reflexivity|].
  transitivity (y :: x :: t); [apply perm_swap|constructor; exact IH].
Qed.

Lemma sort_mf_perm l : Permutation l (sort_mf l).
Proof.
  induction l as [|x t IH]; simpl; [reflexivity|].
  transitivity (x :: sort_mf t); [constructor; exact IH|apply insert_mf_perm].
Qed.

Lemma sort_mf_strongly l : StronglySorted key_rel (sort_mf l).
Proof.
  apply Sorted_StronglySorted; [intros a b c; apply key_le_trans|apply sort_mf_sorted].
Qed.

Lemma strongly_filter {A} (R : A -> A -> Prop) f l :
  StronglySorted R l -> StronglySorted R (filter f l).
Proof.
  induction l as [|x t IH]; simpl; intros H; [constructor|].
  apply StronglySorted_inv in H as [Ht Hx].
  destruct (f x); [constructor; [apply IH; exact Ht|]|apply IH; exact Ht].
  apply Forall_forall; intros y Hy; apply filter_In in Hy as [Hy _].
  rewrite Forall_forall in Hx; auto.
Qed.

Lemma strongly_firstn {A} (R : A -> A -> Prop) n l :
  StronglySorted R l -> StronglySorted R (firstn n l).
Proof.
  revert l; induction n as [|n IH]; intros [|x t] H; simpl; try constructor.
  - apply StronglySorted_inv in H as [Ht Hx]; apply IH; exact Ht.
  - apply StronglySorted_inv in H as [Ht Hx].
    rewrite <- (firstn_skipn n t) in Hx; apply Forall_app in Hx as [Hx _]; exact Hx.
Qed.

(** *** Grouping and pairing *)
Lemma concat_groupby l : concat (groupby_id l) = l.
Proof.
  induction l as [|x t IH]; simpl; [reflexivity|].
  destruct (groupby_id t) as [|[|y g] gs]; simpl in *; try (rewrite IH; reflexivity).
  destruct (String.eqb (file_id x) (file_id y)); simpl; rewrite IH; reflexivity.
Qed.

Lemma pair_of_group_ok g u d :
  pair_of_group g = Ok (u, d) -> filter is_up g = [u] /\ filter is_down g = [d].
Proof.
  unfold pair_of_group.
  destruct (filter is_up g) as [|u' [|? ?]]; try discriminate.
  destruct (filter is_down g) as [|d' [|? ?]]; try discriminate.
  intros H; inversion H; subst; auto.
Qed.

Lemma filter_concat {A} (f : A -> bool) gs : filter f (concat gs) = concat (map (filter f) gs).
Proof.
  induction gs as [|g gs IH]; simpl; [reflexivity|]; rewrite filter_app, IH; reflexivity.
Qed.

Lemma iter_ups files pairs :
  iter_migration_files files = Ok pairs -> map fst pairs = filter is_up files.
Proof.
  unfold iter_migration_files; intros H; apply map_result_ok in H.
  rewrite <- (concat_groupby files), filter_concat.
  induction H as [|g [u d] gs ps Hg _ IH]; simpl; [reflexivity|].
  rewrite IH; apply pair_of_group_ok in Hg as [-> _]; reflexivity.
Qed.

(** *** The ledger query *)
Lemma unreverted_iff ledger r :
  unreverted ledger r = true <-> l_migration_type r = "up" /\ ~ Aux.spec_has_down ledger r.
Proof.
  unfold unreverted, Aux.spec_has_down.
  rewrite andb_true_iff, String.eqb_eq, negb_true_iff, <- not_true_iff_false, existsb_exists.
  split; intros [H1 H2]; split; auto; intros (d & Hd & E); apply H2; exists d; split; auto.
  - destruct E as [E1 E2]; rewrite E1, E2, !String.eqb_refl; reflexivity.
  - apply andb_true_iff in E as [E1 E2]; apply String.eqb_eq in E1, E2; auto.
Qed.

Lemma row_ge_le r r' : row_ge r r' = true -> l_applied_at r' <= l_applied_at r.
Proof.
  unfold row_ge; rewrite orb_true_iff, andb_true_iff, Z.ltb_lt, Z.eqb_eq, Z.leb_le; lia.
Qed.

Lemma latest_query_spec ledger o : latest_query ledger o -> Aux.spec_latest_applied ledger o.
Proof.
  destruct o as [r|]; simpl.
  - intros (Hin & Hu & Hmax); apply unreverted_iff in Hu as [Hu Hd].
    repeat split; auto; intros r' Hr' Hu' Hd'; apply row_ge_le, Hmax; auto.
    apply unreverted_iff; auto.
  - intros H (r & Hin & Hu & Hd); specialize (H r Hin).
    rewrite <- not_true_iff_false in H; apply H, unreverted_iff; auto.
Qed.
End FilesFacts.

Module GetFilesFailure.
Import PyStr Migration Files FilesFacts Helpers.
Local Open Scope Z_scope.

(** C10: [get_files] fails exactly when some file the glob selects has a
    name that does not split on ['-'] into three parts whose first part
    [int()] accepts with a value [datetime.fromtimestamp] can represent; one
    such file makes the whole call fail, no file is skipped. *)
Theorem get_files_fails_iff (fs : folder) (up_only : bool) :
  (exists e, get_files fs up_only = Err e) <->
  exists n c, In (n, c) fs /\ glob_match up_only n = true /\
    ~ exists t i k z, split "-"%char n = [t; i; k] /\ py_int t = Some z /\ MIN_TS <= z <= MAX_TS.
Proof.
  unfold get_files; rewrite bind_err, map_result_err; split.
  - intros [(p & Hin & Hp)|(a & _ & e & He)]; [|discriminate].
    apply filter_In in Hin as [Hin Hg]; destruct p as [n c]; exists n, c.
    split; [exact Hin|split; [exact Hg|]].
    apply from_file_err, err_not_ok in Hp.
    intros (t & i & k & z & H1 & H2 & H3); apply Hp.
    exists (z, i, replace ".sql" "" k); apply parse_filename_ok; exists t, i, k, z; auto.
  - intros (n & c & Hin & Hg & Hn); left; exists (n, c); split.
    + apply filter_In; auto.
    + apply from_file_err, err_not_ok; intros (r & Hr).
      apply parse_filename_ok in Hr as (t & i & k & z & H1 & H2 & H3 & _).
      apply Hn; exists t, i, k, z; auto.
Qed.

(** C10 (counterexample): names whose first segment is not a plain decimal
    numeral, such as ["1_0"] or ["+20"], are parsed ([int()] accepts
    underscores between digits and a sign), not rejected. *)
Lemma get_files_accepts_nondecimal :
  forallb_str is_digit "1_0" = false /\ forallb_str is_digit "+20" = false /\
  match get_files [("1_0-a-up.sql", "SELECT 1;"); ("1_0-a-down.sql", "");
                   ("+20-b-up.sql", "SELECT 2;"); ("+20-b-down.sql", "")] false with
  | Ok files => map ts files = [10; 10; 20; 20] /\ map file_id files = ["a"; "a"; "b"; "b"]
  | Err _ => False
  end.
Proof. vm_compute; auto. Qed.

End GetFilesFailure.

Module MigrateUpSelection.
Import PyStr Migration Files FilesFacts Helpers.
Local Open Scope Z_scope.

(** C3: when [get_migration_files] returns (the folder parses and pairs up),
    the row the latest-migration query returns is the most recent [up] row
    with no [down] row of the same file id (or none when there is no such
    row), and the result is exactly the spec's pending list: the up files of
    the folder with [ts >= latest.file_ts] and a name other than
    [latest.file_name], in ascending [(ts, file_id)] order, cut to the first
    [nb] when [nb > 0]. *)
Theorem get_migration_files_spec ledger latest fs nb res :
  latest_query ledger latest ->
  get_migration_files latest fs nb = Ok res ->
  Aux.spec_latest_applied ledger latest /\
  (exists files, get_files fs false = Ok files /\
                 res = Aux.spec_pending latest (filter is_up files) nb) /\
  StronglySorted (fun a b => key_le a b = true) res.
Proof.
  intros Hq H; split; [apply latest_query_spec; exact Hq|].
  unfold get_migration_files in H.
  apply bind_ok in H as (files & Hf & H); apply bind_ok in H as (pairs & Hp & H).
  injection H as <-; rewrite (iter_ups _ _ Hp).
  split; [exists files; split; [exact Hf|unfold Aux.spec_pending, to_apply; reflexivity]|].
  unfold get_files in Hf; apply bind_ok in Hf as (l & _ & Hf); injection Hf as <-.
  assert (Hs : StronglySorted key_rel (filter (to_apply latest) (filter is_up (sort_mf l))))
    by (apply strongly_filter, strongly_filter, sort_mf_strongly).
  destruct (0 <? nb); [apply strongly_firstn|]; exact Hs.
Qed.

(** The theorem at a ledger where [b] was reverted: [b] and [c] are pending. *)
Lemma get_migration_files_spec_witness :
  latest_query Examples.ex_ledger (Some Examples.ex_row_a) /\
  get_migration_files (Some Examples.ex_row_a) Examples.ex_folder3 0 =
    Ok [mkMF 200 "b" "up" "200-b-up.sql" None; mkMF 300 "c" "up" "300-c-up.sql" None] /\
  Aux.spec_latest_applied Examples.ex_ledger (Some Examples.ex_row_a) /\
  (exists files, get_files Examples.ex_folder3 false = Ok files /\
     [mkMF 200 "b" "up" "200-b-up.sql" None; mkMF 300 "c" "up" "300-c-up.sql" None] =
     Aux.spec_pending (Some Examples.ex_row_a) (filter is_up files) 0) /\
  StronglySorted (fun a b => key_le a b = true)
    [mkMF 200 "b" "up" "200-b-up.sql" None; mkMF 300 "c" "up" "300-c-up.sql" None].
Proof.
  assert (H1 : latest_query Examples.ex_ledger (Some Examples.ex_row_a)).
  { simpl; split; [left; reflexivity|split; [vm_compute; reflexivity|]].
    intros r' Hr' Hu; destruct Hr' as [<-|[<-|[<-|[]]]]; vm_compute in *; congruence. }
  assert (H2 : get_migration_files (Some Examples.ex_row_a) Examples.ex_folder3 0 =
    Ok [mkMF 200 "b" "up" "200-b-up.sql" None; mkMF 300 "c" "up" "300-c-up.sql" None])
    by (vm_compute; reflexivity).
  split; [exact H1|split; [exact H2|]].
  exact (get_migration_files_spec _ _ _ _ _ H1 H2).
Defined.

End MigrateUpSelection.

(** ** The skip decision of [migrate_verify] *)
Module SkipVerify.
Import PyStr Migration Files FilesFacts Helpers.

Lemma prefix_both a b s :
  String.prefix a s = true -> String.prefix b s = true ->
  String.prefix a b = true \/ String.prefix b a = true.
Proof.
  revert b s; induction a as [|x a IH]; intros b s Ha Hb; [left; destruct b; reflexivity|].
  destruct b as [|y b]; [right; reflexivity|].
  destruct s as [|z s]; [discriminate|].
  cbn in Ha, Hb |- *.
  destruct (Ascii.ascii_dec x z) as [<-|]; [|discriminate].
  destruct (Ascii.ascii_dec y x) as [<-|]; [|discriminate].
  destruct (Ascii.ascii_dec y y) as [_|]; [|congruence].
  exact (IH b s Ha Hb).
Qed.

Lemma startswith_excl l p q :
  startswith l p = true -> startswith l q = true ->
  String.prefix p q = false -> String.prefix q p = false -> False.
Proof.
  unfold startswith; intros Hp Hq E1 E2.
  destruct (prefix_both p q l Hp Hq) as [E|E]; congruence.
Qed.

(** No line starts with two of the four prefixes. *)
Ltac prefixes_excl :=
  exfalso;
  match goal with
  | H1 : startswith ?l ?p = true, H2 : startswith ?l ?q = true |- _ =>
      apply (startswith_excl l p q H1 H2); reflexivity
  end.

Lemma step_fields acc l :
  pa_prev (from_text_step acc l) = last_field_step PREFIX_prev_file (pa_prev acc) l /\
  pa_author (from_text_step acc l) = last_field_step PREFIX_author (pa_author acc) l /\
  pa_version (from_text_step acc l) = last_field_step PREFIX_version (pa_version acc) l /\
  pa_skip (from_text_step acc l) = pa_skip acc || startswith l PREFIX_skip_verify.
Proof.
  unfold from_text_step, last_field_step.
  destruct (startswith l PREFIX_prev_file) eqn:E1, (startswith l PREFIX_author) eqn:E2,
    (startswith l PREFIX_version) eqn:E3, (startswith l PREFIX_skip_verify) eqn:E4;
    cbn; try prefixes_excl; rewrite ?orb_true_r, ?orb_false_r; auto.
Qed.

Lemma fold_fields lines : forall acc,
  pa_prev (fold_left from_text_step lines acc)
    = fold_left (last_field_step PREFIX_prev_file) lines (pa_prev acc) /\
  pa_author (fold_left from_text_step lines acc)
    = fold_left (last_field_step PREFIX_author) lines (pa_author acc) /\
  pa_version (fold_left from_text_step lines acc)
    = fold_left (last_field_step PREFIX_version) lines (pa_version acc) /\
  pa_skip (fold_left from_text_step lines acc)
    = pa_skip acc || existsb (fun l => startswith l PREFIX_skip_verify) lines.
Proof.
  induction lines as [|l t IH]; intros acc; cbn [fold_left existsb].
  - rewrite orb_false_r; auto.
  - destruct (IH (from_text_step acc l)) as (H1 & H2 & H3 & H4).
    destruct (step_fields acc l) as (S1 & S2 & S3 & S4).
    rewrite H1, H2, H3, H4, S1, S2, S3, S4, orb_assoc; auto.
Qed.

(** C9 (amended): [from_text] reads every line of the file, and each of
    [Prev-file], [Author] and [Version] keeps the value of its last line.
    [from_file] drops the header exactly when these three last values are
    all absent or empty; [skip_verify] is then false, whatever the
    [Skip-verify] lines say, and as the down file of a pair its skip
    decision in [migrate_verify] reduces to the [only_last] condition.
    When the header is kept, [skip_verify] holds exactly when some line
    starts with [-- Skip-verify:]. *)
Theorem from_file_header_last_values name content d only_last nb_files i :
  from_file name content = Ok d ->
  (header d = None <->
     truthy (last_field PREFIX_prev_file (split nl content)) = false /\
     truthy (last_field PREFIX_author (split nl content)) = false /\
     truthy (last_field PREFIX_version (split nl content)) = false) /\
  (mf_skip_verify d = true <->
     header d <> None /\ existsb (fun l => startswith l PREFIX_skip_verify) (split nl content) = true) /\
  (header d = None ->
     mf_skip_verify d = false /\
     skip_pair only_last nb_files i d =
       only_last && negb (Nat.eqb i (Nat.div nb_files 2 - 1)) && negb (Nat.eqb nb_files 2)).
Proof.
  intros Hd; unfold from_file in Hd; apply bind_ok in Hd as ([[t k] ty] & _ & Hd).
  injection Hd as <-.
  destruct (fold_fields (split nl content) acc0) as (H1 & H2 & H3 & H4).
  unfold mf_skip_verify, skip_pair; cbn [header].
  unfold is_empty, from_text, last_field; cbn [prev_file author version skip_verify mk_header].
  rewrite H1, H2, H3, H4; cbn [acc0 pa_prev pa_author pa_version pa_skip orb].
  destruct (truthy (fold_left (last_field_step PREFIX_prev_file) (split nl content) None)),
    (truthy (fold_left (last_field_step PREFIX_author) (split nl content) None)),
    (truthy (fold_left (last_field_step PREFIX_version) (split nl content) None)),
    (existsb (fun l => startswith l PREFIX_skip_verify) (split nl content));
    cbn [negb orb skip_verify]; intuition congruence.
Qed.

(** The theorem on a down file whose [Skip-verify] line is followed by a
    non-empty then an empty [Author] line: the last [Author] value is empty,
    so the header is dropped with its [Skip-verify]. *)
Lemma from_file_header_last_values_witness :
  from_file "1-a-down.sql" "-- Skip-verify: r
-- Author: bob
-- Author:" = Ok (mkMF 1 "a" "down" "1-a-down.sql" None) /\
  (header (mkMF 1 "a" "down" "1-a-down.sql" None) = None <->
     truthy (last_field PREFIX_prev_file (split nl "-- Skip-verify: r
-- Author: bob
-- Author:")) = false /\
     truthy (last_field PREFIX_author (split nl "-- Skip-verify: r
-- Author: bob
-- Author:")) = false /\
     truthy (last_field PREFIX_version (split nl "-- Skip-verify: r
-- Author: bob
-- Author:")) = false) /\
  (mf_skip_verify (mkMF 1 "a" "down" "1-a-down.sql" None) = true <->
     header (mkMF 1 "a" "down" "1-a-down.sql" None) <> None /\
     existsb (fun l => startswith l PREFIX_skip_verify) (split nl "-- Skip-verify: r
-- Author: bob
-- Author:") = true) /\
  (header (mkMF 1 "a" "down" "1-a-down.sql" None) = None ->
     mf_skip_verify (mkMF 1 "a" "down" "1-a-down.sql" None) = false /\
     skip_pair false 2 0 (mkMF 1 "a" "down" "1-a-down.sql" None) =
       false && negb (Nat.eqb 0 (Nat.div 2 2 - 1)) && negb (Nat.eqb 2 2)).
Proof.
  assert (Hd : from_file "1-a-down.sql" "-- Skip-verify: r
-- Author: bob
-- Author:" = Ok (mkMF 1 "a" "down" "1-a-down.sql" None)) by (vm_compute; reflexivity).
  split; [exact Hd|exact (from_file_header_last_values _ _ _ false 2 0 Hd)].
Defined.

(** C9 (counterexample): (1) a [Prev-file], [Author] or [Version] line counts
    wherever it is in the file: with an [Author] line after the SQL, the
    leading [Skip-verify] line is honoured; (2) with [only_last], a pair
    whose down file has no header is still skipped when it is not the last
    one. *)
Lemma from_file_skip_counterexample :
  match from_file "1-a-down.sql" "-- Skip-verify: r
SELECT 1;
-- Author: bob" with
  | Ok d => header d <> None /\ mf_skip_verify d = true
  | Err _ => False
  end /\
  match from_file "1-a-down.sql" "-- Skip-verify: legacy
SELECT 1;" with
  | Ok d => header d = None /\ skip_pair true 4 0 d = true
  | Err _ => False
  end.
Proof. vm_compute; split; [split; [discriminate|reflexivity]|split; reflexivity]. Qed.

End SkipVerify.

(** ** The invariants [verify_migration_files] enforces *)
Module VerifyInvariants.
Import PyStr Migration Files FilesFacts Helpers.
Local Open Scope Z_scope.

Lemma mem_str_false x l : mem_str x l = false -> ~ In x l.
Proof.
  unfold mem_str; intros H Hin; rewrite <- not_true_iff_false in H; apply H.
  apply existsb_exists; exists x; split; [exact Hin|apply String.eqb_refl].
Qed.

Lemma check_pair_none pu pd u d :
  check_pair pu pd u d = None -> Aux.pair_step_ok (pu, pd) (u, d).
Proof.
  unfold check_pair, Aux.pair_step_ok; simpl.
  destruct (ts u <? ts pu) eqn:E1; [discriminate|].
  destruct (ts d <? ts pd) eqn:E2; [discriminate|].
  destruct (header_ok u pu) eqn:E3; [|discriminate].
  destruct (header_ok d pd) eqn:E4; [|discriminate].
  intros _; apply Z.ltb_ge in E1, E2; split; [exact E1|split; [exact E2|]].
  unfold header_ok in E3, E4; split; intros h Hh.
  - rewrite Hh in E3; destruct (prev_file h); [|discriminate].
    apply String.eqb_eq in E3; congruence.
  - rewrite Hh in E4; destruct (prev_file h); [|discriminate].
    apply String.eqb_eq in E4; congruence.
Qed.

Lemma verify_loop_some gs : forall p ids l,
  NoDup ids -> verify_loop true (Some p) ids gs = Ok l ->
  l = [] /\ exists ps, map_result pair_of_group gs = Ok ps /\ Aux.chain_ok (p :: ps) /\
                       NoDup (map up_id ps ++ ids).
Proof.
  induction gs as [|g gs IH]; intros [pu pd] ids l Hn H; simpl in H.
  - injection H as <-; split; [reflexivity|exists []; simpl; auto].
  - apply bind_ok in H as ([u d] & Hg & H).
    destruct (mem_str (file_id u) ids) eqn:Em; [discriminate|].
    destruct (check_pair pu pd u d) eqn:Ec; [discriminate|].
    apply mem_str_false in Em.
    destruct (IH (u, d) (file_id u :: ids) l (NoDup_cons _ Em Hn) H) as (-> & ps & Hps & Hc & Hd).
    split; [reflexivity|exists ((u, d) :: ps)]; split.
    + simpl; rewrite Hg; simpl; rewrite Hps; reflexivity.
    + split; [simpl; split; [apply check_pair_none; exact Ec|exact Hc]|].
      simpl; eapply Permutation_NoDup; [|exact Hd].
      symmetry; apply Permutation_middle.
Qed.

Lemma verify_loop_none gs l :
  verify_loop true None [] gs = Ok l ->
  l = [] /\ exists ps, map_result pair_of_group gs = Ok ps /\ Aux.chain_ok ps /\
                       NoDup (map up_id (tl ps)).
Proof.
  destruct gs as [|g gs]; simpl; intros H.
  - injection H as <-; split; [reflexivity|exists []; simpl; repeat constructor].
  - apply bind_ok in H as (f & Hg & H).
    destruct (verify_loop_some gs f [] l (NoDup_nil _) H) as (-> & ps & Hps & Hc & Hd).
    split; [reflexivity|exists (f :: ps)]; rewrite Hg; simpl; rewrite Hps.
    rewrite app_nil_r in Hd; auto.
Qed.

(** X18: when [verify_migration_files] returns with [raise_error=True], the
    folder parses, pairs up, and the pairs in ascending order satisfy: the up
    timestamps and the down timestamps are non-decreasing, every non-first
    file that has a header names the previous file of its kind as
    [prev_file], and the up file ids of all pairs but the first are pairwise
    distinct. *)
Theorem verify_migration_files_invariants fs l :
  verify_migration_files fs true = Ok l ->
  l = [] /\
  exists files pairs, get_files fs false = Ok files /\ iter_migration_files files = Ok pairs /\
    Aux.chain_ok pairs /\ NoDup (map (fun p => file_id (fst p)) (tl pairs)).
Proof.
  unfold verify_migration_files; intros H; apply bind_ok in H as (files & Hf & H).
  destruct (verify_loop_none _ _ H) as (-> & ps & Hps & Hc & Hd).
  split; [reflexivity|exists files, ps; auto].
Qed.

(** The theorem on a folder of three migrations without headers. *)
Lemma verify_migration_files_invariants_witness :
  verify_migration_files Examples.ex_folder3 true = Ok [] /\ [] = @nil (MigrationFile * MigrationFile * MigrationFileError) /\
  exists files pairs, get_files Examples.ex_folder3 false = Ok files /\
    iter_migration_files files = Ok pairs /\
    Aux.chain_ok pairs /\ NoDup (map (fun p => file_id (fst p)) (tl pairs)).
Proof.
  assert (H : verify_migration_files Examples.ex_folder3 true = Ok []) by (vm_compute; reflexivity).
  split; [exact H|exact (verify_migration_files_invariants _ _ H)].
Defined.

(** C2 (code bug): the first pair's id never enters [_ids], since the
    first iteration ends at [continue] before [_ids.add].  A folder whose
    third migration reuses the id [a] of the first one, with every header
    naming the previous file of its kind, passes with [raise_error=True];
    reusing the id [b] of a later migration raises the duplicate error. *)
Theorem verify_accepts_first_id_reused :
  verify_migration_files Examples.ex_folder_dup true = Ok [] /\
  match get_files Examples.ex_folder_dup false with
  | Ok files => map file_id (filter is_up files) = ["a"; "b"; "a"] /\
                Forall (fun f => header f <> None) (skipn 2 files)
  | Err _ => False
  end /\
  verify_migration_files Examples.ex_folder_dup_later true = Err "Duplicate file_id".
Proof.
  vm_compute; split; [reflexivity|split; [|reflexivity]].
  split; [reflexivity|repeat constructor; discriminate].
Qed.

End VerifyInvariants.

(** ** Sample sizes *)
Module RewriteFacts.
Import PyStr StrFacts Migration Aux HeaderFacts Helpers.

Lemma split_nonempty sep s : split sep s <> [].
Proof.
  destruct s as [|c s]; simpl; [discriminate|].
  destruct (split sep s); [discriminate|]; destruct (Ascii.eqb c sep); discriminate.
Qed.

Lemma split_app sep a b :
  split sep (a ++ String sep b) = app (split sep a) (split sep b).
Proof.
  induction a as [|c a IH]; simpl.
  - rewrite Ascii.eqb_refl; destruct (split sep b) eqn:E; [exfalso; exact (split_nonempty _ _ E)|reflexivity].
  - rewrite IH; destruct (split sep a) as [|p ps] eqn:E; [exfalso; exact (split_nonempty _ _ E)|].
    simpl; destruct (Ascii.eqb c sep); reflexivity.
Qed.

Lemma split_pieces f sep s :
  existsb_str f s = false -> Forall (fun p => existsb_str f p = false) (split sep s).
Proof.
  induction s as [|c s IH]; simpl; intros H; [repeat constructor|].
  apply orb_false_elim in H as [H1 H2]; specialize (IH H2).
  destruct (split sep s) as [|p ps]; [repeat constructor|].
  inversion IH; subst; destruct (Ascii.eqb c sep); repeat constructor; auto.
  simpl; rewrite H1; assumption.
Qed.

Lemma split_no_sep_pieces sep s : Forall (fun p => has_char sep p = false) (split sep s).
Proof.
  induction s as [|c s IH]; simpl; [repeat constructor|].
  destruct (split sep s) as [|p ps]; [repeat constructor|].
  inversion IH; subst; destruct (Ascii.eqb c sep) eqn:E; repeat constructor; auto.
  unfold has_char; simpl; rewrite E; assumption.
Qed.

Lemma nth_forall {A} (P : A -> Prop) l n d : Forall P l -> P d -> P (nth n l d).
Proof.
  revert n; induction l as [|x l IH]; intros [|n] HF Hd; simpl; auto;
    inversion HF; subst; auto.
Qed.

Lemma strip_no f s : existsb_str f s = false -> existsb_str f (strip s) = false.
Proof. intros H; unfold strip; apply existsb_rstrip, existsb_lstrip, H. Qed.

Lemma field_value_no_nl l : has_char nl l = false -> has_char nl (field_value l) = false.
Proof.
  intros H; unfold field_value; apply strip_no.
  apply (nth_forall (fun p => has_char nl p = false)); [apply split_pieces, H|reflexivity].
Qed.

Lemma lower_char_nl c : Ascii.eqb (lower_char c) nl = Ascii.eqb c nl.
Proof.
  unfold lower_char; destruct (((65 <=? nat_of_ascii c) && (nat_of_ascii c <=? 90))%nat) eqn:E;
    [|reflexivity].
  apply andb_true_iff in E as [E1 E2]; apply Nat.leb_le in E1, E2.
  destruct (Ascii.eqb c nl) eqn:E3.
  - apply Ascii.eqb_eq in E3; subst c; change (nat_of_ascii nl) with 10%nat in E1; lia.
  - apply Ascii.eqb_neq; intros E4.
    assert (E5 : nat_of_ascii (ascii_of_nat (nat_of_ascii c + 32)) = nat_of_ascii nl) by (rewrite E4; reflexivity).
    rewrite nat_ascii_embedding in E5 by lia; change (nat_of_ascii nl) with 10%nat in E5; lia.
Qed.

Lemma lower_no_nl s : has_char nl s = false -> has_char nl (lower s) = false.
Proof.
  unfold has_char; induction s as [|c s IH]; simpl; [reflexivity|].
  rewrite lower_char_nl; intros H; apply orb_false_elim in H as [H1 H2]; rewrite H1, IH; auto.
Qed.

Lemma fold_acc_no_nl lines acc :
  Forall (fun l => has_char nl l = false) lines -> acc_no_nl acc ->
  acc_no_nl (fold_left from_text_step lines acc).
Proof.
  revert acc; induction lines as [|l t IH]; intros acc HF Ha; simpl; [exact Ha|].
  inversion HF as [|? ? Hl Ht]; subst; apply IH; [exact Ht|].
  destruct Ha as (H1 & H2 & H3); unfold from_text_step, acc_no_nl.
  destruct (startswith l PREFIX_prev_file); [simpl; auto|].
  destruct (startswith l PREFIX_author); [simpl; auto using field_value_no_nl|].
  destruct (startswith l PREFIX_version); [simpl; auto using field_value_no_nl|].
  destruct (startswith l PREFIX_skip_verify); simpl; auto using field_value_no_nl, lower_no_nl.
Qed.

Lemma from_text_no_nl c :
  no_nl_opt (author (from_text c)) /\ no_nl_opt (version (from_text c)) /\
  no_nl_opt (skip_reason (from_text c)).
Proof.
  unfold from_text.
  destruct (fold_acc_no_nl (split nl c) acc0) as (H1 & H2 & H3);
    [apply split_no_sep_pieces|repeat split|].
  unfold mk_header; simpl; split; [exact H1|split; [exact H2|]].
  destruct (pa_skip _); [|exact H3].
  destruct (pa_reason _); [exact H3|reflexivity].
Qed.


Lemma reason_no_nl sr : no_nl_opt sr -> has_char nl (reason_or_default sr) = false.
Proof.
  destruct sr as [r|]; simpl; [|reflexivity].
  destruct (String.eqb r ""); [reflexivity|exact (fun H => H)].
Qed.

Lemma or_empty_no_nl o : no_nl_opt o -> has_char nl (or_empty o) = false.
Proof. destruct o; [exact (fun H => H)|reflexivity]. Qed.

Ltac nl_free :=
  first
    [ reflexivity
    | assumption
    | apply pref_no_char; [reflexivity | nl_free]
    | apply rtail_no_char; nl_free
    | apply space_no_char; [discriminate | nl_free]
    | apply clean_no_nl; assumption ].

Ltac side :=
  first [ reflexivity | discriminate | solve [repeat constructor]
        | solve [repeat constructor; nl_free] ].

Ltac prev_case L x :=
  rewrite (as_text_eq _ L x) by side;
  rewrite rstrip_prefix by reflexivity;
  unfold nl_str; rewrite split_join by side;
  eexists; split; [reflexivity|repeat constructor].

Lemma as_text_prev_lines h name :
  prev_file h = Some name -> clean name = true -> no_nl_opt (author h) ->
  no_nl_opt (version h) -> no_nl_opt (skip_reason h) ->
  exists R, split nl (as_text h) = (PREFIX_prev_file ++ " " ++ name) :: R /\
            Forall (fun l => startswith l PREFIX_prev_file = false) R.
Proof.
  destruct h as [p a v sv sr]; simpl; intros -> Hn Ha Hv Hr.
  apply or_empty_no_nl in Ha; apply reason_no_nl in Hr.
  destruct v as [v|], sv; simpl in Hv.
  - prev_case [PREFIX_prev_file ++ " " ++ or_empty (Some name); PREFIX_author ++ " " ++ or_empty a;
               PREFIX_version ++ " " ++ v] (PREFIX_skip_verify ++ " " ++ reason_or_default sr).
  - prev_case [PREFIX_prev_file ++ " " ++ or_empty (Some name); PREFIX_author ++ " " ++ or_empty a]
              (PREFIX_version ++ " " ++ v).
  - prev_case [PREFIX_prev_file ++ " " ++ or_empty (Some name); PREFIX_author ++ " " ++ or_empty a]
              (PREFIX_skip_verify ++ " " ++ reason_or_default sr).
  - prev_case [PREFIX_prev_file ++ " " ++ or_empty (Some name)] (PREFIX_author ++ " " ++ or_empty a).
Qed.

Lemma fold_keep_prev lines acc :
  Forall (fun l => startswith l PREFIX_prev_file = false) lines ->
  pa_prev (fold_left from_text_step lines acc) = pa_prev acc.
Proof.
  revert acc; induction lines as [|l t IH]; intros acc HF; simpl; [reflexivity|].
  inversion HF as [|? ? Hl Ht]; subst; rewrite IH by exact Ht.
  unfold from_text_step; rewrite Hl.
  destruct (startswith l PREFIX_author); [reflexivity|].
  destruct (startswith l PREFIX_version); [reflexivity|].
  destruct (startswith l PREFIX_skip_verify); reflexivity.
Qed.

Lemma has_prefix_prev l : Files.has_prefix l = false -> startswith l PREFIX_prev_file = false.
Proof.
  unfold Files.has_prefix, PREFIXES; simpl; rewrite !orb_false_r; intros H.
  apply orb_false_elim in H as [_ H]; apply orb_false_elim in H as [H _]; exact H.
Qed.

Lemma split_join_lines L :
  Forall (fun l => has_char nl l = false) L ->
  Forall (fun l => Files.has_prefix l = false) L ->
  Forall (fun l => startswith l PREFIX_prev_file = false) (split nl (join nl_str L)).
Proof.
  intros Hn Hp; destruct L as [|l L]; [repeat constructor|].
  unfold nl_str; rewrite split_join by (discriminate || exact Hn).
  eapply Forall_impl; [|exact Hp]; intros x; apply has_prefix_prev.
Qed.

Lemma from_text_rewrite h name L :
  prev_file h = Some name -> clean name = true -> name <> "" ->
  no_nl_opt (author h) -> no_nl_opt (version h) -> no_nl_opt (skip_reason h) ->
  Forall (fun l => has_char nl l = false) L -> Forall (fun l => Files.has_prefix l = false) L ->
  exists h', hdr (as_text h ++ nl_str ++ join nl_str L) = Some h' /\ prev_file h' = Some name.
Proof.
  intros Hp Hn Hne Ha Hv Hr HLn HLp.
  destruct (as_text_prev_lines h name Hp Hn Ha Hv Hr) as (R & HR & HF).
  assert (Hacc : pa_prev (fold_left from_text_step (split nl (as_text h ++ nl_str ++ join nl_str L)) acc0)
                 = Some name).
  { change (nl_str ++ join nl_str L) with (String nl (join nl_str L)).
    rewrite split_app, HR; cbn [app fold_left]; rewrite fold_left_app.
    rewrite fold_keep_prev by (apply split_join_lines; assumption).
    rewrite fold_keep_prev by exact HF.
    rewrite step_prev; cbn [pa_prev]; f_equal.
    rewrite (field_value_after PREFIX_prev_file "-- Prev-file") by
      (reflexivity || (apply space_no_char; [discriminate|apply clean_no_colon; exact Hn])).
    cbn [String.append]; apply strip_space, Hn. }
  unfold hdr, from_text, is_empty, mk_header; cbn [prev_file author version]; rewrite Hacc.
  cbn [truthy]; destruct (String.eqb_spec name ""); [contradiction|]; simpl.
  eexists; split; [reflexivity|reflexivity].
Qed.
End RewriteFacts.

Module FolderFacts.
Import PyStr StrFacts Migration Aux HeaderFacts Files FilesFacts RewriteFacts Helpers.
Local Open Scope Z_scope.

Lemma read_file_cons n c fs n' :
  read_file ((n, c) :: fs) n' = if String.eqb n n' then Some c else read_file fs n'.
Proof. unfold read_file; simpl; destruct (String.eqb n n'); reflexivity. Qed.

Lemma read_file_in fs n c : NoDup (map fst fs) -> In (n, c) fs -> read_file fs n = Some c.
Proof.
  induction fs as [|[n0 c0] fs IH]; simpl; intros Hn Hin; [contradiction|].
  rewrite read_file_cons; inversion Hn as [|? ? Hn0 Hnd]; subst.
  destruct Hin as [E|Hin].
  - injection E as -> ->; rewrite String.eqb_refl; reflexivity.
  - destruct (String.eqb_spec n0 n) as [->|_]; [|apply IH; assumption].
    exfalso; apply Hn0; apply in_map_iff; exists (n, c); auto.
Qed.

Lemma read_file_some fs n c : read_file fs n = Some c -> In n (map fst fs).
Proof.
  induction fs as [|[n0 c0] fs IH]; simpl; [discriminate|].
  rewrite read_file_cons; destruct (String.eqb_spec n0 n); auto.
Qed.

Lemma read_map_update fs n c n' :
  read_file (map (fun p => if String.eqb (fst p) n then (n, c) else p) fs) n' =
  if String.eqb n' n && existsb (fun p => String.eqb (fst p) n) fs then Some c
  else read_file fs n'.
Proof.
  induction fs as [|[n0 c0] fs IH]; simpl.
  - rewrite andb_false_r; reflexivity.
  - destruct (String.eqb_spec n0 n) as [->|Hne]; rewrite read_file_cons.
    + rewrite read_file_cons, orb_true_l, andb_true_r, IH.
      destruct (String.eqb_spec n n') as [->|Hne']; [rewrite String.eqb_refl; reflexivity|].
      destruct (String.eqb_spec n' n); [congruence|].
      rewrite andb_false_l; reflexivity.
    + rewrite read_file_cons, orb_false_l, IH.
      destruct (String.eqb_spec n0 n') as [->|]; [|reflexivity].
      destruct (String.eqb_spec n' n); [congruence|reflexivity].
Qed.

Lemma read_file_app_new fs n c n' :
  existsb (fun p => String.eqb (fst p) n) fs = false ->
  read_file (app fs [(n, c)]) n' = if String.eqb n' n then Some c else read_file fs n'.
Proof.
  induction fs as [|[n0 c0] fs IH]; simpl; intros E.
  - rewrite read_file_cons; unfold read_file; simpl.
    destruct (String.eqb_spec n n'), (String.eqb_spec n' n); congruence || reflexivity.
  - apply orb_false_elim in E as [E1 E2]; rewrite !read_file_cons, IH by exact E2.
    destruct (String.eqb_spec n0 n') as [->|]; [|reflexivity].
    rewrite E1; reflexivity.
Qed.

Lemma read_write_text fs n c n' :
  read_file (write_text fs n c) n' = if String.eqb n' n then Some c else read_file fs n'.
Proof.
  unfold write_text; destruct (existsb (fun p => String.eqb (fst p) n) fs) eqn:E.
  - rewrite read_map_update, E, andb_true_r; reflexivity.
  - apply read_file_app_new; exact E.
Qed.

Lemma names_write_text fs n c : In n (map fst fs) -> map fst (write_text fs n c) = map fst fs.
Proof.
  intros Hin; unfold write_text.
  assert (E : existsb (fun p => String.eqb (fst p) n) fs = true).
  { apply existsb_exists; apply in_map_iff in Hin as (p & <- & Hp); exists p.
    split; [exact Hp|apply String.eqb_refl]. }
  rewrite E, map_map; apply map_ext; intros [n0 c0]; simpl.
  destruct (String.eqb_spec n0 n); simpl; congruence.
Qed.

(** [write_header] on a file of the folder. *)
Lemma write_header_spec fs mf h c :
  header mf = Some h -> read_file fs (path_name mf) = Some c ->
  map fst (write_header fs mf) = map fst fs /\
  forall n, read_file (write_header fs mf) n =
            if String.eqb n (path_name mf)
            then Some (as_text h ++ nl_str ++
                       join nl_str (filter (fun l => negb (has_prefix l)) (split nl c)))
            else read_file fs n.
Proof.
  intros Hh Hc; unfold write_header; rewrite Hh, Hc; split.
  - apply names_write_text; eapply read_file_some; exact Hc.
  - intros n; apply read_write_text.
Qed.

Lemma from_file_spec n c mf :
  from_file n c = Ok mf ->
  path_name mf = n /\ header mf = hdr c /\ n <> "" /\
  forall c', from_file n c' = Ok (with_header mf (hdr c')).
Proof.
  unfold from_file; destruct (parse_filename n) as [[[t i] k]|e] eqn:E; simpl; [|discriminate].
  intros H; injection H as <-; simpl; split; [reflexivity|split; [reflexivity|split]].
  - intros ->; vm_compute in E; discriminate.
  - intros c'; reflexivity.
Qed.

Section Relabel.
Variable r : MigrationFile -> MigrationFile.
Hypothesis r_ts : forall f, ts (r f) = ts f.
Hypothesis r_id : forall f, file_id (r f) = file_id f.
Hypothesis r_type : forall f, file_type (r f) = file_type f.
Hypothesis r_path : forall f, path_name (r f) = path_name f.

Lemma key_le_r a b : key_le (r a) (r b) = key_le a b.
Proof. unfold key_le; rewrite !r_ts, !r_id; reflexivity. Qed.

Lemma insert_mf_r x l : insert_mf (r x) (map r l) = map r (insert_mf x l).
Proof.
  induction l as [|y t IH]; simpl; [reflexivity|].
  rewrite key_le_r; destruct (key_le x y); simpl; [reflexivity|rewrite IH; reflexivity].
Qed.

Lemma sort_mf_r l : sort_mf (map r l) = map r (sort_mf l).
Proof. induction l as [|x t IH]; simpl; [reflexivity|rewrite IH; apply insert_mf_r]. Qed.

Lemma groupby_id_r l : groupby_id (map r l) = map (map r) (groupby_id l).
Proof.
  induction l as [|x t IH]; simpl; [reflexivity|rewrite IH].
  destruct (groupby_id t) as [|[|y g] gs]; simpl; try reflexivity.
  rewrite !r_id; destruct (String.eqb (file_id x) (file_id y)); reflexivity.
Qed.

Lemma filter_r (p : MigrationFile -> bool) l :
  (forall f, p (r f) = p f) -> filter p (map r l) = map r (filter p l).
Proof.
  intros Hp; induction l as [|x t IH]; simpl; [reflexivity|].
  rewrite Hp; destruct (p x); simpl; rewrite IH; reflexivity.
Qed.

Lemma pair_of_group_r g u d :
  pair_of_group g = Ok (u, d) -> pair_of_group (map r g) = Ok (r u, r d).
Proof.
  intros H; apply pair_of_group_ok in H as [Hu Hd]; unfold pair_of_group.
  rewrite !filter_r, Hu, Hd; [reflexivity| |];
    intros f; unfold is_up, is_down; rewrite r_type; reflexivity.
Qed.

Lemma header_ok_prev_r f p : header_ok f (r p) = header_ok f p.
Proof. unfold header_ok; rewrite r_path; reflexivity. Qed.

Lemma check_pair_r pu pd u d : check_pair (r pu) (r pd) u d = check_pair pu pd u d.
Proof. unfold check_pair; rewrite !r_ts, !header_ok_prev_r; reflexivity. Qed.

End Relabel.

Lemma reparse_ts fs f : ts (reparse fs f) = ts f.
Proof. reflexivity. Qed.
Lemma reparse_id fs f : file_id (reparse fs f) = file_id f.
Proof. reflexivity. Qed.
Lemma reparse_type fs f : file_type (reparse fs f) = file_type f.
Proof. reflexivity. Qed.
Lemma reparse_path fs f : path_name (reparse fs f) = path_name f.
Proof. reflexivity. Qed.

Lemma reparse_same fs f c :
  read_file fs (path_name f) = Some c -> header f = hdr c -> reparse fs f = f.
Proof. unfold reparse, with_header; intros -> <-; destruct f; reflexivity. Qed.

Lemma reparse_new fs f c :
  read_file fs (path_name f) = Some c -> header (reparse fs f) = hdr c.
Proof. unfold reparse; intros ->; reflexivity. Qed.

Lemma NoDup_map_filter {A B} (g : A -> B) (p : A -> bool) l :
  NoDup (map g l) -> NoDup (map g (filter p l)).
Proof.
  induction l as [|x t IH]; simpl; intros H; [constructor|].
  inversion H as [|? ? Hx Ht]; subst.
  destruct (p x); simpl; [|auto]; constructor; [|auto].
  intros Hin; apply Hx; apply in_map_iff in Hin as (y & <- & Hy).
  apply filter_In in Hy as [Hy _]; apply in_map; exact Hy.
Qed.

Lemma map_fst_filter_same {B} (p : string -> bool) (l l1 : list (string * B)) :
  map fst l1 = map fst l ->
  map fst (filter (fun q => p (fst q)) l1) = map fst (filter (fun q => p (fst q)) l).
Proof.
  revert l1; induction l as [|[n c] t IH]; intros [|[n1 c1] t1] H; simpl in *;
    try discriminate; [reflexivity|].
  injection H as -> H; destruct (p n); simpl; rewrite IH by exact H; reflexivity.
Qed.

(** Re-reading the folder after rewriting contents (same names). *)
Lemma map_result_reread l l1 L :
  map fst l1 = map fst l ->
  map_result (fun p => from_file (fst p) (snd p)) l = Ok L ->
  exists L1, map_result (fun p => from_file (fst p) (snd p)) l1 = Ok L1 /\
    Forall2 (fun mf mf1 => exists c1, In (path_name mf, c1) l1 /\ mf1 = with_header mf (hdr c1)) L L1.
Proof.
  revert l1 L; induction l as [|[n c] t IH]; intros [|[n1 c1] t1] L H HL; simpl in *;
    try discriminate.
  - injection HL as <-; exists []; split; [reflexivity|constructor].
  - injection H as -> H.
    destruct (from_file n c) as [mf|e] eqn:E; simpl in HL; [|discriminate].
    destruct (map_result _ t) as [L'|e] eqn:E'; simpl in HL; [|discriminate].
    injection HL as <-.
    destruct (IH t1 L' H eq_refl) as (L1 & HL1 & HF).
    destruct (from_file_spec _ _ _ E) as (Hp & _ & _ & Hc).
    exists (with_header mf (hdr c1) :: L1); rewrite Hc, HL1; simpl; split; [reflexivity|].
    constructor; [exists c1; rewrite Hp; split; [left; reflexivity|reflexivity]|].
    eapply Forall2_impl; [|exact HF]; intros a b (c2 & Hin & ->); exists c2; auto.
Qed.

Lemma Forall2_reparse fs1 L L1 :
  NoDup (map fst fs1) ->
  Forall2 (fun mf mf1 => exists c1, In (path_name mf, c1) fs1 /\ mf1 = with_header mf (hdr c1)) L L1 ->
  L1 = map (reparse fs1) L.
Proof.
  intros Hn HF; induction HF as [|a b L L1 (c1 & Hin & ->) _ IH]; simpl; [reflexivity|].
  rewrite IH; unfold reparse; rewrite (read_file_in _ _ _ Hn Hin); reflexivity.
Qed.

Lemma In_filter_sub {A} (p : A -> bool) l x : In x (filter p l) -> In x l.
Proof. intros H; apply filter_In in H; tauto. Qed.

Lemma get_files_reparse fs fs1 files :
  NoDup (map fst fs) -> map fst fs1 = map fst fs ->
  get_files fs false = Ok files -> get_files fs1 false = Ok (map (reparse fs1) files).
Proof.
  intros Hn Hs; unfold get_files.
  destruct (map_result _ (filter _ fs)) as [L|e] eqn:E; unfold bind at 1; [|discriminate].
  intros H; injection H as <-.
  destruct (map_result_reread _ (filter (fun p => glob_match false (fst p)) fs1) L
              (map_fst_filter_same _ _ _ Hs) E) as (L1 & HL1 & HF).
  rewrite HL1; unfold bind.
  assert (Hn1 : NoDup (map fst fs1)) by (rewrite Hs; exact Hn).
  rewrite (Forall2_reparse fs1 L L1 Hn1).
  - rewrite sort_mf_r; reflexivity.
  - eapply Forall2_impl; [|exact HF]; intros a b (c1 & Hin & ->).
    exists c1; split; [eapply In_filter_sub; exact Hin|reflexivity].
Qed.

Lemma NoDup_map_inj_in {A B} (g : A -> B) l x y :
  NoDup (map g l) -> In x l -> In y l -> g x = g y -> x = y.
Proof.
  induction l as [|z t IH]; simpl; intros Hn Hx Hy E; [contradiction|].
  inversion Hn as [|? ? Hz Ht]; subst.
  destruct Hx as [<-|Hx], Hy as [<-|Hy]; auto.
  - exfalso; apply Hz; rewrite E; apply in_map; exact Hy.
  - exfalso; apply Hz; rewrite <- E; apply in_map; exact Hx.
Qed.

Lemma pair_of_group_in g u d :
  pair_of_group g = Ok (u, d) -> In u g /\ In d g /\ is_up u = true /\ is_down d = true.
Proof.
  intros H; apply pair_of_group_ok in H as [Hu Hd].
  assert (Iu : In u (filter is_up g)) by (rewrite Hu; left; reflexivity).
  assert (Id : In d (filter is_down g)) by (rewrite Hd; left; reflexivity).
  apply filter_In in Iu as [Iu Iu']; apply filter_In in Id as [Id Id']; auto.
Qed.

Lemma up_down_neq u d : is_up u = true -> is_down d = true -> u <> d.
Proof.
  unfold is_up, is_down; intros Hu Hd ->; rewrite String.eqb_eq in Hu, Hd; congruence.
Qed.

Lemma groupby_uniform l : Forall uniform (groupby_id l).
Proof.
  induction l as [|x t IH]; simpl; [constructor|].
  destruct (groupby_id t) as [|[|y g] gs] eqn:E.
  - repeat constructor; exists (file_id x); repeat constructor.
  - constructor; [exists (file_id x); repeat constructor|exact IH].
  - inversion IH as [|? ? [i Hi] Hgs]; subst.
    destruct (String.eqb_spec (file_id x) (file_id y)) as [Exy|Exy].
    + constructor; [|exact Hgs]; exists i; constructor; [|exact Hi].
      inversion Hi; subst; congruence.
    + constructor; [exists (file_id x); repeat constructor|exact IH].
Qed.

Lemma uniform_pair g u d : uniform g -> pair_of_group g = Ok (u, d) -> file_id d = file_id u.
Proof.
  intros [i Hi] H; apply pair_of_group_in in H as (Iu & Id & _).
  rewrite Forall_forall in Hi; rewrite (Hi u Iu), (Hi d Id); reflexivity.
Qed.

Lemma check_pair_err_id pu pd u d e :
  check_pair pu pd u d = Some e -> err_file_id e = file_id u \/ err_file_id e = file_id d.
Proof.
  unfold check_pair; repeat match goal with |- context [if ?b then _ else _] => destruct b end;
    intros H; inversion H; subst; simpl; auto.
Qed.

Lemma check_pair_header pu pd u d e :
  check_pair pu pd u d = Some e -> error_type e = EHeader -> ts pu <= ts u /\ ts pd <= ts d.
Proof.
  unfold check_pair.
  destruct (ts u <? ts pu) eqn:E1; [intros H; injection H as <-; discriminate|].
  destruct (ts d <? ts pd) eqn:E2; [intros H; injection H as <-; discriminate|].
  intros _ _; rewrite Z.ltb_ge in E1, E2; lia.
Qed.

Lemma check_pair_none_iff pu pd u d :
  check_pair pu pd u d = None <->
  ts pu <= ts u /\ ts pd <= ts d /\ header_ok u pu = true /\ header_ok d pd = true.
Proof.
  unfold check_pair.
  destruct (ts u <? ts pu) eqn:E1; [split; [discriminate|rewrite Z.ltb_lt in E1; lia]|].
  destruct (ts d <? ts pd) eqn:E2; [split; [discriminate|rewrite Z.ltb_lt in E2; lia]|].
  rewrite Z.ltb_ge in E1, E2.
  destruct (header_ok u pu), (header_ok d pd); simpl; split; intuition (discriminate || lia).
Qed.

Lemma mem_str_cons x y l : mem_str x (y :: l) = String.eqb x y || mem_str x l.
Proof. reflexivity. Qed.

Lemma lookup_skip (b : list (MigrationFile * MigrationFile * MigrationFileError)) acc id :
  Forall (fun x => err_file_id (snd x) <> id) b ->
  fold_left (fun acc x => let '(_, _, e) := x in
                          if String.eqb (err_file_id e) id then Some e else acc) b acc = acc.
Proof.
  revert acc; induction b as [|[[u d] e] b IH]; intros acc HF; simpl; [reflexivity|].
  inversion HF as [|? ? Hx Hb]; subst; simpl in Hx.
  destruct (String.eqb_spec (err_file_id e) id); [contradiction|]; apply IH, Hb.
Qed.

Lemma lookup_at (head rest : list (MigrationFile * MigrationFile * MigrationFileError))
  u d (eo : option MigrationFileError) ids :
  Forall (fun x => mem_str (err_file_id (snd x)) ids = true) head ->
  mem_str (file_id u) ids = false ->
  Forall (fun x => mem_str (err_file_id (snd x)) (file_id u :: ids) = false) rest ->
  (forall e, eo = Some e -> err_file_id e = file_id u) ->
  lookup_error (app head (app (match eo with Some e => [(u, d, e)] | None => [] end) rest))
               (file_id u) = eo.
Proof.
  intros Hh Hu Hr He; unfold lookup_error; rewrite !fold_left_app.
  rewrite (lookup_skip head) by
    (eapply Forall_impl; [|exact Hh]; intros x; cbv beta; intros Hx E; rewrite E, Hu in Hx; discriminate).
  rewrite (lookup_skip rest).
  - destruct eo as [e|]; simpl; [|reflexivity].
    rewrite (He e eq_refl), String.eqb_refl; reflexivity.
  - eapply Forall_impl; [|exact Hr]; intros x; cbv beta; intros Hx E; rewrite E, mem_str_cons, String.eqb_refl in Hx.
    discriminate.
Qed.

Lemma verify_loop_err_ids gs : forall prev ids errs,
  Forall uniform gs -> verify_loop false prev ids gs = Ok errs ->
  Forall (fun x => mem_str (err_file_id (snd x)) ids = false) errs.
Proof.
  induction gs as [|g gs IH]; intros prev ids errs Hu H; simpl in H.
  - injection H as <-; constructor.
  - inversion Hu as [|? ? Hg Hgs]; subst.
    destruct (pair_of_group g) as [[u d]|e] eqn:Ep; simpl in H; [|discriminate].
    destruct prev as [[pu pd]|]; [|eapply IH; eauto].
    destruct (mem_str (file_id u) ids) eqn:Em; [discriminate|].
    assert (Hrest : forall rest, verify_loop false (Some (u, d)) (file_id u :: ids) gs = Ok rest ->
              Forall (fun x => mem_str (err_file_id (snd x)) ids = false) rest).
    { intros rest Hr; eapply Forall_impl; [|eapply IH; eauto].
      intros x; cbv beta; intros Hx; rewrite mem_str_cons in Hx; apply orb_false_elim in Hx; tauto. }
    destruct (check_pair pu pd u d) as [e|] eqn:Ec; [|eapply Hrest; eauto].
    destruct (verify_loop false (Some (u, d)) (file_id u :: ids) gs) as [rest|e'] eqn:Er;
      simpl in H; [|discriminate].
    injection H as <-; constructor; [|eapply Hrest; eauto]; simpl.
    destruct (check_pair_err_id _ _ _ _ _ Ec) as [E|E]; rewrite E;
      [|rewrite (uniform_pair g u d Hg Ep)]; exact Em.
Qed.

Lemma hdr_some c h : hdr c = Some h -> h = from_text c.
Proof. unfold hdr; destruct (is_empty (from_text c)); intros H; inversion H; reflexivity. Qed.

Lemma Forall_filter_neg {A} (p : A -> bool) l : Forall (fun x => p x = false) (filter (fun x => negb (p x)) l).
Proof.
  apply Forall_forall; intros x Hx; apply filter_In in Hx as [_ Hx].
  destruct (p x); [discriminate|reflexivity].
Qed.

Lemma Forall_filter_sub {A} (P : A -> Prop) (p : A -> bool) l : Forall P l -> Forall P (filter p l).
Proof. rewrite !Forall_forall; intros H x Hx; apply filter_In in Hx as [Hx _]; auto. Qed.

(** The header written by [_fix_file] reads back with the new [prev_file]. *)
Lemma fix_content c hu pn :
  hdr c = Some hu -> clean pn = true -> pn <> "" ->
  exists h', hdr (as_text (set_prev hu pn) ++ nl_str ++
                  join nl_str (filter (fun l => negb (has_prefix l)) (split nl c))) = Some h' /\
             prev_file h' = Some pn.
Proof.
  intros Hc Hn Hne; apply hdr_some in Hc; subst hu.
  destruct (from_text_no_nl c) as (Ha & Hv & Hr).
  apply from_text_rewrite; try assumption; try reflexivity.
  - apply Forall_filter_sub, split_no_sep_pieces.
  - apply Forall_filter_neg.
Qed.

Lemma pair_of_group_reparse fs g u d :
  pair_of_group g = Ok (u, d) -> pair_of_group (map (reparse fs) g) = Ok (reparse fs u, reparse fs d).
Proof. intros H; apply pair_of_group_r; auto. Qed.

Lemma check_pair_reparse fs pu pd u d :
  check_pair (reparse fs pu) (reparse fs pd) u d = check_pair pu pd u d.
Proof. apply check_pair_r; auto. Qed.

Lemma groupby_id_reparse fs l : groupby_id (map (reparse fs) l) = map (map (reparse fs)) (groupby_id l).
Proof. apply groupby_id_r; auto. Qed.

Lemma NoDup_app_disj {A} (l l' : list A) x : NoDup (app l l') -> In x l -> ~ In x l'.
Proof.
  induction l as [|y t IH]; simpl; intros Hn Hx; [contradiction|].
  inversion Hn as [|? ? Hy Ht]; subst.
  destruct Hx as [<-|Hx]; [intros Hin; apply Hy, in_or_app; right; exact Hin|auto].
Qed.

Lemma mem_head_cons (head : list (MigrationFile * MigrationFile * MigrationFileError)) y ids :
  Forall (fun x => mem_str (err_file_id (snd x)) ids = true) head ->
  Forall (fun x => mem_str (err_file_id (snd x)) (y :: ids) = true) head.
Proof.
  intros H; eapply Forall_impl; [|exact H]; intros x; cbv beta; intros Hx.
  rewrite mem_str_cons, Hx, orb_true_r; reflexivity.
Qed.

Lemma file_inv_frame fs fs' (l : list MigrationFile) (ns : list string) :
  (forall n, ~ In n ns -> read_file fs' n = read_file fs n) ->
  (forall f, In f l -> ~ In (path_name f) ns) ->
  Forall (fun f => file_inv fs f /\ name_ok f) l -> Forall (fun f => file_inv fs' f /\ name_ok f) l.
Proof.
  intros Hfr Hl HF; rewrite Forall_forall in HF |- *; intros f Hf.
  destruct (HF f Hf) as [(c & Hc & Hh) Ho]; split; [|exact Ho].
  exists c; rewrite Hfr; auto.
Qed.

Lemma repair_loop_inv gs : forall prev ids fsk modk head tail fs1 m,
  Forall uniform gs ->
  NoDup (map path_name (concat gs)) ->
  Forall (fun f => file_inv fsk f /\ name_ok f) (concat gs) ->
  prev_ok prev ->
  Forall (fun x => mem_str (err_file_id (snd x)) ids = true) head ->
  verify_loop false prev ids gs = Ok tail ->
  repair_loop fsk (app head tail) prev gs modk = Ok (fs1, m) ->
  map fst fs1 = map fst fsk /\
  (forall n, ~ In n (map path_name (concat gs)) -> read_file fs1 n = read_file fsk n) /\
  verify_loop false (option_map (rr fs1) prev) ids (map (map (reparse fs1)) gs) = Ok [].
Proof.
  induction gs as [|g gs IH]; intros prev ids fsk modk head tail fs1 m Hu Hnd Hf Hp Hh Hv Hr.
  - simpl in Hr; injection Hr as <- <-; split; [reflexivity|split; reflexivity].
  - inversion Hu as [|? ? Hg Hgs]; subst.
    cbn [concat] in Hnd, Hf |- *; rewrite map_app in Hnd |- *.
    apply Forall_app in Hf as [Hfg Hfs].
    pose proof (NoDup_app_remove_l _ _ Hnd) as Hnds.
    simpl in Hv, Hr.
    destruct (pair_of_group g) as [[u d]|e] eqn:Ep; simpl in Hv, Hr; [|discriminate].
    destruct (pair_of_group_in _ _ _ Ep) as (Iu & Id & Hup & Hdn).
    assert (Huo : file_inv fsk u /\ name_ok u) by (rewrite Forall_forall in Hfg; auto).
    assert (Hdo : file_inv fsk d /\ name_ok d) by (rewrite Forall_forall in Hfg; auto).
    destruct Huo as [(cu & Hcu & Hhu) Hnu]; destruct Hdo as [(cd & Hcd & Hhd) Hnd'].
    assert (Hud : path_name u <> path_name d).
    { intros E; apply (up_down_neq u d Hup Hdn).
      apply (NoDup_map_inj_in path_name g); auto; exact (NoDup_app_remove_r _ _ Hnd). }
    assert (Hus : ~ In (path_name u) (map path_name (concat gs))).
    { apply (NoDup_app_disj _ _ _ Hnd), in_map, Iu. }
    assert (Hds : ~ In (path_name d) (map path_name (concat gs))).
    { apply (NoDup_app_disj _ _ _ Hnd), in_map, Id. }
    assert (Hgn : forall n, ~ In n (app (map path_name g) (map path_name (concat gs))) ->
                            n <> path_name u /\ n <> path_name d /\ ~ In n (map path_name (concat gs))).
    { intros n Hn; repeat split; intros E; apply Hn, in_or_app; subst;
        [left; apply in_map, Iu|left; apply in_map, Id|right; exact E]. }
    destruct prev as [[pu pd]|].
    + destruct Hp as [Hpu Hpd].
      destruct (mem_str (file_id u) ids) eqn:Em; [discriminate|].
      destruct (check_pair pu pd u d) as [e|] eqn:Ec.
      * destruct (verify_loop false (Some (u, d)) (file_id u :: ids) gs) as [rest|e'] eqn:Er;
          simpl in Hv; [|discriminate].
        injection Hv as <-.
        assert (He : err_file_id e = file_id u).
        { destruct (check_pair_err_id _ _ _ _ _ Ec) as [E|E]; rewrite E;
            [|rewrite (uniform_pair g u d Hg Ep)]; reflexivity. }
        assert (Hl : lookup_error (app head ((u, d, e) :: rest)) (file_id u) = Some e).
        { exact (lookup_at head rest u d (Some e) ids Hh Em
                   (verify_loop_err_ids gs _ _ _ Hgs Er)
                   (fun e' E => match E in _ = o return match o with Some x => err_file_id x = file_id u | None => True end with eq_refl => He end)). }
        rewrite Hl in Hr.
        destruct (error_type e) eqn:Et; unfold fix_file in Hr; try discriminate.
        destruct (header u) as [hu|] eqn:Hhu'; [|discriminate].
        destruct (header d) as [hd|] eqn:Hhd'; [|discriminate].
        unfold bind at 1 in Hr.
        destruct (check_pair_header _ _ _ _ _ Ec Et) as [Htu Htd].
        set (u' := set_header u (set_prev hu (path_name pu))) in Hr.
        set (d' := set_header d (set_prev hd (path_name pd))) in Hr.
        pose (newu := as_text (set_prev hu (path_name pu)) ++ nl_str ++
                      join nl_str (filter (fun l => negb (has_prefix l)) (split nl cu))).
        pose (newd := as_text (set_prev hd (path_name pd)) ++ nl_str ++
                      join nl_str (filter (fun l => negb (has_prefix l)) (split nl cd))).
        pose (fa := write_header fsk u').
        pose (fb := write_header fa d').
        pose proof (write_header_spec fsk u' (set_prev hu (path_name pu)) cu eq_refl Hcu) as W1.
        assert (Hs1 : map fst fa = map fst fsk) by exact (proj1 W1).
        assert (Hr1 : forall n, read_file fa n =
                                if String.eqb n (path_name u) then Some newu else read_file fsk n)
          by exact (proj2 W1).
        assert (Hcd' : read_file fa (path_name d) = Some cd).
        { rewrite Hr1; destruct (String.eqb_spec (path_name d) (path_name u)); [congruence|exact Hcd]. }
        pose proof (write_header_spec fa d' (set_prev hd (path_name pd)) cd eq_refl Hcd') as W2.
        assert (Hs2 : map fst fb = map fst fa) by exact (proj1 W2).
        assert (Hr2 : forall n, read_file fb n =
                                if String.eqb n (path_name d) then Some newd else read_file fa n)
          by exact (proj2 W2).
        assert (Hrb : forall n, n <> path_name u -> n <> path_name d -> read_file fb n = read_file fsk n).
        { intros n N1 N2; rewrite Hr2, Hr1.
          destruct (String.eqb_spec n (path_name d)); [contradiction|].
          destruct (String.eqb_spec n (path_name u)); [contradiction|reflexivity]. }
        assert (Hfs' : Forall (fun f => file_inv fb f /\ name_ok f) (concat gs)).
        { apply (file_inv_frame fsk fb (concat gs) [path_name u; path_name d]); [| |exact Hfs].
          - intros n Hn; apply Hrb; intros E; apply Hn; subst; simpl; auto.
          - intros f Hf [E|[E|[]]].
            + apply Hus; rewrite E; apply in_map, Hf.
            + apply Hds; rewrite E; apply in_map, Hf. }
        assert (Hp' : prev_ok (Some (u, d))) by (split; assumption).
        assert (Hh' : Forall (fun x => mem_str (err_file_id (snd x)) (file_id u :: ids) = true)
                             (app head [(u, d, e)])).
        { apply Forall_app; split; [apply mem_head_cons, Hh|].
          apply Forall_cons; [|apply Forall_nil].
          change (mem_str (err_file_id e) (file_id u :: ids) = true).
          rewrite He, mem_str_cons, String.eqb_refl; reflexivity. }
        assert (Hr' : repair_loop fb (app (app head [(u, d, e)]) rest) (Some (u, d)) gs
                                  (app modk [path_name u; path_name d]) = Ok (fs1, m))
          by (rewrite <- app_assoc; exact Hr).
        destruct (IH (Some (u, d)) (file_id u :: ids) fb _ _ rest fs1 m Hgs Hnds Hfs' Hp' Hh' Er Hr')
          as (Hs & Hfr & Hv2).
        split; [rewrite Hs, Hs2, Hs1; reflexivity|split].
        -- intros n Hn; destruct (Hgn n Hn) as (N1 & N2 & N3).
           rewrite Hfr by exact N3; apply Hrb; assumption.
        -- assert (Ru : read_file fs1 (path_name u) = Some newu).
           { rewrite Hfr by exact Hus; rewrite Hr2, Hr1.
             destruct (String.eqb_spec (path_name u) (path_name d)); [congruence|].
             rewrite String.eqb_refl; reflexivity. }
           assert (Rd : read_file fs1 (path_name d) = Some newd).
           { rewrite Hfr by exact Hds; rewrite Hr2, String.eqb_refl; reflexivity. }
           destruct Hpu as [Cpu Npu]; destruct Hpd as [Cpd Npd].
           destruct (fix_content cu hu (path_name pu) (eq_sym Hhu) Cpu Npu) as (hu2 & Ehu2 & Phu2).
           destruct (fix_content cd hd (path_name pd) (eq_sym Hhd) Cpd Npd) as (hd2 & Ehd2 & Phd2).
           assert (Hc2 : check_pair pu pd (reparse fs1 u) (reparse fs1 d) = None).
           { apply check_pair_none_iff; cbn [reparse with_header ts]; split; [exact Htu|split; [exact Htd|]].
             unfold header_ok; rewrite (reparse_new _ _ _ Ru), (reparse_new _ _ _ Rd).
             unfold newu, newd; rewrite Ehu2, Ehd2, Phu2, Phd2, !String.eqb_refl; split; reflexivity. }
           simpl; rewrite (pair_of_group_reparse fs1 g u d Ep); simpl.
           rewrite Em, check_pair_reparse, Hc2.
           cbn [option_map] in Hv2; unfold rr in Hv2; cbn [fst snd] in Hv2; exact Hv2.
      * assert (Hl : lookup_error (app head tail) (file_id u) = None).
        { apply (lookup_at head tail u d None ids); [exact Hh|exact Em| |discriminate].
          eapply verify_loop_err_ids; eauto. }
        rewrite Hl in Hr.
        assert (Hp' : prev_ok (Some (u, d))) by (split; assumption).
        destruct (IH (Some (u, d)) (file_id u :: ids) fsk modk head tail fs1 m Hgs Hnds Hfs Hp'
                    (mem_head_cons _ _ _ Hh) Hv Hr) as (Hs & Hfr & Hv2).
        split; [exact Hs|split].
        -- intros n Hn; apply Hfr; apply Hgn; exact Hn.
        -- simpl; rewrite (pair_of_group_reparse fs1 g u d Ep); simpl.
           rewrite Em, check_pair_reparse.
           assert (Eu : reparse fs1 u = u) by (apply (reparse_same fs1 u cu); rewrite ?Hfr; assumption).
           assert (Ed : reparse fs1 d = d) by (apply (reparse_same fs1 d cd); rewrite ?Hfr; assumption).
           cbn [option_map] in Hv2; unfold rr in Hv2; cbn [fst snd] in Hv2; rewrite Eu, Ed in Hv2 |- *.
           rewrite Ec; exact Hv2.
    + assert (Hp' : prev_ok (Some (u, d))) by (split; assumption).
      destruct (IH (Some (u, d)) ids fsk modk head tail fs1 m Hgs Hnds Hfs Hp' Hh Hv Hr)
        as (Hs & Hfr & Hv2).
      split; [exact Hs|split].
      * intros n Hn; apply Hfr; apply Hgn; exact Hn.
      * simpl; rewrite (pair_of_group_reparse fs1 g u d Ep); simpl; exact Hv2.
Qed.

Lemma Forall2_paths (l : list (string * string)) L :
  Forall2 (fun p mf => from_file (fst p) (snd p) = Ok mf) l L -> map path_name L = map fst l.
Proof.
  induction 1 as [|p mf l L H _ IH]; simpl; [reflexivity|].
  rewrite IH; destruct (from_file_spec _ _ _ H) as (-> & _); reflexivity.
Qed.

Lemma Forall2_in_r {A B} (R : A -> B -> Prop) l L y :
  Forall2 R l L -> In y L -> exists x, In x l /\ R x y.
Proof.
  induction 1 as [|a b l L Hab _ IH]; simpl; [contradiction|].
  intros [<-|Hy]; [exists a; auto|destruct (IH Hy) as (x & Hx & Hr); exists x; auto].
Qed.

Lemma get_files_inv fs files :
  NoDup (map fst fs) -> Forall (fun p => clean (fst p) = true) fs ->
  get_files fs false = Ok files ->
  NoDup (map path_name files) /\ Forall (fun f => file_inv fs f /\ name_ok f) files.
Proof.
  intros Hn Hc; unfold get_files.
  destruct (map_result _ (filter _ fs)) as [L|e] eqn:E; unfold bind at 1; [|discriminate].
  intros H; injection H as <-; apply map_result_ok in E.
  split.
  - apply (Permutation_NoDup (Permutation_map path_name (sort_mf_perm L))).
    rewrite (Forall2_paths _ _ E); apply NoDup_map_filter, Hn.
  - apply Forall_forall; intros f Hf.
    apply (Permutation_in _ (Permutation_sym (sort_mf_perm L))) in Hf.
    destruct (Forall2_in_r _ _ _ _ E Hf) as ([n c] & Hin & Hff); simpl in Hff.
    destruct (from_file_spec _ _ _ Hff) as (Hp & Hh & Hne & _).
    apply In_filter_sub in Hin.
    split; [exists c; rewrite Hp; split; [apply read_file_in; assumption|exact Hh]|].
    rewrite Forall_forall in Hc; split; [rewrite Hp; exact (Hc _ Hin)|rewrite Hp; exact Hne].
Qed.

End FolderFacts.

(** ** C8: [repair_headers] run twice *)
Module RepairIdempotent.
Import PyStr Migration Files FilesFacts Helpers FolderFacts Examples.

(** C8 (amended): on a folder whose file names are distinct and contain no
    colon, no newline and no surrounding whitespace, a call of
    [repair_headers] that returns leaves every file name in place, and a
    second call returns the same folder and no modified file. *)
Theorem repair_headers_idempotent fs fs1 m :
  NoDup (map fst fs) -> Forall (fun p => clean (fst p) = true) fs ->
  repair_headers fs = Ok (fs1, m) ->
  map fst fs1 = map fst fs /\ repair_headers fs1 = Ok (fs1, []).
Proof.
  intros Hn Hc H.
  unfold repair_headers, verify_migration_files in H.
  destruct (get_files fs false) as [files|e] eqn:Eg; unfold bind at 2 in H; [|discriminate].
  destruct (verify_loop false None [] (groupby_id files)) as [inv|e] eqn:Ev;
    unfold bind at 1 in H; [|discriminate].
  destruct inv as [|x inv'].
  - injection H as <- <-; split; [reflexivity|].
    unfold repair_headers, verify_migration_files; rewrite Eg; unfold bind; rewrite Ev; reflexivity.
  - unfold bind in H; try rewrite Eg in H.
    destruct (get_files_inv fs files Hn Hc Eg) as [Hnd Hf].
    rewrite <- (concat_groupby files) in Hnd, Hf.
    destruct (repair_loop_inv (groupby_id files) None [] fs [] [] (x :: inv') fs1 m
                (groupby_uniform files) Hnd Hf I (Forall_nil _) Ev H) as (Hs & _ & Hv2).
    split; [exact Hs|].
    unfold repair_headers, verify_migration_files.
    rewrite (get_files_reparse fs fs1 files Hn Hs Eg); unfold bind.
    rewrite groupby_id_reparse; cbn [option_map] in Hv2; rewrite Hv2; reflexivity.
Qed.

(** Witness: [ex_fix] is repaired, then left alone. *)
Lemma repair_headers_idempotent_witness :
  repair_headers ex_fix = Ok (ex_fix_repaired, ["2-b-up.sql"; "2-b-down.sql"]) /\
  map fst ex_fix_repaired = map fst ex_fix /\ repair_headers ex_fix_repaired = Ok (ex_fix_repaired, []).
Proof.
  assert (E : repair_headers ex_fix = Ok (ex_fix_repaired, ["2-b-up.sql"; "2-b-down.sql"]))
    by (vm_compute; reflexivity).
  split; [exact E|].
  apply (repair_headers_idempotent ex_fix ex_fix_repaired ["2-b-up.sql"; "2-b-down.sql"]);
    [vm_compute; repeat constructor; simpl; intuition discriminate
    |repeat constructor
    |exact E].
Defined.

(** With a colon in a file name, the second run rewrites [b]'s files again:
    the [prev_file] read back is the part of the name before the colon. *)
Lemma repair_headers_colon_not_idempotent :
  match repair_headers ex_colon with
  | Ok (fs1, _) => match repair_headers fs1 with
                   | Ok (fs2, m2) => fs2 = fs1 /\ m2 = ["2-b-up.sql"; "2-b-down.sql"]
                   | Err _ => False
                   end
  | Err _ => False
  end.
Proof. vm_compute; split; reflexivity. Qed.

End RepairIdempotent.

(** ** C5: [reorder_files_by_last] *)
Module ReorderByLast.
Import PyStr Migration Files FilesFacts Helpers Examples.


Lemma mem_str_in x l : In x l -> mem_str x l = true.
Proof.
  intros H; unfold mem_str; apply existsb_exists; exists x; split; [exact H|apply String.eqb_refl].
Qed.





Lemma replace_ts_name local fs mf t fs' n :
  replace_ts local fs mf t = Ok (fs', n) -> n = mf_name local t mf.
Proof.
  unfold replace_ts; intros H; apply bind_ok in H as (f1 & _ & H); injection H as _ <-; reflexivity.
Qed.







End ReorderByLast.

Module SampleSizes.
Import Sampling FilesFacts.
Local Open Scope Z_scope.

Lemma load_table_config_ok cfg t t' :
  load_table_config cfg t = Ok t' ->
  exists q, config_sample cfg t = Some q /\ sample_size t' = Some (Qfloor q) /\
            tcount t' = tcount t /\ full_name t' = full_name t.
Proof.
  unfold load_table_config; destruct (config_sample cfg t) as [q|]; [|discriminate].
  intros H; injection H as <-; exists q; auto.
Qed.

Lemma load_table_config_err cfg t :
  (exists e, load_table_config cfg t = Err e) <-> config_sample cfg t = None.
Proof.
  unfold load_table_config; destruct (config_sample cfg t); split.
  - intros (e & H); discriminate.
  - discriminate.
  - reflexivity.
  - intros _; eauto.
Qed.

(** C7: [load_config] fails when no table is loaded or when some table has
    no percentage (neither a table nor a schema override nor a global one);
    otherwise each table gets the first percentage present in that priority
    order, truncated by [int()], and the size [process_table] computes is
    [floor(count * int(percent) / 100)]. *)
Theorem load_config_sizes db cfg :
  (forall db', load_config db cfg = Ok db' ->
     Forall2 (fun t t' => exists q, config_sample cfg t = Some q /\
                sample_size t' = Some (Qfloor q) /\ full_name t' = full_name t /\
                table_size t' = Ok (tcount t * Qfloor q / 100)) db db') /\
  ((exists e, load_config db cfg = Err e) <->
   db = [] \/ exists t, In t db /\ config_sample cfg t = None).
Proof.
  split.
  - intros db' H; unfold load_config in H; destruct db as [|t0 ts]; [discriminate|].
    apply map_result_ok in H; eapply Forall2_impl; [|exact H]; intros t t' Ht.
    apply load_table_config_ok in Ht as (q & H1 & H2 & H3 & H4).
    exists q; repeat split; auto; unfold table_size; rewrite H2, H3; reflexivity.
  - unfold load_config; destruct db as [|t0 ts].
    + split; [intros _; left; reflexivity|intros _; eauto].
    + rewrite map_result_err; split.
      * intros (t & Hin & Ht); right; exists t; split; [exact Hin|apply load_table_config_err, Ht].
      * intros [H|(t & Hin & Ht)]; [discriminate|exists t; split; [exact Hin|]].
        apply load_table_config_err, Ht.
Qed.

(** The theorem on the 8-row table with a 12.5 percent override. *)
Lemma load_config_sizes_witness :
  load_config [Examples.ex_table8] Examples.ex_cfg_half =
    Ok [mkTable "public" "t" [] [] [] 8 (Some 12) false] /\
  Forall2 (fun t t' => exists q, config_sample Examples.ex_cfg_half t = Some q /\
             sample_size t' = Some (Qfloor q) /\ full_name t' = full_name t /\
             table_size t' = Ok (tcount t * Qfloor q / 100))
          [Examples.ex_table8] [mkTable "public" "t" [] [] [] 8 (Some 12) false].
Proof.
  assert (H : load_config [Examples.ex_table8] Examples.ex_cfg_half =
                Ok [mkTable "public" "t" [] [] [] 8 (Some 12) false]) by (vm_compute; reflexivity).
  split; [exact H|exact (proj1 (load_config_sizes _ _) _ H)].
Defined.

(** C7 (counterexample): with a 12.5 percent override on a table of 8 rows
    the size is 0, whereas [floor(8 * 12.5 / 100)] is 1. *)
Lemma sample_size_truncated :
  match load_config [Examples.ex_table8] Examples.ex_cfg_half with
  | Ok [t] => table_size t = Ok 0 /\ Qfloor (8 * (25 # 2) / 100) = 1
  | _ => False
  end.
Proof. vm_compute; split; reflexivity. Qed.

End SampleSizes.

(** ** Termination of [create_temp_tables] on a cycle *)
Module CycleDetection.
Import Sampling Examples.

Section Cycle.
Variable src : string -> list Row.
Variable system_rows : Table -> Z -> list Row.
Variable pick_rows : Table -> list Row -> Z -> list Row.
Variable set_order : list Table -> list Table.
Hypothesis set_order_perm : forall l, Permutation l (set_order l).

Lemma set_order_single t : set_order [t] = [t].
Proof. apply Permutation_length_1_inv, set_order_perm. Qed.

Lemma pass_R : pass src system_rows pick_rows set_order ex_db6 st0 [ex_tR] [] = Ok (st0, [ex_tA]).
Proof. vm_compute; reflexivity. Qed.

Lemma pass_A : pass src system_rows pick_rows set_order ex_db6 st0 [ex_tA] [] = Ok (st0, [ex_tB]).
Proof. vm_compute; reflexivity. Qed.

Lemma pass_B : pass src system_rows pick_rows set_order ex_db6 st0 [ex_tB] [] = Ok (st0, [ex_tA]).
Proof. vm_compute; reflexivity. Qed.

Lemma ctt_loop_alternates fuel :
  ctt_loop src system_rows pick_rows set_order fuel ex_db6 st0 [ex_tA] = None /\
  ctt_loop src system_rows pick_rows set_order fuel ex_db6 st0 [ex_tB] = None.
Proof.
  induction fuel as [|f [IHA IHB]]; [split; reflexivity|].
  cbn [ctt_loop]; rewrite !set_order_single, pass_A, pass_B; split; exact IHB || exact IHA.
Qed.

End Cycle.

(** C6: on [r], [a], [b] above, every pass makes progress in the sense of
    the check ([{a}] is followed by [{b}] and [{b}] by [{a}]) although no
    table is ever processed: [create_temp_tables] neither returns nor
    reports a cycle, whatever the number of passes allowed and whatever the
    iteration order of the sets. *)
Theorem create_temp_tables_cycle_diverges src system_rows pick_rows set_order :
  (forall l, Permutation l (set_order l)) ->
  forall fuel, create_temp_tables src system_rows pick_rows set_order fuel ex_db6 = None.
Proof.
  intros Hp [|f]; [reflexivity|].
  unfold create_temp_tables.
  replace (filter (fun t => is_root ex_db6 t && negb (ignore t)) ex_db6) with [ex_tR]
    by (vm_compute; reflexivity).
  cbn [ctt_loop]; rewrite (set_order_single set_order Hp), (pass_R src system_rows pick_rows set_order).
  exact (proj1 (ctt_loop_alternates src system_rows pick_rows set_order Hp f)).
Qed.

(** The theorem with sets iterated in list order and 1000 passes. *)
Lemma create_temp_tables_cycle_diverges_witness :
  (forall l : list Table, Permutation l l) /\
  create_temp_tables (fun _ => []) (fun _ _ => []) (fun _ _ _ => []) (fun l => l) 1000 ex_db6 = None.
Proof.
  split; [exact (@Permutation_refl Table)|].
  exact (create_temp_tables_cycle_diverges (fun _ => []) (fun _ _ => []) (fun _ _ _ => []) (fun l => l)
           (@Permutation_refl Table) 1000).
Defined.

End CycleDetection.

(** ** C1: referential closure of the sampled target *)
Module ReferentialClosure.
Import Sampling SamplingHelpers SamplingExamples.

Lemma forallb_ext_in {A} (f g : A -> bool) l :
  (forall x, In x l -> f x = g x) -> forallb f l = forallb g l.
Proof.
  induction l as [|a l IH]; intro H; [reflexivity|]; cbn.
  rewrite H by (left; reflexivity); rewrite IH by (intros; apply H; right; assumption); reflexivity.
Qed.

Lemma get_proj t r c : get (proj t r) c = if is_gen t c then None else get r c.
Proof.
  induction r as [|[k v] r IH]; cbn.
  - destruct (is_gen t c); reflexivity.
  - unfold get in *; case_eq (is_gen t k); intro Hg; cbn.
    + destruct (String.eqb_spec k c) as [->|]; [rewrite Hg; rewrite Hg in IH|]; exact IH.
    + destruct (String.eqb_spec k c) as [->|]; cbn; [rewrite Hg; reflexivity|exact IH].
Qed.

Lemma holds_ref_proj fk t s :
  holds_ref fk (proj t s) = true ->
  holds_ref fk s = true /\ forall col, In col (column_names fk) -> get (proj t s) col = get s col.
Proof.
  unfold holds_ref; rewrite !forallb_forall; intro H.
  assert (E : forall col, In col (column_names fk) -> get (proj t s) col = get s col).
  { intros col Hc; specialize (H col Hc); rewrite get_proj in *.
    destruct (is_gen t col); [discriminate|reflexivity]. }
  split; [|exact E].
  intros col Hc; rewrite <- (E col Hc); exact (H col Hc).
Qed.

Lemma fk_matches_ext fk s s' r :
  (forall col, In col (column_names fk) -> get s col = get s' col) ->
  fk_matches fk s r = fk_matches fk s' r.
Proof.
  intro H; unfold fk_matches; apply forallb_ext_in.
  intros [a b] Hab; cbn; rewrite (H a (in_combine_l _ _ _ _ Hab)); reflexivity.
Qed.

Lemma fk_matches_proj_r fk s p r :
  (forall col, In col (foreign_column_names fk) -> is_gen p col = false) ->
  fk_matches fk s (proj p r) = fk_matches fk s r.
Proof.
  intro H; unfold fk_matches; apply forallb_ext_in.
  intros [a b] Hab; cbn; rewrite get_proj, (H b (in_combine_r _ _ _ _ Hab)); reflexivity.
Qed.

Lemma lookup_table_in db n p : lookup_table db n = Some p -> In p db /\ full_name p = n.
Proof.
  unfold lookup_table; intro H; destruct (find_some _ _ H) as [Hi He].
  split; [exact Hi|apply String.eqb_eq, He].
Qed.

Lemma lookup_table_full db p : NoDup (map full_name db) -> In p db -> lookup_table db (full_name p) = Some p.
Proof.
  induction db as [|a db IH]; intros Hnd Hin; [destruct Hin|].
  inversion Hnd as [|? ? Hna Hnd']; subst; cbn.
  destruct Hin as [->|Hin]; [rewrite String.eqb_refl; reflexivity|].
  destruct (String.eqb_spec (full_name a) (full_name p)) as [E|_]; [|exact (IH Hnd' Hin)].
  exfalso; apply Hna; rewrite E; apply in_map, Hin.
Qed.

Lemma name_inj db a b : NoDup (map full_name db) -> In a db -> In b db -> full_name a = full_name b -> a = b.
Proof.
  intros Hnd Ha Hb E.
  pose proof (lookup_table_full db a Hnd Ha) as La; pose proof (lookup_table_full db b Hnd Hb) as Lb.
  rewrite E, Lb in La; congruence.
Qed.

Lemma filter_length_one {A} (f : A -> bool) l a b :
  length (filter f l) = 1%nat -> In a (filter f l) -> In b (filter f l) -> a = b.
Proof.
  destruct (filter f l) as [|x [|y m]]; cbn; intros Hl Ha Hb; try discriminate.
  destruct Ha as [<- | []]; destruct Hb as [<- | []]; reflexivity.
Qed.

Lemma fks_ok_spec db c fk :
  fks_ok db = true -> In c db -> In fk (foreign_keys c) ->
  exists p, lookup_table db (foreign_full_name fk) = Some p /\ full_name p <> full_name c /\
    (forall col, In col (foreign_column_names fk) -> is_gen p col = false) /\
    (forall fk', In fk' (foreign_keys c) -> foreign_full_name fk' = foreign_full_name fk -> fk' = fk).
Proof.
  unfold fks_ok; rewrite forallb_forall; intros H Hc Hfk.
  specialize (H c Hc); rewrite forallb_forall in H; specialize (H fk Hfk).
  unfold ref_target_ok in H; destruct (lookup_table db (foreign_full_name fk)) as [p|]; [|discriminate].
  apply andb_prop in H as [H Hlen]; apply andb_prop in H as [Hn Hg].
  exists p; split; [reflexivity|]; split; [|split].
  - apply negb_true_iff, String.eqb_neq in Hn; exact Hn.
  - rewrite forallb_forall in Hg; intros col Hcol; apply negb_true_iff, Hg, Hcol.
  - intros fk' Hfk' E; apply Nat.eqb_eq in Hlen.
    apply (filter_length_one _ _ _ _ Hlen); apply filter_In; split; auto.
    + rewrite E; apply String.eqb_refl.
    + apply String.eqb_refl.
Qed.

Lemma fks_ok_no_self db c fk :
  fks_ok db = true -> In c db -> In fk (foreign_keys c) -> foreign_full_name fk <> full_name c.
Proof.
  intros H Hc Hfk; destruct (fks_ok_spec db c fk H Hc Hfk) as [p [Hl [Hn _]]].
  apply lookup_table_in in Hl as [_ E]; rewrite <- E; exact Hn.
Qed.

Lemma fk_closed_spec db rows c s fk :
  fk_closed db rows = true -> In c db -> In s (rows (full_name c)) -> In fk (foreign_keys c) ->
  holds_ref fk s = true ->
  exists p r, lookup_table db (foreign_full_name fk) = Some p /\ In r (rows (full_name p)) /\
    fk_matches fk s r = true.
Proof.
  unfold fk_closed; rewrite forallb_forall; intros H Hc Hs Hfk Hh.
  specialize (H c Hc); rewrite forallb_forall in H; specialize (H s Hs).
  rewrite forallb_forall in H; specialize (H fk Hfk); rewrite Hh in H; cbn in H.
  destruct (lookup_table db (foreign_full_name fk)) as [p|]; [|discriminate].
  apply existsb_exists in H as [r [Hr Hm]]; exists p, r; auto.
Qed.

Lemma fk_closed_intro db rows :
  (forall c s fk, In c db -> In s (rows (full_name c)) -> In fk (foreign_keys c) ->
     holds_ref fk s = true ->
     exists p r, lookup_table db (foreign_full_name fk) = Some p /\ In r (rows (full_name p)) /\
       fk_matches fk s r = true) ->
  fk_closed db rows = true.
Proof.
  intro H; unfold fk_closed; apply forallb_forall; intros c Hc.
  apply forallb_forall; intros s Hs; apply forallb_forall; intros fk Hfk.
  destruct (holds_ref fk s) eqn:Hh; [|reflexivity]; cbn.
  destruct (H c s fk Hc Hs Hfk Hh) as [p [r [Hl [Hr Hm]]]]; rewrite Hl.
  apply existsb_exists; exists r; auto.
Qed.

Lemma is_processed_finish st t rows x :
  is_processed (finish st t rows) x = String.eqb (full_name x) (full_name t) || is_processed st x.
Proof. reflexivity. Qed.

Lemma tmp_finish st t rows n :
  tmp (finish st t rows) n = if String.eqb n (full_name t) then rows else tmp st n.
Proof. reflexivity. Qed.

Lemma is_processed_same st a b : full_name a = full_name b -> is_processed st a = is_processed st b.
Proof. unfold is_processed; intros ->; reflexivity. Qed.

Lemma child_in db c p fk :
  In c db -> ignore c = false -> In fk (foreign_keys c) -> foreign_full_name fk = full_name p ->
  full_name c <> full_name p -> In c (child_tables_safe db p).
Proof.
  intros Hc Hi Hfk E Hn; unfold child_tables_safe; apply filter_In; split; [exact Hc|].
  rewrite Hi; apply andb_true_intro; split; [apply andb_true_intro; split|reflexivity].
  - apply existsb_exists; exists fk; split; [exact Hfk|]; rewrite E; apply String.eqb_refl.
  - apply negb_true_iff, String.eqb_neq, Hn.
Qed.

Lemma in_firstn {A} n (l : list A) x : In x (firstn n l) -> In x l.
Proof. intro H; rewrite <- (firstn_skipn n l); apply in_or_app; left; exact H. Qed.

Lemma in_union a b x : In x (union a b) -> In x a \/ In x b.
Proof.
  unfold union; revert a; induction b as [|y b IH]; intros a H; cbn in H; [left; exact H|].
  destruct (IH _ H) as [H1|H1]; [|right; right; exact H1].
  destruct (mem_table y a); [left; exact H1|].
  apply in_app_or in H1 as [H1|[<- | []]]; [left; exact H1|right; left; reflexivity].
Qed.

Lemma tables_ok_filter db l (f : Table -> bool) :
  tables_ok db l -> tables_ok db (filter f l).
Proof. intros H t Ht; apply filter_In in Ht as [Ht _]; exact (H t Ht). Qed.

Lemma tables_ok_children db t : tables_ok db (child_tables_safe db t).
Proof.
  intros c Hc; unfold child_tables_safe in Hc; apply filter_In in Hc as [Hc E].
  apply andb_prop in E as [_ E]; apply negb_true_iff in E; auto.
Qed.

Lemma tables_ok_parents db t : tables_ok db (parent_tables_safe db t).
Proof.
  intros c Hc; unfold parent_tables_safe in Hc; apply filter_In in Hc as [Hc E].
  apply andb_prop in E as [_ E]; apply negb_true_iff in E; auto.
Qed.

Section Closure.
Variable src : string -> list Row.
Variable system_rows : Table -> Z -> list Row.
Variable pick_rows : Table -> list Row -> Z -> list Row.
Variable set_order : list Table -> list Table.
Hypothesis system_rows_src : forall t n s, In s (system_rows t n) -> In s (src (full_name t)).
Hypothesis pick_rows_src : forall t cur n s, In s (pick_rows t cur n) -> In s (src (full_name t)).
Hypothesis set_order_perm : forall l, Permutation l (set_order l).
Variable db : list Table.
Hypothesis db_names : NoDup (map full_name db).
Hypothesis db_fks : fks_ok db = true.
Hypothesis src_closed : fk_closed db src = true.

Lemma processed_not_ignored st c :
  sinv src db st -> In c db -> is_processed st c = true -> ignore c = false.
Proof.
  intros [I1 _] Hc Hp; unfold is_processed in Hp; apply existsb_exists in Hp as [n [Hn E]].
  apply String.eqb_eq in E; subst n; destruct (I1 _ Hn) as [t [Ht [E Hi]]].
  rewrite <- (name_inj db t c db_names Ht Hc E); exact Hi.
Qed.

Lemma finish_inv st t rows :
  sinv src db st -> In t db -> ignore t = false -> is_processed st t = false ->
  (forall c, In c (child_tables_safe db t) -> is_processed st c = true) ->
  (forall s, In s rows -> exists s0, In s0 (src (full_name t)) /\ (s = s0 \/ s = proj t s0)) ->
  (forall c fk s, In c db -> is_processed st c = true -> In s (tmp st (full_name c)) ->
     In fk (foreign_keys c) -> foreign_full_name fk = full_name t -> holds_ref fk s = true ->
     exists r, In r rows /\ fk_matches fk s r = true) ->
  sinv src db (finish st t rows).
Proof.
  intros Hinv Ht Hti Htp Hch Hrows Hcov.
  destruct Hinv as [I1 [I2 [I3 I4]]]; split; [|split; [|split]].
  - intros n [<-|Hn]; [exists t; auto|exact (I1 n Hn)].
  - intros c s Hc Hs; rewrite tmp_finish in Hs.
    destruct (String.eqb_spec (full_name c) (full_name t)) as [E|_]; [|exact (I2 c s Hc Hs)].
    rewrite (name_inj db c t db_names Hc Ht E); exact (Hrows s Hs).
  - intros p c Hp Hpp Hc; rewrite is_processed_finish in *.
    destruct (String.eqb_spec (full_name p) (full_name t)) as [E|_]; cbn in Hpp.
    + rewrite (name_inj db p t db_names Hp Ht E) in Hc; rewrite (Hch c Hc); apply orb_true_r.
    + rewrite (I3 p c Hp Hpp Hc); apply orb_true_r.
  - intros c p fk s Hc Hp Hcp Hpp Hs Hfk E Hh; rewrite is_processed_finish in Hcp, Hpp.
    rewrite !tmp_finish in *.
    destruct (String.eqb_spec (full_name c) (full_name t)) as [Ec|Nc]; cbn in Hcp.
    + exfalso; pose proof (name_inj db c t db_names Hc Ht Ec); subst c.
      pose proof (fks_ok_no_self db t fk db_fks Ht Hfk) as Hns.
      destruct (String.eqb_spec (full_name p) (full_name t)) as [Ep|Np]; [congruence|].
      cbn in Hpp.
      assert (Hin : In t (child_tables_safe db p)) by (apply (child_in db t p fk); auto).
      rewrite (I3 p t Hp Hpp Hin) in Htp; discriminate.
    + destruct (String.eqb_spec (full_name p) (full_name t)) as [Ep|Np]; cbn in Hpp.
      * rewrite (name_inj db p t db_names Hp Ht Ep) in E.
        apply (Hcov c fk s Hc Hcp Hs Hfk E Hh).
      * exact (I4 c p fk s Hc Hp Hcp Hpp Hs Hfk E Hh).
Qed.

Lemma child_rows_cover st t c fk s :
  sinv src db st -> In t db -> In c db -> In s (tmp st (full_name c)) -> In fk (foreign_keys c) ->
  foreign_full_name fk = full_name t -> holds_ref fk s = true ->
  exists r, In r (child_fk_rows src st t c) /\ fk_matches fk s r = true.
Proof.
  intros [_ [I2 _]] Ht Hc Hs Hfk E Hh.
  destruct (I2 c s Hc Hs) as [s0 [Hs0 Hss]].
  assert (Hag : holds_ref fk s0 = true /\ forall col, In col (column_names fk) -> get s col = get s0 col).
  { destruct Hss as [-> | ->]; [split; auto|exact (holds_ref_proj fk c s0 Hh)]. }
  destruct Hag as [Hh0 Hag].
  destruct (fk_closed_spec db src c s0 fk src_closed Hc Hs0 Hfk Hh0) as [p [r0 [Hl [Hr0 Hm]]]].
  destruct (fks_ok_spec db c fk db_fks Hc Hfk) as [p' [Hl' [_ [Hgen Huniq]]]].
  rewrite Hl in Hl'; injection Hl' as <-.
  apply lookup_table_in in Hl as [Hp Ep]; rewrite E in Ep.
  rewrite (name_inj db p t db_names Hp Ht Ep) in Hr0, Hgen.
  rewrite <- (fk_matches_ext fk s s0 r0 Hag) in Hm.
  exists (proj t r0); split.
  - unfold child_fk_rows; apply in_map, filter_In; split; [exact Hr0|].
    apply forallb_forall; intros fk' Hfk'.
    destruct (String.eqb_spec (foreign_full_name fk') (full_name t)) as [E'|]; [|reflexivity].
    rewrite (Huniq fk' Hfk' (eq_trans E' (eq_sym E))); cbn.
    apply existsb_exists; exists s; auto.
  - rewrite fk_matches_proj_r; auto.
Qed.

Lemma insert_node_table_spec st t size rows :
  insert_node_table src pick_rows set_order db st t size = Ok rows ->
  (forall x, In x (concat (map (child_fk_rows src st t) (set_order (child_tables_safe db t)))) ->
     In x rows) /\
  (forall x, In x rows -> exists s0, In s0 (src (full_name t)) /\ x = proj t s0).
Proof.
  intro H.
  assert (Hc : forall x, In x (concat (map (child_fk_rows src st t) (set_order (child_tables_safe db t)))) ->
     exists s0, In s0 (src (full_name t)) /\ x = proj t s0).
  { intros x Hx; apply in_concat in Hx as [l [Hl Hx]]; apply in_map_iff in Hl as [c [<- _]].
    unfold child_fk_rows in Hx; apply in_map_iff in Hx as [s0 [<- Hs0]].
    apply filter_In in Hs0 as [Hs0 _]; exists s0; auto. }
  unfold insert_node_table in H.
  destruct (_ <? _)%Z.
  - unfold insert_data in H; destruct (primary_keys t) as [|k [|k' ks]]; cbn in H;
      try discriminate; injection H as <-;
      (split; [intros x Hx; apply in_or_app; left; exact Hx|]);
      intros x Hx; (apply in_app_or in Hx as [Hx|Hx]; [exact (Hc x Hx)|]);
      apply in_map_iff in Hx as [s0 [<- Hs0]]; exists s0; split; eauto.
  - injection H as <-; split; [auto|exact Hc].
Qed.

Lemma process_table_inv st t st' ret :
  sinv src db st -> In t db -> ignore t = false ->
  process_table src system_rows pick_rows set_order db st t = Ok (st', ret) ->
  sinv src db st' /\ tables_ok db ret.
Proof.
  intros Hinv Ht Hti H; unfold process_table in H.
  destruct (is_processed st t) eqn:Htp; [discriminate|].
  destruct (table_size t) as [size|e]; cbn in H; [|discriminate].
  destruct (is_leaf db t) eqn:Hl.
  - injection H as <- <-; split; [|apply tables_ok_filter, tables_ok_parents].
    assert (Hnc : child_tables_safe db t = []).
    { unfold is_leaf in Hl; destruct (child_tables_safe db t); [reflexivity|discriminate]. }
    apply finish_inv; auto.
    + rewrite Hnc; intros c [].
    + intros s Hs; exists s; split; [exact (system_rows_src t size s Hs)|left; reflexivity].
    + intros c fk s Hc Hcp Hs Hfk E Hh; exfalso.
      assert (Nc : full_name c <> full_name t)
        by (intro E'; rewrite (is_processed_same st c t E'), Htp in Hcp; discriminate).
      assert (Hin : In c (child_tables_safe db t))
        by (apply (child_in db c t fk); eauto using processed_not_ignored).
      rewrite Hnc in Hin; destruct Hin.
  - destruct (forallb (is_processed st) (child_tables_safe db t)) eqn:Hall.
    + destruct (insert_node_table src pick_rows set_order db st t size) as [rows|e] eqn:Hn;
        cbn in H; [|discriminate].
      injection H as <- <-; split; [|apply tables_ok_filter, tables_ok_parents].
      destruct (insert_node_table_spec st t size rows Hn) as [Hsub Hsrc].
      rewrite forallb_forall in Hall.
      apply finish_inv; auto.
      * intros s Hs; destruct (Hsrc s Hs) as [s0 [Hs0 ->]]; exists s0; auto.
      * intros c fk s Hc Hcp Hs Hfk E Hh.
        assert (Nc : full_name c <> full_name t)
          by (intro E'; rewrite (is_processed_same st c t E'), Htp in Hcp; discriminate).
        assert (Hin : In c (child_tables_safe db t))
          by (apply (child_in db c t fk); eauto using processed_not_ignored).
        destruct (child_rows_cover st t c fk s Hinv Ht Hc Hs Hfk E Hh) as [r [Hr Hm]].
        exists r; split; [|exact Hm]; apply Hsub, in_concat.
        exists (child_fk_rows src st t c); split; [|exact Hr].
        apply in_map, (Permutation_in _ (set_order_perm _) Hin).
    + injection H as <- <-; split; [exact Hinv|apply tables_ok_filter, tables_ok_children].
Qed.

Lemma pass_inv ts : forall st acc st' acc',
  sinv src db st -> tables_ok db ts -> tables_ok db acc ->
  pass src system_rows pick_rows set_order db st ts acc = Ok (st', acc') ->
  sinv src db st' /\ tables_ok db acc'.
Proof.
  induction ts as [|t ts IH]; intros st acc st' acc' Hinv Hts Hacc H; cbn [pass] in H.
  - injection H as <- <-; auto.
  - assert (Hts' : tables_ok db ts) by (intros x Hx; apply Hts; right; exact Hx).
    destruct (is_processed st t); [exact (IH _ _ _ _ Hinv Hts' Hacc H)|].
    destruct (process_table src system_rows pick_rows set_order db st t) as [[st1 ret]|e] eqn:Hp;
      cbn [bind] in H; [|discriminate].
    destruct (Hts t (or_introl eq_refl)) as [Ht Hti].
    destruct (process_table_inv st t st1 ret Hinv Ht Hti Hp) as [Hinv1 Hret].
    apply (IH st1 (union acc ret) st' acc' Hinv1 Hts'); [|exact H].
    intros x Hx; destruct (in_union _ _ _ Hx); auto.
Qed.

Lemma ctt_loop_inv fuel : forall st ts st',
  sinv src db st -> tables_ok db ts ->
  ctt_loop src system_rows pick_rows set_order fuel db st ts = Some (Ok st') -> sinv src db st'.
Proof.
  induction fuel as [|f IH]; intros st ts st' Hinv Hts H; cbn [ctt_loop] in H; [discriminate|].
  destruct ts as [|t ts']; [injection H as <-; exact Hinv|].
  destruct (pass src system_rows pick_rows set_order db st (set_order (t :: ts')) [])
    as [[st1 parents]|e] eqn:Hp; [|discriminate].
  destruct (set_eq (t :: ts') parents); [discriminate|].
  assert (Hso : tables_ok db (set_order (t :: ts'))).
  { intros x Hx; apply Hts, (Permutation_in _ (Permutation_sym (set_order_perm _)) Hx). }
  destruct (pass_inv _ _ _ _ _ Hinv Hso (fun x (Hx : In x []) => match Hx with end) Hp) as [H1 H2].
  exact (IH _ _ _ H1 H2 H).
Qed.

Lemma sinv_st0 : sinv src db st0.
Proof.
  split; [intros n []|split; [intros c s _ []|split; [intros p c _ Hp; discriminate|]]].
  intros c p fk s _ _ Hc; discriminate.
Qed.

Lemma create_temp_tables_inv fuel st :
  create_temp_tables src system_rows pick_rows set_order fuel db = Some (Ok st) -> sinv src db st.
Proof.
  unfold create_temp_tables; intro H.
  destruct (filter (fun t => is_root db t && negb (ignore t)) db) as [|r rs] eqn:Hr; [discriminate|].
  apply (ctt_loop_inv fuel st0 (r :: rs) st sinv_st0); [|exact H].
  rewrite <- Hr; intros x Hx; apply filter_In in Hx as [Hx E].
  apply andb_prop in E as [_ E]; apply negb_true_iff in E; auto.
Qed.

Lemma sample_database_closed fuel tgt :
  sample_database src system_rows pick_rows set_order fuel db = Some (Ok tgt) -> fk_closed db tgt = true.
Proof.
  unfold sample_database; intro H.
  destruct (create_temp_tables src system_rows pick_rows set_order fuel db) as [[st|e]|] eqn:Hc;
    try discriminate.
  destruct (forallb (is_processed st) db) eqn:Hall; [|discriminate].
  injection H as <-; rewrite forallb_forall in Hall.
  pose proof (create_temp_tables_inv fuel st Hc) as Hinv.
  apply fk_closed_intro; intros c s fk Hc' Hs Hfk Hh.
  rewrite (lookup_table_full db c db_names Hc') in Hs.
  apply in_map_iff in Hs as [s1 [<- Hs1]].
  destruct (holds_ref_proj fk c s1 Hh) as [Hh1 Hag].
  destruct (fks_ok_spec db c fk db_fks Hc' Hfk) as [p [Hl [_ [Hgen _]]]].
  destruct (lookup_table_in db _ p Hl) as [Hp Ep].
  destruct Hinv as [_ [_ [_ I4]]].
  destruct (I4 c p fk s1 Hc' Hp (Hall c Hc') (Hall p Hp) Hs1 Hfk (eq_sym Ep) Hh1) as [r [Hr Hm]].
  exists p, (proj p r); split; [exact Hl|split].
  - rewrite (lookup_table_full db p db_names Hp); apply in_map, Hr.
  - rewrite fk_matches_proj_r by exact Hgen; rewrite (fk_matches_ext fk _ s1 r Hag); exact Hm.
Qed.

End Closure.

Lemma firstn_rows_src src t n s : In s (firstn_rows src t n) -> In s (src (full_name t)).
Proof. apply in_firstn. Qed.

Lemma pick_unseen_src src t cur n s : In s (pick_unseen src t cur n) -> In s (src (full_name t)).
Proof. intro H; apply in_firstn, filter_In in H as [H _]; exact H. Qed.

(** X17: when the source database is closed under its foreign keys, the
    samplers return source rows, the tables have distinct names, and every
    foreign key references another table of the database, through columns
    that are not generated, and is the only foreign key of its table to that
    table, a successful [sample_database] gives a target closed under the
    foreign keys: every reference a copied row holds is matched by a copied
    row of the referenced table. *)
Theorem sample_database_fk_closed src system_rows pick_rows set_order db fuel tgt :
  (forall t n s, In s (system_rows t n) -> In s (src (full_name t))) ->
  (forall t cur n s, In s (pick_rows t cur n) -> In s (src (full_name t))) ->
  (forall l, Permutation l (set_order l)) ->
  NoDup (map full_name db) -> fks_ok db = true -> fk_closed db src = true ->
  sample_database src system_rows pick_rows set_order fuel db = Some (Ok tgt) ->
  fk_closed db tgt = true.
Proof. intros; eapply sample_database_closed; eauto. Qed.

(** The theorem on [users] and [posts] with a single foreign key. *)
Lemma sample_database_fk_closed_witness :
  sample_database ex_blog_src (firstn_rows ex_blog_src) (pick_unseen ex_blog_src) (fun l => l) 10 ex_blog
    = Some (Ok ex_blog_target) /\
  ex_blog_target "public.users" = [ex_u1] /\ ex_blog_target "public.posts" = [ex_p1] /\
  fk_closed ex_blog ex_blog_target = true.
Proof.
  split; [vm_compute; reflexivity|]; split; [vm_compute; reflexivity|]; split; [vm_compute; reflexivity|].
  apply (sample_database_fk_closed ex_blog_src (firstn_rows ex_blog_src) (pick_unseen ex_blog_src)
           (fun l => l) ex_blog 10 ex_blog_target).
  - apply firstn_rows_src.
  - apply pick_unseen_src.
  - intro l; apply Permutation_refl.
  - repeat constructor; cbn; intuition discriminate.
  - vm_compute; reflexivity.
  - vm_compute; reflexivity.
  - vm_compute; reflexivity.
Defined.

(** C1 (code bug): [get_insert_child_fk_data_query] adds one inner join
    per foreign key of the child to the parent, so with two foreign keys
    [posts.author_id] and [posts.editor_id] to [users], [users] receives
    only the rows that an [author_id] and an [editor_id] of sampled posts
    both reference, none here, then one unseen row.  The source is closed
    under its foreign keys, sampling succeeds, and the copied post's
    [editor_id] references a user that is not copied. *)
Theorem sample_database_double_fk_dangling :
  fks_ok ex_blog2 = false /\ fk_closed ex_blog2 ex_blog_src = true /\
  sample_database ex_blog_src (firstn_rows ex_blog_src) (pick_unseen ex_blog_src) (fun l => l) 10 ex_blog2
    = Some (Ok ex_blog2_target) /\
  ex_blog2_target "public.users" = [ex_u1] /\ ex_blog2_target "public.posts" = [ex_p1] /\
  fk_closed ex_blog2 ex_blog2_target = false.
Proof. repeat split; vm_compute; reflexivity. Qed.

(** [emp] referencing itself: it is a root with no children (the link to
    itself is left out), filled with unseen rows whose managers need not
    be copied. *)
Lemma sample_database_self_fk_dangling :
  fk_closed [ex_emp] ex_emp_src = true /\
  sample_database ex_emp_src (firstn_rows ex_emp_src) (pick_unseen ex_emp_src) (fun l => l) 10 [ex_emp]
    = Some (Ok ex_emp_target) /\
  ex_emp_target "public.emp" = [ex_e1] /\ fk_closed [ex_emp] ex_emp_target = false.
Proof. repeat split; vm_compute; reflexivity. Qed.

End ReferentialClosure.

(** ** The ledger commands: rollback and migrate down *)
Module LedgerFacts.
Import Files Helpers MigrationOps FilesFacts.
Local Open Scope Z_scope.

Lemma insert_rows_ok exec row files ledger l :
  insert_rows exec row files ledger = Ok l ->
  l = app ledger (map row files) /\ Forall (fun f => exec f = true) files.
Proof.
  revert ledger; induction files as [|f fs IH]; intros ledger H; cbn in H.
  - injection H as <-; rewrite app_nil_r; split; [reflexivity|constructor].
  - destruct (exec f) eqn:E; [|discriminate].
    destruct (IH _ H) as [-> Hf]; rewrite <- app_assoc; split; [reflexivity|constructor; auto].
Qed.

Lemma iter_downs files pairs :
  iter_migration_files files = Ok pairs -> map snd pairs = filter is_down files.
Proof.
  unfold iter_migration_files; intros H; apply map_result_ok in H.
  rewrite <- (concat_groupby files), filter_concat.
  induction H as [|g [u d] gs ps Hg _ IH]; simpl; [reflexivity|].
  rewrite IH; apply pair_of_group_ok in Hg as [_ ->]; reflexivity.
Qed.

Lemma get_files_sorted fs up files : get_files fs up = Ok files -> StronglySorted key_rel files.
Proof.
  unfold get_files; destruct (map_result _ _) as [l|e]; cbn; intro H; [|discriminate].
  injection H as <-; apply sort_mf_strongly.
Qed.

Lemma strongly_snoc {A} (R : A -> A -> Prop) l a :
  StronglySorted R l -> Forall (fun x => R x a) l -> StronglySorted R (app l [a]).
Proof.
  induction l as [|x t IH]; intros H Hf; cbn; [repeat constructor|].
  inversion H as [|? ? Ht Hx]; inversion Hf as [|? ? Hxa Hta]; subst.
  constructor; [exact (IH Ht Hta)|apply Forall_app; split; [exact Hx|constructor; [exact Hxa|constructor]]].
Qed.

Lemma strongly_rev {A} (R : A -> A -> Prop) l :
  StronglySorted R l -> StronglySorted (fun a b => R b a) (rev l).
Proof.
  induction l as [|x t IH]; intros H; cbn; [constructor|].
  inversion H as [|? ? Ht Hx]; subst; apply strongly_snoc; [exact (IH Ht)|].
  apply Forall_forall; intros y Hy; apply in_rev in Hy; rewrite Forall_forall in Hx; exact (Hx y Hy).
Qed.

Lemma strongly_app_l {A} (R : A -> A -> Prop) l1 l2 :
  StronglySorted R (app l1 l2) -> StronglySorted R l1.
Proof.
  induction l1 as [|x t IH]; intros H; cbn in H; [constructor|].
  inversion H as [|? ? Ht Hx]; subst; constructor; [exact (IH Ht)|].
  apply Forall_app in Hx as [Hx _]; exact Hx.
Qed.

Lemma firstn_in_l {A} n (l : list A) x : In x (firstn n l) -> In x l.
Proof. intro H; rewrite <- (firstn_skipn n l); apply in_or_app; left; exact H. Qed.

Lemma take_through_spec m l r :
  take_through m l = Ok r ->
  exists l0 x rest, r = app l0 [x] /\ l = app r rest /\ file_id x = m /\ Forall (fun f => file_id f <> m) l0.
Proof.
  revert r; induction l as [|y t IH]; intros r H; cbn in H; [discriminate|].
  destruct (String.eqb_spec (file_id y) m) as [E|N].
  - injection H as <-; exists [], y, t; repeat split; auto.
  - destruct (take_through m t) as [r'|e] eqn:Ht; cbn in H; [|discriminate].
    injection H as <-; destruct (IH r' eq_refl) as (l0 & x & rest & -> & -> & Ex & Hl0).
    exists (y :: l0), x, rest; repeat split; auto.
Qed.

(** The down files [get_rollback_files] chooses from, newest first. *)
Lemma rollback_base ledger fs files pairs :
  get_files fs false = Ok files -> iter_migration_files files = Ok pairs ->
  let rb := rev (filter (fun d => mem_str (file_id d) (applied_migration_ids ledger)) (map snd pairs)) in
  StronglySorted (fun a b => key_rel b a) rb /\
  Forall (fun f => In f files /\ is_down f = true /\ In (file_id f) (applied_migration_ids ledger)) rb.
Proof.
  intros Hf Hp rb; subst rb; rewrite (iter_downs files pairs Hp).
  split.
  - apply strongly_rev, strongly_filter, strongly_filter, (get_files_sorted fs false files Hf).
  - apply Forall_forall; intros f Hin; apply in_rev in Hin.
    apply filter_In in Hin as [Hin Hm]; apply filter_In in Hin as [Hin Hd].
    repeat split; auto.
    unfold mem_str in Hm; apply existsb_exists in Hm as [x [Hx E]].
    apply String.eqb_eq in E; rewrite E; exact Hx.
Qed.

Lemma rollback_props ledger fs nb mid l :
  get_rollback_files ledger fs nb mid = Ok l ->
  exists files, get_files fs false = Ok files /\
    StronglySorted (fun a b => key_rel b a) l /\
    Forall (fun f => In f files /\ is_down f = true /\ In (file_id f) (applied_migration_ids ledger)) l /\
    (mid = None -> 0 < nb -> (length l <= Z.to_nat nb)%nat).
Proof.
  unfold get_rollback_files; intro H.
  destruct (match mid with Some _ => 0 <=? nb | None => false end); [discriminate|].
  destruct (get_files fs false) as [files|e] eqn:Hf; cbn in H; [|discriminate].
  destruct (iter_migration_files files) as [pairs|e] eqn:Hp; cbn in H; [|discriminate].
  destruct (rollback_base ledger fs files pairs Hf Hp) as [Hs Hall].
  set (rb := rev _) in *; exists files; split; [reflexivity|].
  destruct mid as [m|].
  - destruct (take_through_spec m rb l H) as (l0 & x & rest & _ & Erb & _ & _).
    rewrite Erb in Hs, Hall; apply Forall_app in Hall as [Hall _].
    split; [exact (strongly_app_l _ _ _ Hs)|split; [exact Hall|discriminate]].
  - injection H as <-; destruct (0 <? nb) eqn:Hnb.
    + split; [apply strongly_firstn, Hs|split].
      * apply Forall_forall; intros f Hin; apply firstn_in_l in Hin; rewrite Forall_forall in Hall; auto.
      * intros _ _; apply firstn_le_length.
    + split; [exact Hs|split; [exact Hall|intros _ Hlt; apply Z.ltb_ge in Hnb; lia]].
Qed.

Lemma down_not_applied ledger d :
  In d ledger -> l_migration_type d = "down" -> ~ In (l_file_id d) (applied_migration_ids ledger).
Proof.
  intros Hd Ht Hin; unfold applied_migration_ids in Hin.
  apply in_map_iff in Hin as [r [E Hr]]; apply filter_In in Hr as [_ Hu].
  unfold unreverted in Hu; apply andb_prop in Hu as [_ Hu].
  apply negb_true_iff, not_true_iff_false in Hu; apply Hu, existsb_exists.
  exists d; split; [exact Hd|]; rewrite Ht, E, !String.eqb_refl; reflexivity.
Qed.

Lemma applied_app_down ledger extra d :
  In d ledger -> l_migration_type d = "down" ->
  ~ In (l_file_id d) (applied_migration_ids (app ledger extra)).
Proof. intros Hd Ht; apply down_not_applied; [apply in_or_app; left; exact Hd|exact Ht]. Qed.

(** X1: [get_rollback_files] returns down files of the folder, newest first,
    each of a migration that is applied and not rolled back; without
    [migration_id] and with a positive [nb_migrations], at most that many. *)
Theorem get_rollback_files_spec ledger fs nb mid l :
  get_rollback_files ledger fs nb mid = Ok l ->
  exists files, get_files fs false = Ok files /\
    StronglySorted (fun a b => key_rel b a) l /\
    Forall (fun f => In f files /\ is_down f = true /\ In (file_id f) (applied_migration_ids ledger)) l /\
    (mid = None -> 0 < nb -> (length l <= Z.to_nat nb)%nat).
Proof. exact (rollback_props ledger fs nb mid l). Qed.

(** X2: with a [migration_id], [get_rollback_files] needs a negative
    [nb_migrations] and returns the newest applied migrations down to the
    first file of that id, a prefix of the full list. *)
Theorem get_rollback_files_through ledger fs nb m l :
  get_rollback_files ledger fs nb (Some m) = Ok l ->
  nb < 0 /\ exists l0 x rest, l = app l0 [x] /\ file_id x = m /\ Forall (fun f => file_id f <> m) l0 /\
    get_rollback_files ledger fs nb None = Ok (app l rest).
Proof.
  unfold get_rollback_files; intro H.
  destruct (0 <=? nb) eqn:Hnb; [discriminate|]; apply Z.leb_gt in Hnb; split; [exact Hnb|].
  destruct (get_files fs false) as [files|e]; cbn in H |- *; [|discriminate].
  destruct (iter_migration_files files) as [pairs|e]; cbn in H |- *; [|discriminate].
  destruct (take_through_spec m _ l H) as (l0 & x & rest & El & Erb & Ex & Hl0).
  exists l0, x, rest; repeat split; auto.
  replace (0 <? nb) with false by (symmetry; apply Z.ltb_ge; lia); rewrite Erb; reflexivity.
Qed.

(** X3: [migrate_down] adds one [down] row per file [get_rollback_files]
    chose, after which none of these migrations counts as applied. *)
Theorem migrate_down_rolls_back exec now ledger fs nb mid ledger' :
  migrate_down exec now ledger fs nb mid = Ok (ledger', true) ->
  exists l, get_rollback_files ledger fs (or_minus_one nb) mid = Ok l /\ l <> [] /\
    ledger' = app ledger (map (down_row now) l) /\
    forall f, In f l -> ~ In (file_id f) (applied_migration_ids ledger').
Proof.
  unfold migrate_down; intro H.
  destruct (get_rollback_files ledger fs (or_minus_one nb) mid) as [l|e]; cbn in H; [|discriminate].
  destruct l as [|f0 l0]; [discriminate|].
  destruct (insert_rows exec (down_row now) (f0 :: l0) ledger) as [l'|e] eqn:Hi; cbn in H; [|discriminate].
  injection H as <-; destruct (insert_rows_ok _ _ _ _ _ Hi) as [-> _].
  exists (f0 :: l0); split; [reflexivity|split; [discriminate|split; [reflexivity|]]].
  intros f Hf; apply (down_not_applied _ (down_row now f)); [|reflexivity].
  apply in_or_app; right; apply in_map, Hf.
Qed.

(** X4: once the ledger holds a [down] row for a file id, whatever rows are
    added later (a new [up] row included), that id is never applied again:
    [get_rollback_files] never returns it and the latest-migration query
    never selects it. *)
Theorem rolled_back_stays_reverted ledger d extra :
  In d ledger -> l_migration_type d = "down" ->
  ~ In (l_file_id d) (applied_migration_ids (app ledger extra)) /\
  (forall r, latest_query (app ledger extra) (Some r) -> l_file_id r <> l_file_id d) /\
  (forall fs nb mid l, get_rollback_files (app ledger extra) fs nb mid = Ok l ->
     Forall (fun f => file_id f <> l_file_id d) l).
Proof.
  intros Hd Ht; pose proof (applied_app_down ledger extra d Hd Ht) as Hn.
  split; [exact Hn|split].
  - intros r [Hr [Hu _]] E; apply Hn; rewrite <- E.
    unfold applied_migration_ids; apply in_map, filter_In; auto.
  - intros fs nb mid l Hl; destruct (rollback_props _ fs nb mid l Hl) as (files & _ & _ & Hall & _).
    apply Forall_forall; intros f Hf E; rewrite Forall_forall in Hall.
    destruct (Hall f Hf) as (_ & _ & Ha); rewrite E in Ha; exact (Hn Ha).
Qed.

(** X5: with no [migration_id] and [nb_migrations] absent or [0],
    [migrate_down] rolls back every applied migration of the folder. *)
Theorem migrate_down_all exec now ledger fs nb ledger' b :
  nb = None \/ nb = Some 0 ->
  migrate_down exec now ledger fs nb None = Ok (ledger', b) ->
  forall files pairs u d, get_files fs false = Ok files -> iter_migration_files files = Ok pairs ->
  In (u, d) pairs -> In (file_id d) (applied_migration_ids ledger) -> In (down_row now d) ledger'.
Proof.
  intros Hnb H files pairs u d Hf Hp Hin Ha.
  assert (E1 : or_minus_one nb = -1) by (destruct Hnb as [-> | ->]; reflexivity).
  unfold migrate_down, get_rollback_files in H; rewrite E1, Hf in H; cbn in H; rewrite Hp in H; cbn in H.
  assert (Hd : In d (rev (filter (fun d => mem_str (file_id d) (applied_migration_ids ledger)) (map snd pairs)))).
  { apply (proj1 (in_rev _ _)), filter_In; split; [apply (in_map snd _ (u, d)), Hin|].
    unfold mem_str; apply existsb_exists; exists (file_id d); split; [exact Ha|apply String.eqb_refl]. }
  destruct (rev _) as [|f0 l0] eqn:Erb; [destruct Hd|].
  destruct (insert_rows exec (down_row now) (f0 :: l0) ledger) as [l'|e] eqn:Hi; cbn in H; [|discriminate].
  injection H as <- _; destruct (insert_rows_ok _ _ _ _ _ Hi) as [-> _].
  apply in_or_app; right; apply in_map, Hd.
Qed.
End LedgerFacts.

(** ** Missing migrations, [verify_migrations] and [migrate_up] *)
Module MissingFacts.
Import Files FilesFacts MigrationOps LedgerFacts.

Lemma mem_str_iff x l : mem_str x l = true <-> In x l.
Proof.
  unfold mem_str; rewrite existsb_exists; split.
  - intros [y [Hy E]]; apply String.eqb_eq in E; subst; exact Hy.
  - intros H; exists x; split; [exact H|apply String.eqb_refl].
Qed.

Lemma up_ids_in_chunk ledger chunk f :
  In f chunk ->
  mem_str (file_id f) (up_ids_in ledger chunk) =
  mem_str (file_id f) (map l_file_id (filter (fun r => String.eqb (l_migration_type r) "up") ledger)).
Proof.
  intros Hf; apply eq_true_iff_eq; rewrite !mem_str_iff; unfold up_ids_in.
  rewrite !in_map_iff; split; intros [r [E Hr]]; exists r; split; auto;
    apply filter_In in Hr as [Hr Hc]; apply filter_In; split; auto.
  - apply andb_prop in Hc as [Hc _]; exact Hc.
  - rewrite Hc; cbn; apply mem_str_iff, in_map_iff; exists f; auto.
Qed.

Section Missing.
Variable chunks : list MigrationFile -> list (list MigrationFile).
Hypothesis chunks_concat : forall l, concat (chunks l) = l.

Lemma missing_eq ledger fs :
  get_missing_migrations chunks ledger fs =
  (files <- get_files fs true ;;
   Ok (filter (fun f => negb (mem_str (file_id f)
         (map l_file_id (filter (fun r => String.eqb (l_migration_type r) "up") ledger)))) files)).
Proof.
  unfold get_missing_migrations; destruct (get_files fs true) as [files|e]; cbn; [|reflexivity].
  f_equal; rewrite <- (chunks_concat files) at 2; rewrite filter_concat.
  induction (chunks files) as [|c cs IH]; cbn; [reflexivity|]; rewrite IH; f_equal.
  apply filter_ext_in; intros f Hf; rewrite up_ids_in_chunk; auto.
Qed.

(** X6: [get_missing_migrations] does not depend on the chunking: it returns
    the up files of the folder, in order, whose id has no [up] row in the
    ledger; a rolled-back migration (its [up] row is kept) is not missing. *)
Theorem get_missing_migrations_spec ledger fs :
  get_missing_migrations chunks ledger fs =
  (files <- get_files fs true ;;
   Ok (filter (fun f => negb (mem_str (file_id f)
         (map l_file_id (filter (fun r => String.eqb (l_migration_type r) "up") ledger)))) files)).
Proof. exact (missing_eq ledger fs). Qed.

Lemma filter_all_false {A} (p : A -> bool) l :
  (forall x, In x l -> p x = false) -> filter p l = [].
Proof.
  induction l as [|x t IH]; intros H; cbn; [reflexivity|].
  rewrite (H x (or_introl eq_refl)); apply IH; intros y Hy; apply H; right; exact Hy.
Qed.

Lemma missing_none_if ledger fs files :
  get_files fs true = Ok files ->
  (forall f, In f files -> exists r, In r ledger /\ l_migration_type r = "up" /\ l_file_id r = file_id f) ->
  get_missing_migrations chunks ledger fs = Ok [].
Proof.
  intros Hf Hall; rewrite missing_eq, Hf; cbn; f_equal.
  apply filter_all_false; intros f Hin; apply negb_false_iff, mem_str_iff, in_map_iff.
  destruct (Hall f Hin) as (r & Hr & Ht & Hi); exists r; split; [exact Hi|].
  apply filter_In; split; [exact Hr|rewrite Ht; reflexivity].
Qed.

Lemma missing_in ledger fs m f :
  get_missing_migrations chunks ledger fs = Ok m -> In f m ->
  exists files, get_files fs true = Ok files /\ In f files /\
  forall r, In r ledger -> l_migration_type r = "up" -> l_file_id r <> file_id f.
Proof.
  rewrite missing_eq; destruct (get_files fs true) as [files|e]; cbn; intros H Hf; [|discriminate].
  injection H as <-; apply filter_In in Hf as [Hf Hn]; exists files; split; [reflexivity|split; [exact Hf|]].
  intros r Hr Ht E; apply negb_true_iff, not_true_iff_false in Hn; apply Hn, mem_str_iff, in_map_iff.
  exists r; split; [exact E|apply filter_In; split; [exact Hr|rewrite Ht; reflexivity]].
Qed.

(** X7: after a successful [verify_migrations], no migration of the folder
    is missing any more. *)
Theorem verify_migrations_complete exec now ledger fs ledger' :
  verify_migrations chunks exec now ledger fs = Ok ledger' ->
  get_missing_migrations chunks ledger' fs = Ok [].
Proof.
  unfold verify_migrations; intro H.
  destruct (get_missing_migrations chunks ledger fs) as [m|e] eqn:Hm; cbn in H; [|discriminate].
  assert (Hfiles : exists files, get_files fs true = Ok files).
  { rewrite missing_eq in Hm; destruct (get_files fs true) as [files|e]; [exists files; reflexivity|discriminate]. }
  destruct Hfiles as [files Hf]; apply (missing_none_if _ _ files Hf).
  assert (Hl : ledger' = app ledger (map (up_row now) m)).
  { destruct m as [|g gs]; [injection H as <-; rewrite app_nil_r; reflexivity|].
    exact (proj1 (insert_rows_ok _ _ _ _ _ H)). }
  subst ledger'; intros f Hin.
  rewrite missing_eq, Hf in Hm; cbn in Hm; injection Hm as Hm.
  destruct (mem_str (file_id f) (map l_file_id (filter (fun r => String.eqb (l_migration_type r) "up") ledger))) eqn:E.
  - apply mem_str_iff, in_map_iff in E as [r [Er Hr]]; apply filter_In in Hr as [Hr Ht].
    exists r; split; [apply in_or_app; left; exact Hr|split; [apply String.eqb_eq, Ht|exact Er]].
  - exists (up_row now f); split; [apply in_or_app; right; apply in_map; rewrite <- Hm; apply filter_In; rewrite E; auto|].
    split; reflexivity.
Qed.

(** X8: [migrate_up] adds one [up] row per selected file, in order; none of
    their ids is reported missing afterwards. *)
Theorem migrate_up_applied exec now ledger latest fs nb ledger' :
  migrate_up exec now ledger latest fs nb = Ok (ledger', true) ->
  exists files, get_migration_files latest fs nb = Ok files /\ files <> [] /\
    ledger' = app ledger (map (up_row now) files) /\
    forall m g, get_missing_migrations chunks ledger' fs = Ok m -> In g m -> ~ In (file_id g) (map file_id files).
Proof.
  unfold migrate_up; intro H.
  destruct (get_migration_files latest fs nb) as [files|e]; cbn in H; [|discriminate].
  destruct files as [|f0 fs0]; [discriminate|].
  destruct (insert_rows exec (up_row now) (f0 :: fs0) ledger) as [l|e] eqn:Hi; cbn in H; [|discriminate].
  injection H as <-; destruct (insert_rows_ok _ _ _ _ _ Hi) as [-> _].
  exists (f0 :: fs0); split; [reflexivity|split; [discriminate|split; [reflexivity|]]].
  intros m g Hm Hg Hid; destruct (missing_in _ _ _ _ Hm Hg) as (files & _ & _ & Hno).
  apply in_map_iff in Hid as [f [Ef Hf]].
  apply (Hno (up_row now f)); [apply in_or_app; right; apply in_map, Hf|reflexivity|exact Ef].
Qed.

End Missing.
End MissingFacts.

(** ** [get_files] and [iter_migration_files] *)
Module FilesExtra.
Import PyStr StrFacts Files Helpers FilesFacts FolderFacts LedgerFacts.

Lemma prefix_app p s : String.prefix p s = true -> exists r, s = p ++ r.
Proof.
  revert s; induction p as [|c p IH]; intros s H; [exists s; reflexivity|].
  destruct s as [|c' s]; cbn in H; [discriminate|].
  destruct (Ascii.ascii_dec c c') as [<-|]; [|discriminate].
  destruct (IH s H) as [r ->]; exists r; reflexivity.
Qed.

Lemma endswith_app s p : endswith s p = true -> exists a, s = a ++ p.
Proof.
  unfold endswith; intros H; apply prefix_app in H as [r Hr].
  exists (rev_str r); rewrite <- (rev_str_involutive s), Hr, rev_str_app, rev_str_involutive; reflexivity.
Qed.

Lemma split_app_sep_tail sep a b :
  exists pre, pre <> [] /\ split sep (a ++ String sep b) = app pre (split sep b).
Proof.
  induction a as [|c a IH].
  - exists [EmptyString]; split; [discriminate|].
    exact (split_app_sep sep EmptyString b eq_refl).
  - destruct IH as (pre & Hne & E); cbn; rewrite E.
    destruct pre as [|p0 pre']; [congruence|]; cbn.
    destruct (Ascii.eqb c sep).
    + exists (EmptyString :: p0 :: pre'); split; [discriminate|reflexivity].
    + exists (String c p0 :: pre'); split; [discriminate|reflexivity].
Qed.

(** A file [glob("*-up.sql")] matches and that parses is an [up] file. *)
Lemma from_file_up n c mf :
  endswith n "-up.sql" = true -> from_file n c = Ok mf -> is_up mf = true.
Proof.
  intros He H; apply endswith_app in He as [a ->].
  unfold from_file in H; apply bind_ok in H as ([[t i] k] & Hp & H).
  injection H as <-; apply parse_filename_ok in Hp as (t' & i' & k' & z & Hs & _ & _ & E).
  injection E as -> -> ->.
  destruct (split_app_sep_tail "-"%char a "up.sql") as (pre & _ & Es).
  change ("-up.sql") with (String "-"%char "up.sql") in Hs.
  rewrite Es in Hs; change (split "-"%char "up.sql") with ["up.sql"] in Hs.
  apply (f_equal (fun l => last l EmptyString)) in Hs; rewrite last_last in Hs; cbn in Hs.
  rewrite <- Hs; reflexivity.
Qed.

(** X9: [get_files] returns the parsed files of the names the glob matches,
    each once, in ascending [(ts, file_id)] order; with [up_only] every
    returned file is an [up] file. *)
Theorem get_files_spec fs up_only files :
  get_files fs up_only = Ok files ->
  StronglySorted key_rel files /\
  (exists parsed, map_result (fun p => from_file (fst p) (snd p))
                    (filter (fun p => glob_match up_only (fst p)) fs) = Ok parsed /\
                  Permutation parsed files) /\
  (up_only = true -> Forall (fun f => is_up f = true) files).
Proof.
  unfold get_files; intros H; apply bind_ok in H as (parsed & Hp & H); injection H as <-.
  split; [apply sort_mf_strongly|split; [exists parsed; split; [exact Hp|apply sort_mf_perm]|]].
  intros ->; apply Forall_forall; intros f Hf.
  apply (Permutation_in _ (Permutation_sym (sort_mf_perm parsed))) in Hf.
  apply map_result_ok in Hp.
  destruct (Forall2_in_r _ _ _ _ Hp Hf) as [p [Hin Hpf]].
  apply filter_In in Hin as [_ Hg]; exact (from_file_up _ _ _ Hg Hpf).
Qed.

(** X10: [iter_migration_files] yields, for each run of files sharing a
    [file_id], that run's single [up] and [down] file: the first components
    are the [up] files in order, the second the [down] files, and the two
    files of a pair share their id. *)
Theorem iter_migration_files_spec files pairs :
  iter_migration_files files = Ok pairs ->
  map fst pairs = filter is_up files /\ map snd pairs = filter is_down files /\
  Forall (fun p => file_id (fst p) = file_id (snd p) /\ In (fst p) files /\ In (snd p) files) pairs.
Proof.
  intros H; split; [exact (iter_ups _ _ H)|split; [exact (iter_downs _ _ H)|]].
  unfold iter_migration_files in H; apply map_result_ok in H.
  pose proof (groupby_uniform files) as Hu; pose proof (concat_groupby files) as Hc.
  apply Forall_forall; intros [u d] Hin.
  destruct (Forall2_in_r _ _ _ _ H Hin) as [g [Hg Hp]].
  rewrite Forall_forall in Hu; pose proof (uniform_pair g u d (Hu g Hg) Hp) as E.
  destruct (pair_of_group_in _ _ _ Hp) as (Iu & Id & _).
  cbn; split; [symmetry; exact E|].
  rewrite <- Hc; split; apply in_concat; exists g; auto.
Qed.
End FilesExtra.

(** ** [MigrationFile.name] read back by [parse_filename] *)
Module NameRoundTrip.
Import PyStr StrFacts Files FilesFacts RewriteFacts FilesExtra NameDigits.
Local Open Scope Z_scope.


Lemma digit_char_ok n :
  is_digit (digit_char n) = true /\ digit_value (digit_char n) = n mod 10 /\
  isspace (digit_char n) = false /\ Ascii.eqb (digit_char n) "-"%char = false /\
  Ascii.eqb (digit_char n) "+"%char = false.
Proof.
  unfold digit_char.
  assert (H : (0 <= n mod 10 < 10)%Z) by (apply Z.mod_pos_bound; lia).
  assert (Hc : exists k, (k < 10)%nat /\ Z.to_nat (n mod 10) = k /\ n mod 10 = Z.of_nat k)
    by (exists (Z.to_nat (n mod 10)); lia).
  destruct Hc as (k & Hk & -> & ->).
  do 10 (destruct k as [|k]; [vm_compute; auto|]); lia.
Qed.

Lemma digits_fuel_shape fuel n acc :
  exists w, digits_fuel fuel n acc = w ++ acc /\ forallb_str is_digit w = true /\
    (fuel <> O -> w <> EmptyString).
Proof.
  revert n acc; induction fuel as [|f IH]; intros n acc; cbn [digits_fuel].
  - exists EmptyString; split; [reflexivity|split; [reflexivity|congruence]].
  - fold (digit_char n); destruct (digit_char_ok n) as (Hd & _).
    destruct (n <? 10).
    + exists (String (digit_char n) EmptyString); split; [reflexivity|].
      split; [cbn [forallb_str]; rewrite Hd; reflexivity|discriminate].
    + destruct (IH (n / 10) (String (digit_char n) acc)) as (w & E & Hw & _).
      exists (w ++ String (digit_char n) EmptyString); rewrite E, str_app_assoc; split; [reflexivity|].
      split; [|intros _; destruct w; discriminate].
      clear E; induction w as [|c w IHw]; cbn [forallb_str append] in *; [rewrite Hd; reflexivity|].
      apply andb_prop in Hw as [H1 H2]; rewrite H1, IHw; auto.
Qed.

Lemma dec_digits_fuel fuel n acc a :
  fuel <> O -> 0 <= n < 10 ^ Z.of_nat fuel -> 0 <= a ->
  exists k, 0 < k /\ dec_digits (digits_fuel fuel n acc) a false = dec_digits acc (a * 10 ^ k + n) false.
Proof.
  revert n acc a; induction fuel as [|f IH]; intros n acc a Hf Hn Ha.
  - congruence.
  - cbn [digits_fuel]; fold (digit_char n); destruct (digit_char_ok n) as (Hd & Hv & _).
    destruct (n <? 10) eqn:Hlt.
    + exists 1; split; [lia|]; cbn [dec_digits]; rewrite Hd, Hv.
      apply Z.ltb_lt in Hlt; rewrite Z.mod_small by lia; f_equal; lia.
    + apply Z.ltb_ge in Hlt.
      assert (Hn' : 0 <= n / 10 < 10 ^ Z.of_nat f).
      { rewrite Nat2Z.inj_succ, Z.pow_succ_r in Hn by lia.
        split; [apply Z.div_pos; lia|apply Z.div_lt_upper_bound; lia]. }
      assert (Hf' : f <> O) by (intros ->; cbn in Hn'; assert (1 <= n / 10) by (apply Z.div_le_lower_bound; lia); lia).
      destruct (IH (n / 10) (String (digit_char n) acc) a Hf' Hn' Ha) as (k & Hk & E).
      exists (k + 1); split; [lia|]; rewrite E; cbn [dec_digits]; rewrite Hd, Hv; f_equal.
      rewrite Z.pow_add_r by lia; rewrite (Z.div_mod n 10) at 3 by lia; lia.
Qed.

Lemma str_of_nonneg_digits n :
  0 <= n -> exists w, str_of_nonneg n = w /\ forallb_str is_digit w = true /\ w <> EmptyString /\
    dec_digits w 0 false = Some n.
Proof.
  intros Hn; unfold str_of_nonneg.
  destruct (digits_fuel_shape (S (Z.to_nat (Z.log2 n))) n EmptyString) as (w & E & Hw & Hne).
  rewrite str_app_nil_r in E; exists w; split; [exact E|split; [exact Hw|split; [apply Hne; discriminate|]]].
  rewrite <- E.
  assert (Hb : 0 <= n < 10 ^ Z.of_nat (S (Z.to_nat (Z.log2 n)))).
  { split; [exact Hn|]; rewrite Nat2Z.inj_succ, Z2Nat.id by apply Z.log2_nonneg.
    destruct (Z.eq_dec n 0) as [->|Hn0]; [cbn; lia|].
    apply Z.lt_le_trans with (2 ^ Z.succ (Z.log2 n)); [apply Z.log2_spec; lia|].
    apply Z.pow_le_mono_l; split; [lia|lia]. }
  destruct (dec_digits_fuel _ n EmptyString 0 (fun H => O_S _ (eq_sym H)) Hb (Z.le_refl 0)) as (k & _ & ->); reflexivity.
Qed.

Lemma digit_not_space c : is_digit c = true -> isspace c = false.
Proof.
  unfold is_digit, isspace; intros H; apply andb_prop in H as [H1 H2].
  apply Nat.leb_le in H1; apply Nat.leb_le in H2.
  apply orb_false_iff; split; apply andb_false_iff;
    right; apply Nat.leb_gt; lia.
Qed.

Lemma digit_not_sign c : is_digit c = true -> Ascii.eqb c "-"%char = false /\ Ascii.eqb c "+"%char = false.
Proof.
  intros H; split; apply Ascii.eqb_neq; intros ->; vm_compute in H; discriminate.
Qed.

Lemma forallb_str_app f a b : forallb_str f (a ++ b) = forallb_str f a && forallb_str f b.
Proof. induction a as [|c a IH]; cbn; [reflexivity|rewrite IH, andb_assoc; reflexivity]. Qed.

Lemma forallb_str_rev f s : forallb_str f (rev_str s) = forallb_str f s.
Proof.
  induction s as [|c s IH]; cbn; [reflexivity|].
  rewrite forallb_str_app, IH; cbn; rewrite andb_true_r, andb_comm; reflexivity.
Qed.

Lemma lstrip_digits w : forallb_str is_digit w = true -> lstrip w = w.
Proof.
  destruct w as [|c r]; cbn; [reflexivity|]; intros H; apply andb_prop in H as [H _].
  rewrite (digit_not_space c H); reflexivity.
Qed.

Lemma strip_digits w : forallb_str is_digit w = true -> strip w = w.
Proof.
  intros H; unfold strip, rstrip; rewrite (lstrip_digits w H), lstrip_digits, rev_str_involutive;
    [reflexivity|rewrite forallb_str_rev; exact H].
Qed.

Lemma digits_no_dash w : forallb_str is_digit w = true -> has_char "-"%char w = false.
Proof.
  unfold has_char; induction w as [|c w IH]; cbn; [reflexivity|]; intros H.
  apply andb_prop in H as [H1 H2]; rewrite (proj1 (digit_not_sign c H1)), IH; auto.
Qed.

Lemma py_int_digits w n :
  forallb_str is_digit w = true -> w <> EmptyString -> dec_digits w 0 false = Some n -> py_int w = Some n.
Proof.
  intros H Hne Hd; unfold py_int; rewrite (strip_digits w H).
  destruct w as [|c r]; [congruence|]; cbn in H; apply andb_prop in H as [H1 _].
  destruct (digit_not_sign c H1) as [Hm Hp]; rewrite Hp, Hm; unfold py_int_body; rewrite H1; exact Hd.
Qed.

(** A name built as [MigrationFile.name] builds it from a whole-second
    time [n] is read back by [parse_filename]. *)
Lemma parse_filename_built n id ty :
  0 <= n -> n <= MAX_TS -> has_char "-"%char id = false -> ty = "up" \/ ty = "down" ->
  parse_filename (str_of_Z n ++ "-" ++ id ++ "-" ++ ty ++ ".sql") = Ok (n, id, ty).
Proof.
  intros Hq Hmax Hid Hty.
  destruct (str_of_nonneg_digits _ Hq) as (w & Ew & Hw & Hne & Hd).
  unfold str_of_Z; replace (n <? 0) with false by (symmetry; apply Z.ltb_ge; lia).
  rewrite Ew; apply parse_filename_ok.
  exists w, id, (ty ++ ".sql"), n.
  split; [|split; [exact (py_int_digits w _ Hw Hne Hd)|split; [unfold MIN_TS; lia|]]].
  - cbn [append].
    rewrite split_app_sep by exact (digits_no_dash w Hw).
    rewrite split_app_sep by exact Hid.
    destruct Hty as [-> | ->]; reflexivity.
  - destruct Hty as [-> | ->]; reflexivity.
Qed.

(** On a host at a fixed offset [o] from UTC, [timestamp()] of a naive time
    is that time read as UTC minus [o]. *)
Lemma name_ts_fixed_offset o t :
  0 <= t / 1000000 - o -> name_ts (fixed_offset_local o) t = t / 1000000 - o.
Proof.
  intros H; unfold name_ts, py_mktime, fixed_offset_local.
  replace (t / 1000000 + o - t / 1000000) with o by lia.
  replace (t / 1000000 - o + o) with (t / 1000000) by lia.
  rewrite Z.eqb_refl; cbn [andb].
  replace (t / 1000000 - o - 86400 + o - (t / 1000000 - o - 86400)) with o by lia.
  rewrite Z.eqb_refl.
  assert (Hm : 0 <= t mod 1000000 < 1000000) by (apply Z.mod_pos_bound; lia).
  rewrite Z.quot_div_nonneg by lia.
  rewrite Z.div_add_l by lia; rewrite (Z.div_small (t mod 1000000)) by lia; lia.
Qed.

(** X11: the name [MigrationFile.name] gives a file (as [replace_ts] renames
    it), on any host, is read back by [parse_filename] with the same whole
    seconds [int(ts.timestamp())] and the same id and type, for an [up] or
    [down] file whose id has no dash and a timestamp from the epoch up to
    year 9999. *)
Theorem parse_filename_mf_name local t mf :
  0 <= name_ts local t -> name_ts local t <= MAX_TS -> has_char "-"%char (file_id mf) = false ->
  file_type mf = "up" \/ file_type mf = "down" ->
  parse_filename (mf_name local t mf) = Ok (name_ts local t, file_id mf, file_type mf).
Proof.
  intros Hq Hmax Hid Hty; unfold mf_name; exact (parse_filename_built _ _ _ Hq Hmax Hid Hty).
Qed.

(** X16: on a host [o] seconds east of UTC, a file renamed at the naive
    UTC time [t] (microseconds, as [utc_now()] gives it) reads back with
    the whole seconds of [t] minus [o]: the name is off by the host's
    offset from UTC. *)
Theorem parse_filename_mf_name_offset o t mf :
  0 <= t / 1000000 - o -> t / 1000000 - o <= MAX_TS -> has_char "-"%char (file_id mf) = false ->
  file_type mf = "up" \/ file_type mf = "down" ->
  parse_filename (mf_name (fixed_offset_local o) t mf) = Ok (t / 1000000 - o, file_id mf, file_type mf).
Proof.
  intros Hq Hmax Hid Hty; unfold mf_name; rewrite (name_ts_fixed_offset o t Hq).
  exact (parse_filename_built _ _ _ Hq Hmax Hid Hty).
Qed.

(** X12: a timestamp before the epoch (a negative [int(ts.timestamp())])
    gives a name that [parse_filename] rejects: the leading minus sign makes
    four or more dash-separated pieces. *)
Theorem parse_filename_mf_name_negative local t mf :
  name_ts local t < 0 -> exists e, parse_filename (mf_name local t mf) = Err e.
Proof.
  intros Hq; unfold mf_name, str_of_Z; replace (name_ts local t <? 0) with true by (symmetry; apply Z.ltb_lt; lia).
  destruct (str_of_nonneg_digits (- name_ts local t)) as (w & Ew & Hw & _ & _); [lia|]; rewrite Ew.
  destruct (split_app_sep_tail "-"%char (file_id mf) (file_type mf ++ ".sql")) as (pre & Hpre & Es).
  unfold parse_filename; cbn [append].
  assert (Hx : split "-"%char (w ++ String "-"%char (file_id mf ++ String "-"%char (file_type mf ++ ".sql")))
               = w :: app pre (split "-"%char (file_type mf ++ ".sql"))).
  { rewrite split_app_sep by exact (digits_no_dash w Hw); rewrite Es; reflexivity. }
  cbn [split]; rewrite Hx; cbn [Ascii.eqb Bool.eqb].
  pose proof (split_nonempty "-"%char (file_type mf ++ ".sql")) as Hne.
  destruct pre as [|p1 [|p2 pre]]; [congruence| |];
    destruct (split "-"%char (file_type mf ++ ".sql")); try congruence; cbn; eexists; reflexivity.
Qed.
End NameRoundTrip.

(** ** [reorder_files_by_applied_migrations] *)
Module ReorderAppliedFacts.
Import Files Helpers FilesFacts FolderFacts LedgerFacts ReorderApplied.
Local Open Scope Z_scope.


Lemma insert_mf_desc_sorted x l : Sorted key_desc l -> Sorted key_desc (insert_mf_desc x l).
Proof.
  unfold key_desc; induction l as [|y t IH]; cbn; intros H.
  - repeat constructor.
  - destruct (key_le y x) eqn:E.
    + constructor; [exact H|constructor; exact E].
    + apply key_le_total in E. inversion H as [|? ? Ht Hd]; subst.
      constructor; [apply IH; exact Ht|].
      destruct t as [|z t]; cbn; [constructor; exact E|].
      destruct (key_le z x); constructor; [exact E|inversion Hd; assumption].
Qed.

Lemma sort_mf_desc_strongly l : StronglySorted key_desc (sort_mf_desc l).
Proof.
  apply Sorted_StronglySorted.
  - intros a b c H1 H2; unfold key_desc in *; exact (key_le_trans _ _ _ H2 H1).
  - induction l; cbn; [constructor|apply insert_mf_desc_sorted; assumption].
Qed.

Lemma strongly_app_r {A} (R : A -> A -> Prop) l1 l2 :
  StronglySorted R (app l1 l2) -> StronglySorted R l2.
Proof. induction l1 as [|x t IH]; cbn; intros H; [exact H|inversion H; auto]. Qed.

Lemma strongly_app_cross {A} (R : A -> A -> Prop) l1 l2 x y :
  StronglySorted R (app l1 l2) -> In x l1 -> In y l2 -> R x y.
Proof.
  induction l1 as [|z t IH]; cbn; intros H Hx Hy; [destruct Hx|].
  inversion H as [|? ? Ht Hz]; subst; destruct Hx as [<-|Hx]; [|exact (IH Ht Hx Hy)].
  rewrite Forall_forall in Hz; apply Hz, in_or_app; right; exact Hy.
Qed.

Lemma remove_str_length x l : (length (remove_str x l) <= length l)%nat.
Proof. unfold remove_str; induction l as [|y t IH]; cbn; [lia|destruct (negb _); cbn; lia]. Qed.

Lemma remove_str_length_in x l : In x l -> (length (remove_str x l) < length l)%nat.
Proof.
  unfold remove_str; induction l as [|y t IH]; cbn; intros H; [destruct H|].
  destruct (String.eqb_spec x y) as [<-|N]; cbn.
  - pose proof (remove_str_length x t); unfold remove_str in H0; lia.
  - destruct H as [<-|H]; [congruence|specialize (IH H); lia].
Qed.

Lemma remove_str_in x y l : In y (remove_str x l) <-> In y l /\ x <> y.
Proof.
  unfold remove_str; rewrite filter_In, negb_true_iff.
  destruct (String.eqb_spec x y); split; intros [H1 H2]; auto; try discriminate; congruence.
Qed.

Lemma dedup_str_in x l : In x (dedup_str l) <-> In x l.
Proof.
  induction l as [|y t IH]; cbn; [reflexivity|].
  rewrite remove_str_in, IH; destruct (String.eqb_spec y x); intuition.
Qed.

Lemma dedup_str_length l : NoDup l \/ (length (dedup_str l) < length l)%nat.
Proof.
  induction l as [|x t IH]; cbn; [left; constructor|].
  destruct (in_dec string_dec x t) as [Hin|Hn].
  - right; apply dedup_str_in in Hin; apply remove_str_length_in in Hin.
    destruct IH as [_|IH]; [|lia].
    assert (length (dedup_str t) <= length t)%nat.
    { clear Hin; induction t as [|y u IHu]; cbn; [lia|].
      pose proof (remove_str_length y (dedup_str u)); lia. }
    lia.
  - destruct IH as [IH|IH]; [left; constructor; auto|right].
    pose proof (remove_str_length x (dedup_str t)); lia.
Qed.

Lemma mem_str_in_iff x l : mem_str x l = true -> In x l.
Proof. unfold mem_str; intros H; apply existsb_exists in H as [y [Hy E]]; apply String.eqb_eq in E; subst; exact Hy. Qed.


Lemma applied_split_inv n ids0 gs : forall ids c r a res,
  applied_split ids n gs c r a = Ok res ->
  StronglySorted key_desc (concat gs) ->
  (forall p v, (In p c \/ In p r \/ In p a) -> In v (concat gs) -> key_rel v (fst p)) ->
  StronglySorted pair_desc c -> StronglySorted pair_desc r -> StronglySorted pair_desc a ->
  (forall x, In x ids0 -> In x ids \/ In x (c_ids c)) ->
  (forall x, In x (c_ids c) -> In x ids0) ->
  incl ids ids0 -> (length ids <= length ids0)%nat ->
  ((length ids0 < n)%nat -> a = []) ->
  let '(ids', _, c', r', a') := res in
  StronglySorted pair_desc c' /\ StronglySorted pair_desc r' /\ StronglySorted pair_desc a' /\
  (forall x, In x ids0 -> In x ids' \/ In x (c_ids c')) /\
  (forall x, In x (c_ids c') -> In x ids0) /\
  ((length ids0 < n)%nat -> a' = []).
Proof.
  induction gs as [|g gs IH]; intros ids c r a res H Hs Hb Hc Hr Ha Hcov Hcin Hinc Hlen Hn.
  - cbn in H; injection H as <-; auto 7.
  - cbn [applied_split] in H.
    destruct (pair_of_group g) as [[u d]|e] eqn:Hp; cbn [bind] in H; [|discriminate].
    destruct ids as [|i0 ids1]; [injection H as <-; auto 7|].
    set (ids := i0 :: ids1) in *.
    destruct (pair_of_group_in _ _ _ Hp) as (Iu & _ & _ & _).
    cbn [concat] in Hs, Hb.
    assert (Hs' : StronglySorted key_desc (concat gs)) by exact (strongly_app_r _ _ _ Hs).
    assert (Hu_old : forall p, In p c \/ In p r \/ In p a -> key_rel u (fst p))
      by (intros p Hpin; apply (Hb p u Hpin), in_or_app; left; exact Iu).
    assert (Hu_new : forall v, In v (concat gs) -> key_rel v u)
      by (intros v Hv; exact (strongly_app_cross _ _ _ _ _ Hs Iu Hv)).
    assert (Hb_old : forall p v, In p c \/ In p r \/ In p a -> In v (concat gs) -> key_rel v (fst p))
      by (intros p v Hpin Hv; apply (Hb p v Hpin), in_or_app; right; exact Hv).
    assert (Hsnoc : forall l, (forall p, In p l -> In p c \/ In p r \/ In p a) ->
                      StronglySorted pair_desc l -> StronglySorted pair_desc (app l [(u, d)])).
    { intros l Hl Hsl; apply strongly_snoc; [exact Hsl|].
      apply Forall_forall; intros p Hpl; exact (Hu_old p (Hl p Hpl)). }
    destruct (mem_str (file_id u) ids) eqn:Hm.
    + apply (IH _ _ _ _ _ H Hs').
      * intros p v [Hpc|[Hpr|Hpa]] Hv; [apply in_app_or in Hpc as [Hpc|[<-|[]]]|..]; eauto.
      * apply Hsnoc; auto.
      * exact Hr.
      * exact Ha.
      * intros x Hx; destruct (Hcov x Hx) as [Hi|Hi].
        -- destruct (String.eqb_spec (file_id u) x) as [<-|N].
           ++ right; unfold c_ids; rewrite map_app; apply in_or_app; right; left; reflexivity.
           ++ left; apply remove_str_in; auto.
        -- right; unfold c_ids in *; rewrite map_app; apply in_or_app; left; exact Hi.
      * unfold c_ids; intros x Hx; rewrite map_app in Hx; apply in_app_or in Hx as [Hx|[<-|[]]];
          [exact (Hcin x Hx)|apply Hinc, mem_str_in_iff, Hm].
      * intros x Hx; apply remove_str_in in Hx as [Hx _]; exact (Hinc x Hx).
      * pose proof (remove_str_length (file_id u) ids); lia.
      * exact Hn.
    + destruct (Nat.eqb (length ids) n) eqn:En.
      * apply Nat.eqb_eq in En.
        apply (IH _ _ _ _ _ H Hs' ); [| exact Hc | exact Hr | apply Hsnoc; auto | exact Hcov
          | exact Hcin | exact Hinc | exact Hlen | intros Hlt; lia].
        intros p v [Hpc|[Hpr|Hpa]] Hv; [| |apply in_app_or in Hpa as [Hpa|[<-|[]]]]; eauto.
      * apply (IH _ _ _ _ _ H Hs' ); [| exact Hc | apply Hsnoc; auto | exact Ha | exact Hcov
          | exact Hcin | exact Hinc | exact Hlen | exact Hn].
        intros p v [Hpc|[Hpr|Hpa]] Hv; [|apply in_app_or in Hpr as [Hpr|[<-|[]]]|]; eauto.
Qed.

Lemma rename_loop_names local ps : forall fs t prev m fs' m',
  rename_loop local fs t prev ps m = Ok (fs', m') ->
  exists x, m' = app m x /\ length x = (2 * length ps)%nat /\
    forall i u d, nth_error ps i = Some (u, d) ->
      nth_error x (2 * i) = Some (mf_name local (t + Z.of_nat i * 1000000) u) /\
      nth_error x (2 * i + 1) = Some (mf_name local (t + Z.of_nat i * 1000000) d).
Proof.
  induction ps as [|[u d] ps IH]; intros fs t prev m fs' m' H; cbn [rename_loop] in H.
  - injection H as _ <-; exists []; split; [rewrite app_nil_r; reflexivity|split; [reflexivity|]].
    intros [|i] u d Hn; discriminate.
  - apply bind_ok in H as ([fs1 nu] & H1 & H); apply bind_ok in H as ([fs2 nd] & H2 & H).
    apply bind_ok in H as (fs3 & _ & H).
    apply ReorderByLast.replace_ts_name in H1; apply ReorderByLast.replace_ts_name in H2; subst nu nd.
    destruct (IH _ _ _ _ _ _ H) as (x & -> & Hl & Hx).
    exists (mf_name local t u :: mf_name local t d :: x); split; [rewrite <- app_assoc; reflexivity|].
    split; [cbn; rewrite Hl; lia|].
    intros [|i] u' d' Hn; cbn in Hn.
    + injection Hn as <- <-; rewrite Z.add_0_r; split; reflexivity.
    + destruct (Hx i u' d' Hn) as [E1 E2].
      replace (2 * S i + 1)%nat with (S (S (2 * i + 1))) by lia.
      replace (2 * S i)%nat with (S (S (2 * i))) by lia.
      cbn [nth_error]; rewrite E1, E2.
      replace (t + 1000000 + Z.of_nat i * 1000000) with (t + Z.of_nat (S i) * 1000000) by lia.
      split; reflexivity.
Qed.

Lemma applied_split_from n gs : forall ids c r a res,
  applied_split ids n gs c r a = Ok res ->
  let '(_, _, c', r', a') := res in
  forall p, In p (app c' (app r' a')) ->
    In p (app c (app r a)) \/ exists g, In g gs /\ pair_of_group g = Ok p.
Proof.
  induction gs as [|g gs IH]; intros ids c r a res H; cbn [applied_split] in H.
  - injection H as <-; auto.
  - destruct (pair_of_group g) as [[u d]|e] eqn:Hp; cbn [bind] in H; [|discriminate].
    assert (Hstep : forall c' r' a', (forall p, In p (app c' (app r' a')) -> In p (app c (app r a)) \/ p = (u, d)) ->
              applied_split ids n gs c' r' a' = Ok res \/ (exists ids', applied_split ids' n gs c' r' a' = Ok res) ->
              let '(_, _, c'', r'', a'') := res in
              forall p, In p (app c'' (app r'' a'')) ->
                In p (app c (app r a)) \/ exists g0, In g0 (g :: gs) /\ pair_of_group g0 = Ok p).
    { intros c' r' a' Hsub Hrec; destruct res as [[[[ids'' last] c''] r''] a''].
      assert (Hr : exists ids', applied_split ids' n gs c' r' a' = Ok (ids'', last, c'', r'', a''))
        by (destruct Hrec as [Hrec|Hrec]; [exists ids; exact Hrec|exact Hrec]).
      destruct Hr as [ids' Hr]; pose proof (IH _ _ _ _ _ Hr) as Hi; cbn zeta in Hi.
      intros p Hin; destruct (Hi p Hin) as [Hx|(g0 & Hg0 & Hpg)].
      - destruct (Hsub p Hx) as [Hy| ->]; [left; exact Hy|right; exists g; split; [left; reflexivity|exact Hp]].
      - right; exists g0; split; [right; exact Hg0|exact Hpg]. }
    destruct ids as [|i0 ids1]; [injection H as <-; auto|].
    destruct (mem_str (file_id u) (i0 :: ids1)); [|destruct (Nat.eqb _ n)].
    + apply (Hstep (app c [(u, d)]) r a); [|right; eexists; exact H].
      intros p Hin; repeat rewrite in_app_iff in *; cbn in Hin; intuition (subst; auto).
    + apply (Hstep c r (app a [(u, d)])); [|right; eexists; exact H].
      intros p Hin; repeat rewrite in_app_iff in *; cbn in Hin; intuition (subst; auto).
    + apply (Hstep c (app r [(u, d)]) a); [|right; eexists; exact H].
      intros p Hin; repeat rewrite in_app_iff in *; cbn in Hin; intuition (subst; auto).
Qed.

(** X13: a successful [reorder_files_by_applied_migrations] renames, in
    order, the pairs [commit_files ++ to_reorder_files ++ after_files]: the
    [i]-th pair gets the time [utc_now()] plus [i] seconds, and the returned
    paths are its new up and down names.  The ids of [commit_files] are
    exactly the given ids; each of the three lists runs from the newest file to the
    oldest, so renaming reverses the relative order of its files; a given
    id listed twice leaves [after_files] empty. *)
Theorem reorder_files_by_applied_migrations_order local fs ids now fs' modified :
  reorder_files_by_applied_migrations local fs ids now = Ok (fs', modified) ->
  exists commit to_reorder after,
    Forall (fun p => is_up (fst p) = true /\ is_down (snd p) = true /\ file_id (fst p) = file_id (snd p))
      (app commit (app to_reorder after)) /\
    (forall x, In x ids <-> In x (map (fun p => file_id (fst p)) commit)) /\
    StronglySorted pair_desc commit /\ StronglySorted pair_desc to_reorder /\
    StronglySorted pair_desc after /\
    (~ NoDup ids -> after = []) /\
    length modified = (2 * length (app commit (app to_reorder after)))%nat /\
    forall i u d, nth_error (app commit (app to_reorder after)) i = Some (u, d) ->
      nth_error modified (2 * i) = Some (mf_name local (now + Z.of_nat i * 1000000) u) /\
      nth_error modified (2 * i + 1) = Some (mf_name local (now + Z.of_nat i * 1000000) d).
Proof.
  unfold reorder_files_by_applied_migrations; intros H.
  destruct ids as [|i0 ids1] eqn:Eids.
  - injection H as _ <-; exists [], [], []; cbn.
    split; [constructor|]; split; [tauto|split; [constructor|split; [constructor|split; [constructor|split]]]].
    + intros Hn; reflexivity.
    + split; [reflexivity|intros [|i] u d Hn; discriminate].
  - rewrite <- Eids in H |- *.
    apply bind_ok in H as (files & Hf & H); apply bind_ok in H as ([[[[ids' last] c] r] a] & Hs & H).
    destruct ids' as [|? ?]; [|discriminate].
    assert (Hsorted : StronglySorted key_desc (concat (groupby_id files))).
    { rewrite concat_groupby; unfold get_files_desc in Hf; apply bind_ok in Hf as (pl & _ & Hf).
      injection Hf as <-; apply sort_mf_desc_strongly. }
    pose proof (applied_split_inv (length ids) (dedup_str ids) _ _ _ _ _ _ Hs Hsorted) as Hinv.
    cbn zeta in Hinv.
    destruct Hinv as (Hc & Hr & Ha & Hcov & Hcin & Hn).
    + intros p v [[]|[[]|[]]].
    + constructor.
    + constructor.
    + constructor.
    + intros x Hx; left; exact Hx.
    + intros x [].
    + intros x Hx; exact Hx.
    + lia.
    + intros _; reflexivity.
    + destruct (rename_loop_names _ _ _ _ _ _ _ _ H) as (x & Ex & Hl & Hx); cbn in Ex; subst x.
      exists c, r, a; split.
      { pose proof (applied_split_from (length ids) _ _ _ _ _ _ Hs) as Hfrom; cbn zeta in Hfrom.
        apply Forall_forall; intros p Hp; destruct (Hfrom p Hp) as [[]|(g & Hg & Hpg)].
        destruct p as [u d]; destruct (pair_of_group_in _ _ _ Hpg) as (_ & _ & Hu & Hd).
        pose proof (groupby_uniform files) as Hun; rewrite Forall_forall in Hun.
        split; [exact Hu|split; [exact Hd|symmetry; exact (uniform_pair g u d (Hun g Hg) Hpg)]]. }
      split; [|split; [exact Hc|split; [exact Hr|split; [exact Ha|split]]]].
      * intros x; rewrite <- dedup_str_in; split; [intros Hx'; destruct (Hcov x Hx') as [[]|Hy]; exact Hy|apply Hcin].
      * intros Hnd; destruct (dedup_str_length ids) as [Hd|Hd]; [contradiction|exact (Hn Hd)].
      * split; [exact Hl|exact Hx].
Qed.
End ReorderAppliedFacts.

(** ** The rows [sample_database] copies *)
Module SamplingSourcesFacts.
Import Sampling SamplingHelpers SamplingExamples ReferentialClosure SamplingSources.
Local Open Scope Z_scope.

Section Light.
Variable src : string -> list Row.
Variable system_rows : Table -> Z -> list Row.
Variable pick_rows : Table -> list Row -> Z -> list Row.
Variable set_order : list Table -> list Table.
Hypothesis system_rows_src : forall t n s, In s (system_rows t n) -> In s (src (full_name t)).
Hypothesis pick_rows_src : forall t cur n s, In s (pick_rows t cur n) -> In s (src (full_name t)).
Hypothesis set_order_perm : forall l, Permutation l (set_order l).
Variable db : list Table.
Hypothesis db_names : NoDup (map full_name db).

Lemma linv_finish st t rows :
  linv src db st -> In t db -> ignore t = false ->
  (forall s, In s rows -> exists s0, In s0 (src (full_name t)) /\ (s = s0 \/ s = proj t s0)) ->
  linv src db (finish st t rows).
Proof.
  intros [I1 I2] Ht Hti Hrows; split.
  - intros n [<-|Hn]; [exists t; auto|exact (I1 n Hn)].
  - intros c s Hc Hs; rewrite tmp_finish in Hs.
    destruct (String.eqb_spec (full_name c) (full_name t)) as [E|_]; [|exact (I2 c s Hc Hs)].
    rewrite (name_inj db c t db_names Hc Ht E); exact (Hrows s Hs).
Qed.

Lemma process_table_linv st t st' ret :
  linv src db st -> In t db -> ignore t = false ->
  process_table src system_rows pick_rows set_order db st t = Ok (st', ret) ->
  linv src db st' /\ tables_ok db ret.
Proof.
  intros Hinv Ht Hti H; unfold process_table in H.
  destruct (is_processed st t); [discriminate|].
  destruct (table_size t) as [size|e]; cbn in H; [|discriminate].
  destruct (is_leaf db t).
  - injection H as <- <-; split; [|apply tables_ok_filter, tables_ok_parents].
    apply linv_finish; auto.
    intros s Hs; exists s; split; [exact (system_rows_src t size s Hs)|left; reflexivity].
  - destruct (forallb (is_processed st) (child_tables_safe db t)).
    + destruct (insert_node_table src pick_rows set_order db st t size) as [rows|e] eqn:Hn;
        cbn in H; [|discriminate].
      injection H as <- <-; split; [|apply tables_ok_filter, tables_ok_parents].
      destruct (insert_node_table_spec src pick_rows set_order pick_rows_src db st t size rows Hn)
        as [_ Hsrc].
      apply linv_finish; auto.
      intros s Hs; destruct (Hsrc s Hs) as [s0 [Hs0 ->]]; exists s0; auto.
    + injection H as <- <-; split; [exact Hinv|apply tables_ok_filter, tables_ok_children].
Qed.

Lemma pass_linv ts : forall st acc st' acc',
  linv src db st -> tables_ok db ts -> tables_ok db acc ->
  pass src system_rows pick_rows set_order db st ts acc = Ok (st', acc') ->
  linv src db st' /\ tables_ok db acc'.
Proof.
  induction ts as [|t ts IH]; intros st acc st' acc' Hinv Hts Hacc H; cbn [pass] in H.
  - injection H as <- <-; auto.
  - assert (Hts' : tables_ok db ts) by (intros x Hx; apply Hts; right; exact Hx).
    destruct (is_processed st t); [exact (IH _ _ _ _ Hinv Hts' Hacc H)|].
    destruct (process_table src system_rows pick_rows set_order db st t) as [[st1 ret]|e] eqn:Hp;
      cbn [bind] in H; [|discriminate].
    destruct (Hts t (or_introl eq_refl)) as [Ht Hti].
    destruct (process_table_linv st t st1 ret Hinv Ht Hti Hp) as [Hinv1 Hret].
    apply (IH st1 (union acc ret) st' acc' Hinv1 Hts'); [|exact H].
    intros x Hx; destruct (in_union _ _ _ Hx); auto.
Qed.

Lemma ctt_loop_linv fuel : forall st ts st',
  linv src db st -> tables_ok db ts ->
  ctt_loop src system_rows pick_rows set_order fuel db st ts = Some (Ok st') -> linv src db st'.
Proof.
  induction fuel as [|f IH]; intros st ts st' Hinv Hts H; cbn [ctt_loop] in H; [discriminate|].
  destruct ts as [|t ts']; [injection H as <-; exact Hinv|].
  destruct (pass src system_rows pick_rows set_order db st (set_order (t :: ts')) [])
    as [[st1 parents]|e] eqn:Hp; [|discriminate].
  destruct (set_eq (t :: ts') parents); [discriminate|].
  assert (Hso : tables_ok db (set_order (t :: ts'))).
  { intros x Hx; apply Hts, (Permutation_in _ (Permutation_sym (set_order_perm _)) Hx). }
  destruct (pass_linv _ _ _ _ _ Hinv Hso (fun x (Hx : In x []) => match Hx with end) Hp) as [H1 H2].
  exact (IH _ _ _ H1 H2 H).
Qed.

Lemma create_temp_tables_linv fuel st :
  create_temp_tables src system_rows pick_rows set_order fuel db = Some (Ok st) -> linv src db st.
Proof.
  unfold create_temp_tables; intro H.
  destruct (filter (fun t => is_root db t && negb (ignore t)) db) as [|r rs] eqn:Hr; [discriminate|].
  apply (ctt_loop_linv fuel st0 (r :: rs) st); [split; [intros n []|intros c s _ []]| |exact H].
  rewrite <- Hr; intros x Hx; apply filter_In in Hx as [Hx E].
  apply andb_prop in E as [_ E]; apply negb_true_iff in E; auto.
Qed.

Lemma proj_idem t r : proj t (proj t r) = proj t r.
Proof.
  unfold proj; induction r as [|x r IH]; cbn; [reflexivity|].
  destruct (negb (is_gen t (fst x))) eqn:E; [cbn; rewrite E, IH; reflexivity|exact IH].
Qed.

(** X14: a successful [sample_database] leaves no table of the database
    ignored: an ignored table is never processed, so the safety check
    rejects any database where one is. *)
Theorem sample_database_no_ignored fuel tgt :
  sample_database src system_rows pick_rows set_order fuel db = Some (Ok tgt) ->
  forall t, In t db -> ignore t = false.
Proof.
  unfold sample_database; intros H t Ht.
  destruct (create_temp_tables src system_rows pick_rows set_order fuel db) as [[st|e]|] eqn:Hc;
    try discriminate.
  destruct (forallb (is_processed st) db) eqn:Hall; [|discriminate].
  rewrite forallb_forall in Hall; destruct (create_temp_tables_linv fuel st Hc) as [I1 _].
  pose proof (Hall t Ht) as Hp; unfold is_processed in Hp; apply existsb_exists in Hp as [n [Hn E]].
  apply String.eqb_eq in E; subst n; destruct (I1 _ Hn) as [t' [Ht' [E Hi]]].
  rewrite <- (name_inj db t' t db_names Ht' Ht E); exact Hi.
Qed.

(** X15: every row a successful [sample_database] copies into a table of the
    target is a row of that table in the source, without its generated
    columns; a name that is no table of the database receives nothing. *)
Theorem sample_database_rows_from_source fuel tgt :
  sample_database src system_rows pick_rows set_order fuel db = Some (Ok tgt) ->
  (forall t r, In t db -> In r (tgt (full_name t)) ->
     exists s0, In s0 (src (full_name t)) /\ r = proj t s0) /\
  (forall n, lookup_table db n = None -> tgt n = []).
Proof.
  unfold sample_database; intros H.
  destruct (create_temp_tables src system_rows pick_rows set_order fuel db) as [[st|e]|] eqn:Hc;
    try discriminate.
  destruct (forallb (is_processed st) db); [|discriminate].
  injection H as <-; split.
  - intros t r Ht Hr; rewrite (lookup_table_full db t db_names Ht) in Hr.
    apply in_map_iff in Hr as [s [<- Hs]].
    destruct (create_temp_tables_linv fuel st Hc) as [_ I2].
    destruct (I2 t s Ht Hs) as [s0 [Hs0 [-> | ->]]]; exists s0; split; auto.
    apply proj_idem.
  - intros n Hn; rewrite Hn; reflexivity.
Qed.

End Light.
End SamplingSourcesFacts.

(** ** The ledger and file theorems on examples *)
Module LedgerWitnesses.
Import Files MigrationOps LedgerFacts MissingFacts LedgerExamples.
Local Open Scope Z_scope.

Lemma get_rollback_files_spec_witness :
  get_rollback_files ex_ledger_ac Examples.ex_folder3 2 None = Ok [mf_c_down; mf_a_down] /\
  exists files, get_files Examples.ex_folder3 false = Ok files /\
    StronglySorted (fun a b => Helpers.key_rel b a) [mf_c_down; mf_a_down] /\
    Forall (fun f => In f files /\ is_down f = true /\ In (file_id f) (applied_migration_ids ex_ledger_ac))
      [mf_c_down; mf_a_down] /\
    (None = @None string -> 0 < 2 -> (length [mf_c_down; mf_a_down] <= Z.to_nat 2)%nat).
Proof.
  assert (H : get_rollback_files ex_ledger_ac Examples.ex_folder3 2 None = Ok [mf_c_down; mf_a_down])
    by (vm_compute; reflexivity).
  split; [exact H|exact (get_rollback_files_spec _ _ _ _ _ H)].
Defined.

Lemma get_rollback_files_through_witness :
  get_rollback_files ex_ledger_ac Examples.ex_folder3 (-1) (Some "c") = Ok [mf_c_down] /\
  (-1 < 0 /\ exists l0 x rest, [mf_c_down] = app l0 [x] /\ file_id x = "c" /\
     Forall (fun f => file_id f <> "c") l0 /\
     get_rollback_files ex_ledger_ac Examples.ex_folder3 (-1) None = Ok (app [mf_c_down] rest)).
Proof.
  assert (H : get_rollback_files ex_ledger_ac Examples.ex_folder3 (-1) (Some "c") = Ok [mf_c_down])
    by (vm_compute; reflexivity).
  split; [exact H|exact (get_rollback_files_through _ _ _ _ _ H)].
Defined.

Lemma migrate_down_rolls_back_witness :
  migrate_down ex_exec 5 ex_ledger_ac Examples.ex_folder3 None None =
    Ok (app ex_ledger_ac [down_row 5 mf_c_down; down_row 5 mf_a_down], true) /\
  exists l, get_rollback_files ex_ledger_ac Examples.ex_folder3 (or_minus_one None) None = Ok l /\ l <> [] /\
    app ex_ledger_ac [down_row 5 mf_c_down; down_row 5 mf_a_down] = app ex_ledger_ac (map (down_row 5) l) /\
    forall f, In f l -> ~ In (file_id f)
      (applied_migration_ids (app ex_ledger_ac [down_row 5 mf_c_down; down_row 5 mf_a_down])).
Proof.
  assert (H : migrate_down ex_exec 5 ex_ledger_ac Examples.ex_folder3 None None =
    Ok (app ex_ledger_ac [down_row 5 mf_c_down; down_row 5 mf_a_down], true)) by (vm_compute; reflexivity).
  split; [exact H|exact (migrate_down_rolls_back _ _ _ _ _ _ _ H)].
Defined.

Lemma rolled_back_stays_reverted_witness :
  In (mkRow 200 "200-b-down.sql" "b" "down" 3) Examples.ex_ledger /\
  ~ In "b" (applied_migration_ids (app Examples.ex_ledger [mkRow 200 "200-b-up.sql" "b" "up" 9])) /\
  (forall r, latest_query (app Examples.ex_ledger [mkRow 200 "200-b-up.sql" "b" "up" 9]) (Some r) ->
     l_file_id r <> "b") /\
  (forall fs nb mid l,
     get_rollback_files (app Examples.ex_ledger [mkRow 200 "200-b-up.sql" "b" "up" 9]) fs nb mid = Ok l ->
     Forall (fun f => file_id f <> "b") l).
Proof.
  assert (H : In (mkRow 200 "200-b-down.sql" "b" "down" 3) Examples.ex_ledger)
    by (right; right; left; reflexivity).
  split; [exact H|exact (rolled_back_stays_reverted _ _ [mkRow 200 "200-b-up.sql" "b" "up" 9] H eq_refl)].
Defined.


Lemma migrate_down_all_witness :
  get_files Examples.ex_folder3 false = Ok ex_files3 /\ iter_migration_files ex_files3 = Ok ex_pairs3 /\
  In (down_row 5 mf_c_down) (app ex_ledger_ac [down_row 5 mf_c_down; down_row 5 mf_a_down]).
Proof.
  assert (Hd : migrate_down ex_exec 5 ex_ledger_ac Examples.ex_folder3 None None =
    Ok (app ex_ledger_ac [down_row 5 mf_c_down; down_row 5 mf_a_down], true)) by (vm_compute; reflexivity).
  assert (Hf : get_files Examples.ex_folder3 false = Ok ex_files3) by (vm_compute; reflexivity).
  assert (Hp : iter_migration_files ex_files3 = Ok ex_pairs3) by (vm_compute; reflexivity).
  split; [exact Hf|split; [exact Hp|]].
  apply (migrate_down_all ex_exec 5 ex_ledger_ac Examples.ex_folder3 None _ true (or_introl eq_refl) Hd
           ex_files3 ex_pairs3 mf_c_up mf_c_down Hf Hp).
  - right; right; left; reflexivity.
  - vm_compute; right; left; reflexivity.
Defined.

Lemma chunks_of_one_concat l : concat (chunks_of_one l) = l.
Proof. unfold chunks_of_one; induction l as [|f t IH]; cbn; [reflexivity|rewrite IH; reflexivity]. Qed.

(** [b] was reverted: its [up] row is kept, so only [c] is missing. *)
Lemma get_missing_migrations_spec_witness :
  get_missing_migrations chunks_of_one Examples.ex_ledger Examples.ex_folder3 = Ok [mf_c_up] /\
  get_missing_migrations chunks_of_one Examples.ex_ledger Examples.ex_folder3 =
  (files <- get_files Examples.ex_folder3 true ;;
   Ok (filter (fun f => negb (mem_str (file_id f)
         (map l_file_id (filter (fun r => String.eqb (l_migration_type r) "up") Examples.ex_ledger)))) files)).
Proof.
  split; [vm_compute; reflexivity|].
  exact (get_missing_migrations_spec chunks_of_one chunks_of_one_concat Examples.ex_ledger Examples.ex_folder3).
Defined.

Lemma verify_migrations_complete_witness :
  verify_migrations chunks_of_one ex_exec 5 Examples.ex_ledger Examples.ex_folder3 =
    Ok (app Examples.ex_ledger [up_row 5 mf_c_up]) /\
  get_missing_migrations chunks_of_one (app Examples.ex_ledger [up_row 5 mf_c_up]) Examples.ex_folder3 = Ok [].
Proof.
  assert (H : verify_migrations chunks_of_one ex_exec 5 Examples.ex_ledger Examples.ex_folder3 =
    Ok (app Examples.ex_ledger [up_row 5 mf_c_up])) by (vm_compute; reflexivity).
  split; [exact H|exact (verify_migrations_complete chunks_of_one chunks_of_one_concat _ _ _ _ _ H)].
Defined.

Lemma migrate_up_applied_witness :
  migrate_up ex_exec 5 Examples.ex_ledger (Some Examples.ex_row_a) Examples.ex_folder3 0 =
    Ok (app Examples.ex_ledger [up_row 5 (mkMF 200 "b" "up" "200-b-up.sql" None); up_row 5 mf_c_up], true) /\
  exists files, get_migration_files (Some Examples.ex_row_a) Examples.ex_folder3 0 = Ok files /\ files <> [] /\
    app Examples.ex_ledger [up_row 5 (mkMF 200 "b" "up" "200-b-up.sql" None); up_row 5 mf_c_up] =
      app Examples.ex_ledger (map (up_row 5) files) /\
    forall m g, get_missing_migrations chunks_of_one
      (app Examples.ex_ledger [up_row 5 (mkMF 200 "b" "up" "200-b-up.sql" None); up_row 5 mf_c_up])
      Examples.ex_folder3 = Ok m -> In g m -> ~ In (file_id g) (map file_id files).
Proof.
  assert (H : migrate_up ex_exec 5 Examples.ex_ledger (Some Examples.ex_row_a) Examples.ex_folder3 0 =
    Ok (app Examples.ex_ledger [up_row 5 (mkMF 200 "b" "up" "200-b-up.sql" None); up_row 5 mf_c_up], true))
    by (vm_compute; reflexivity).
  split; [exact H|exact (migrate_up_applied chunks_of_one chunks_of_one_concat _ _ _ _ _ _ _ H)].
Defined.
End LedgerWitnesses.

Module ExtraWitnesses.
Import Files Helpers MigrationOps LedgerExamples LedgerWitnesses FilesExtra NameRoundTrip
  ReorderApplied ReorderAppliedFacts ExtraExamples.
Local Open Scope Z_scope.

Lemma get_files_spec_witness :
  get_files Examples.ex_folder3 true = Ok [mf_a_up; mf_b_up; mf_c_up] /\
  StronglySorted key_rel [mf_a_up; mf_b_up; mf_c_up] /\
  (exists parsed, map_result (fun p => from_file (fst p) (snd p))
                    (filter (fun p => glob_match true (fst p)) Examples.ex_folder3) = Ok parsed /\
                  Permutation parsed [mf_a_up; mf_b_up; mf_c_up]) /\
  (true = true -> Forall (fun f => is_up f = true) [mf_a_up; mf_b_up; mf_c_up]).
Proof.
  assert (H : get_files Examples.ex_folder3 true = Ok [mf_a_up; mf_b_up; mf_c_up]) by (vm_compute; reflexivity).
  split; [exact H|exact (get_files_spec _ _ _ H)].
Defined.

Lemma iter_migration_files_spec_witness :
  iter_migration_files ex_files3 = Ok ex_pairs3 /\
  map fst ex_pairs3 = filter is_up ex_files3 /\ map snd ex_pairs3 = filter is_down ex_files3 /\
  Forall (fun p => file_id (fst p) = file_id (snd p) /\ In (fst p) ex_files3 /\ In (snd p) ex_files3) ex_pairs3.
Proof.
  assert (H : iter_migration_files ex_files3 = Ok ex_pairs3) by (vm_compute; reflexivity).
  split; [exact H|exact (iter_migration_files_spec _ _ H)].
Defined.

(** On a host five hours behind UTC, the file renamed at the naive UTC
    time 2024-06-01 00:00:00.123456 gets the name of 05:00:00 UTC, which
    [parse_filename] reads back. *)
Lemma parse_filename_mf_name_witness :
  mf_name (fixed_offset_local (-18000)) 1717200000123456 mf_a_up = "1717218000-a-up.sql" /\
  parse_filename (mf_name (fixed_offset_local (-18000)) 1717200000123456 mf_a_up)
    = Ok (name_ts (fixed_offset_local (-18000)) 1717200000123456, "a", "up").
Proof.
  split; [vm_compute; reflexivity|].
  apply (parse_filename_mf_name (fixed_offset_local (-18000)) 1717200000123456 mf_a_up).
  - apply Z.leb_le; vm_compute; reflexivity.
  - apply Z.leb_le; vm_compute; reflexivity.
  - vm_compute; reflexivity.
  - left; reflexivity.
Defined.

(** On a host two hours ahead of UTC, the same file reads back 7200
    seconds before the time it was renamed at. *)
Lemma parse_filename_mf_name_offset_witness :
  mf_name (fixed_offset_local 7200) 1717200000123456 mf_a_up = "1717192800-a-up.sql" /\
  parse_filename (mf_name (fixed_offset_local 7200) 1717200000123456 mf_a_up)
    = Ok (1717200000123456 / 1000000 - 7200, "a", "up").
Proof.
  split; [vm_compute; reflexivity|].
  apply (parse_filename_mf_name_offset 7200 1717200000123456 mf_a_up).
  - apply Z.leb_le; vm_compute; reflexivity.
  - apply Z.leb_le; vm_compute; reflexivity.
  - vm_compute; reflexivity.
  - left; reflexivity.
Defined.

Lemma parse_filename_mf_name_negative_witness :
  mf_name utc_local (-2000000) mf_a_up = "-2-a-up.sql" /\
  exists e, parse_filename (mf_name utc_local (-2000000) mf_a_up) = Err e.
Proof.
  split; [vm_compute; reflexivity|].
  apply (parse_filename_mf_name_negative utc_local (-2000000) mf_a_up); vm_compute; reflexivity.
Defined.

Lemma reorder_files_by_applied_migrations_order_witness :
  reorder_files_by_applied_migrations utc_local ex5 ["d"; "b"] ex5_now = Ok (ex5_folder, ex5_modified) /\
  exists commit to_reorder after,
    Forall (fun p => is_up (fst p) = true /\ is_down (snd p) = true /\ file_id (fst p) = file_id (snd p))
      (app commit (app to_reorder after)) /\
    (forall x, In x ["d"; "b"] <-> In x (map (fun p => file_id (fst p)) commit)) /\
    StronglySorted pair_desc commit /\ StronglySorted pair_desc to_reorder /\
    StronglySorted pair_desc after /\
    (~ NoDup ["d"; "b"] -> after = []) /\
    length ex5_modified = (2 * length (app commit (app to_reorder after)))%nat /\
    forall i u d, nth_error (app commit (app to_reorder after)) i = Some (u, d) ->
      nth_error ex5_modified (2 * i) = Some (mf_name utc_local (ex5_now + Z.of_nat i * 1000000) u) /\
      nth_error ex5_modified (2 * i + 1) = Some (mf_name utc_local (ex5_now + Z.of_nat i * 1000000) d).
Proof.
  assert (H : reorder_files_by_applied_migrations utc_local ex5 ["d"; "b"] ex5_now = Ok (ex5_folder, ex5_modified))
    by (vm_compute; reflexivity).
  split; [exact H|exact (reorder_files_by_applied_migrations_order _ _ _ _ _ _ H)].
Defined.
End ExtraWitnesses.

(** ** The sampling theorems on [users] and [posts] *)
Module SamplingWitnesses.
Import Sampling SamplingExamples ReferentialClosure SamplingSourcesFacts.

Lemma sample_database_no_ignored_witness :
  sample_database ex_blog_src (firstn_rows ex_blog_src) (pick_unseen ex_blog_src) (fun l => l) 10 ex_blog
    = Some (Ok ex_blog_target) /\
  forall t, In t ex_blog -> ignore t = false.
Proof.
  assert (H : sample_database ex_blog_src (firstn_rows ex_blog_src) (pick_unseen ex_blog_src) (fun l => l) 10
                ex_blog = Some (Ok ex_blog_target)) by (vm_compute; reflexivity).
  split; [exact H|].
  refine (sample_database_no_ignored ex_blog_src (firstn_rows ex_blog_src) (pick_unseen ex_blog_src)
           (fun l => l) (firstn_rows_src ex_blog_src) (pick_unseen_src ex_blog_src)
           (fun l => Permutation_refl l) ex_blog _ 10 ex_blog_target H).
  repeat constructor; cbn; intuition discriminate.
Defined.

Lemma sample_database_rows_from_source_witness :
  sample_database ex_blog_src (firstn_rows ex_blog_src) (pick_unseen ex_blog_src) (fun l => l) 10 ex_blog
    = Some (Ok ex_blog_target) /\
  (forall t r, In t ex_blog -> In r (ex_blog_target (full_name t)) ->
     exists s0, In s0 (ex_blog_src (full_name t)) /\ r = proj t s0) /\
  (forall n, lookup_table ex_blog n = None -> ex_blog_target n = []).
Proof.
  assert (H : sample_database ex_blog_src (firstn_rows ex_blog_src) (pick_unseen ex_blog_src) (fun l => l) 10
                ex_blog = Some (Ok ex_blog_target)) by (vm_compute; reflexivity).
  split; [exact H|].
  refine (sample_database_rows_from_source ex_blog_src (firstn_rows ex_blog_src) (pick_unseen ex_blog_src)
           (fun l => l) (firstn_rows_src ex_blog_src) (pick_unseen_src ex_blog_src)
           (fun l => Permutation_refl l) ex_blog _ 10 ex_blog_target H).
  repeat constructor; cbn; intuition discriminate.
Defined.
End SamplingWitnesses.
